(** * MLAS NEON fp16 tests: the reference weight packer and the cast checks

    Shallow embedding of
    [onnxruntime/test/mlas/unittest/test_sqnbitgemm_neon_fp16.cpp]:
    the scalar reference packer [Prepack] (with [Transpose8x8], [GetInt4],
    [PrepackSlice]), the stride computation of [TestPrepack], the rest of
    the packing test ([InitializeBuffer], [Check], [TestPrepack],
    [ExecuteShort]), and the two cast checks [TestFp16ToFp32] /
    [TestFp32ToFp16].

    Machine integers are [Z] with the wrap-around of [size_t] written out;
    the [int] counter of the tail loop is checked for signed overflow.
    Buffers are [list Z] of bytes; an access outside a buffer, and a signed
    overflow, are undefined behaviour and end the run with [Undefined]. *)

From Stdlib Require Import ZArith List Lia Bool Permutation FinFun QArith.
Import ListNotations.
Local Open Scope Z_scope.

(** * The embedding *)

(** ** Machine integers *)

Definition two64 : Z := 2 ^ 64.
Definition SIZE_MAX : Z := two64 - 1.
Definition INT_MAX : Z := 2 ^ 31 - 1.

(** Conversion to [size_t] (reduction modulo 2^64). *)
Definition size_t (x : Z) : Z := x mod two64.
(** Conversion to [uint8_t]. *)
Definition uint8 (x : Z) : Z := x mod 256.

Definition sadd (a b : Z) : Z := size_t (a + b).
Definition ssub (a b : Z) : Z := size_t (a - b).
Definition smul (a b : Z) : Z := size_t (a * b).
Definition snot (a : Z) : Z := size_t (Z.lnot a).

(** ** Buffers, events and the run monad *)

Inductive event : Type :=
| RdSrc (i : Z)   (* src[i] was read *)
| WrDst (j v : Z).  (* dst[j] = v was executed *)

(** The two vectors the packer receives by reference, and the history of
    accesses, most recent first. *)
Record state : Type := mkState {
  src : list Z;
  dst : list Z;
  trace : list event
}.

Inductive fault : Type := OutOfBounds | SignedOverflow.

Inductive outcome (A : Type) : Type :=
| Done (a : A) (s : state)
| Undefined (f : fault)
| Timeout.
Arguments Done {A} a s.
Arguments Undefined {A} f.
Arguments Timeout {A}.

Definition M (A : Type) : Type := state -> outcome A.

Definition ret {A} (a : A) : M A := fun s => Done a s.

Definition bind {A B} (m : M A) (f : A -> M B) : M B :=
  fun s => match m s with
           | Done a s' => f a s'
           | Undefined e => Undefined e
           | Timeout => Timeout
           end.

Notation "x <- m ;; k" := (bind m (fun x => k))
  (at level 61, m at next level, right associativity).
Notation "m ;;; k" := (bind m (fun _ => k))
  (at level 61, right associativity).

Fixpoint list_set (l : list Z) (n : nat) (v : Z) : list Z :=
  match l, n with
  | [], _ => []
  | _ :: t, O => v :: t
  | h :: t, S n' => h :: list_set t n' v
  end.

(** [src[i]] for a [size_t] index. *)
Definition read_src (i : Z) : M Z :=
  fun s => match nth_error (src s) (Z.to_nat i) with
           | Some v => Done v (mkState (src s) (dst s) (RdSrc i :: trace s))
           | None => Undefined OutOfBounds
           end.

(** [dst[j] = v] for a [size_t] index and a [uint8_t] value. *)
Definition write_dst (j v : Z) : M unit :=
  fun s => if j <? Z.of_nat (length (dst s))
           then Done tt (mkState (src s) (list_set (dst s) (Z.to_nat j) v)
                                 (WrDst j v :: trace s))
           else Undefined OutOfBounds.

(** [for (; cond(i); i = next(i)) body(i);] started at [i]; the value is the
    counter on exit.  [next] is [None] when the increment overflows a signed
    counter. *)
Fixpoint for_loop (fuel : nat) (cond : Z -> bool) (next : Z -> option Z)
         (body : Z -> M unit) (i : Z) : M Z :=
  match fuel with
  | O => fun _ => Timeout
  | S fuel' =>
      if cond i then
        body i ;;;
        match next i with
        | Some i' => for_loop fuel' cond next body i'
        | None => fun _ => Undefined SignedOverflow
        end
      else ret i
  end.

(** [i++] / [i += d] on a [size_t] counter. *)
Definition size_t_step (d : Z) (i : Z) : option Z := Some (sadd i d).
(** [k += d] on an [int] counter. *)
Definition int_step (d : Z) (k : Z) : option Z :=
  if k + d <=? INT_MAX then Some (k + d) else None.

(** ** The reference packer *)

(** [size_t i = (n + c) * Ldb + r + k;] *)
Definition Transpose8x8_i (Ldb n k c r : Z) : Z :=
  sadd (sadd (smul (sadd n c) Ldb) r) k.
(** [size_t j = n * Ldb + (r + k) * 8 + c;] *)
Definition Transpose8x8_j (Ldb n k c r : Z) : Z :=
  sadd (sadd (smul n Ldb) (smul (sadd r k) 8)) c.

Definition Transpose8x8 (Ldb n k : Z) : M unit :=
  for_loop 9 (fun c => c <? 8) (size_t_step 1) (fun c =>
    for_loop 9 (fun r => r <? 8) (size_t_step 1) (fun r =>
      v <- read_src (Transpose8x8_i Ldb n k c r) ;;
      write_dst (Transpose8x8_j Ldb n k c r) v) 0 ;;; ret tt) 0 ;;; ret tt.

(** [return (i & 1) ? (v >> 4) : (v & 0x0f);] *)
Definition GetInt4 (v i : Z) : Z :=
  if Z.land i 1 =? 0 then uint8 (Z.land v 15) else uint8 (Z.shiftr v 4).

(** The three indices of one iteration of [PrepackSlice]:
    [j + (i >> 1)], [j + ((8 + i) >> 1)] and [j + i]. *)
Definition PrepackSlice_i0 (j i : Z) : Z := sadd j (Z.shiftr i 1).
Definition PrepackSlice_i1 (j i : Z) : Z := sadd j (Z.shiftr (sadd 8 i) 1).
Definition PrepackSlice_j (j i : Z) : Z := sadd j i.

Definition PrepackSlice (j : Z) : M unit :=
  for_loop 9 (fun i => i <? 8) (size_t_step 1) (fun i =>
    b0 <- read_src (PrepackSlice_i0 j i) ;;
    b1 <- read_src (PrepackSlice_i1 j i) ;;
    let v0 := GetInt4 b0 i in
    let v1 := GetInt4 b1 (sadd i 8) in
    write_dst (PrepackSlice_j j i) (uint8 (Z.lor v0 (Z.shiftl v1 4)))) 0 ;;;
  ret tt.

(** The transpose path: all chunks of the 8 columns from [n] on. *)
Definition transpose_columns (fuel : nat) (Ldb n : Z) : M unit :=
  for_loop fuel (fun k => k <? Ldb) (size_t_step 8) (fun k =>
    Transpose8x8 Ldb n k) 0 ;;; ret tt.

(** The regroup path: all chunks of column [n]; the chunk counter [k] is an
    [int], compared with [Ldb] and added to [n * Ldb] as a [size_t]. *)
Definition regroup_column (fuel : nat) (Ldb n : Z) : M unit :=
  for_loop fuel (fun k => size_t k <? Ldb) (int_step 8) (fun k =>
    PrepackSlice (sadd (smul n Ldb) (size_t k))) 0 ;;; ret tt.

(** First loop of [Prepack]: [for (; n + 8 <= N; n += 8)]. *)
Definition Prepack_tiles (fuel : nat) (Ldb N : Z) : M Z :=
  for_loop fuel (fun n => sadd n 8 <=? N) (size_t_step 8)
           (transpose_columns fuel Ldb) 0.

(** Second loop of [Prepack]: [for (; n < N; ++n)], from the [n] the first
    loop ended with. *)
Definition Prepack_tail (fuel : nat) (Ldb N n : Z) : M Z :=
  for_loop fuel (fun n => n <? N) (size_t_step 1)
           (regroup_column fuel Ldb) n.

Definition Prepack (fuel : nat) (Ldb N : Z) : M unit :=
  n <- Prepack_tiles fuel Ldb N ;;
  Prepack_tail fuel Ldb N n ;;; ret tt.

(** ** Sizes computed by [TestPrepack] *)

Definition Bits : Z := 4.

(** [(((K + BlkLen - 1) & (~(BlkLen - 1))) * Bits + 7) / 8] *)
Definition Ldb_of (K BlkLen : Z) : Z :=
  sadd (smul (Z.land (ssub (sadd K BlkLen) 1) (snot (ssub BlkLen 1))) Bits) 7 / 8.

(** [BufferSize = N * Ldb] *)
Definition BufferSize (N K BlkLen : Z) : Z := smul N (Ldb_of K BlkLen).

(** [Prepack<Ldb, N, K>(input, ref)] run on an input buffer and a reference
    buffer, both of [BufferSize] bytes as [TestPrepack] allocates them. *)
Definition run_Prepack (fuel : nat) (Ldb N : Z) (input ref : list Z)
  : outcome unit :=
  Prepack fuel Ldb N (mkState input ref []).

(** ** Reading a run off its events *)

Definition getb (l : list Z) (i : Z) : Z := nth (Z.to_nat i) l 0.

Definition apply_event (d : list Z) (e : event) : list Z :=
  match e with
  | RdSrc _ => d
  | WrDst j v => list_set d (Z.to_nat j) v
  end.

(** The destination after the events [evs], oldest first. *)
Definition replay (evs : list event) (d : list Z) : list Z :=
  fold_left apply_event evs d.

Definition written (e : event) : list Z :=
  match e with RdSrc _ => [] | WrDst j _ => [j] end.
Definition read (e : event) : list Z :=
  match e with RdSrc i => [i] | WrDst _ _ => [] end.

(** Indices written, and indices read, by a list of events. *)
Definition writes (evs : list event) : list Z := flat_map written evs.
Definition reads (evs : list event) : list Z := flat_map read evs.

(** [zrange a n] is [a; a+1; ...; a+n-1]. *)
Definition zrange (a : Z) (n : nat) : list Z :=
  map (fun t => a + Z.of_nat t) (seq 0 n).

(** [m] run on source [S0] and any destination of [len] bytes ends normally
    with value [a], leaves the source as it is and performs exactly the
    accesses [evs]. *)
Definition emits {A} (S0 : list Z) (len : nat) (m : M A) (a : A)
           (evs : list event) : Prop :=
  forall d t, length d = len ->
    m (mkState S0 d t) = Done a (mkState S0 (replay evs d) (rev evs ++ t)).

(** [m] never ends normally. *)
Definition stuck {A} (S0 : list Z) (len : nat) (m : M A) : Prop :=
  forall d t, length d = len -> forall a s, m (mkState S0 d t) <> Done a s.

(** [m] ends in the undefined behaviour [f]. *)
Definition faults {A} (S0 : list Z) (len : nat) (m : M A) (f : fault) : Prop :=
  forall d t, length d = len -> m (mkState S0 d t) = Undefined f.

(** *** The events of one call of [Transpose8x8] and of [PrepackSlice] *)

Definition Transpose8x8_events (S0 : list Z) (Ldb n k : Z) : list event :=
  flat_map (fun c => flat_map (fun r =>
      let i := (n + Z.of_nat c) * Ldb + Z.of_nat r + k in
      let j := n * Ldb + (Z.of_nat r + k) * 8 + Z.of_nat c in
      [RdSrc i; WrDst j (getb S0 i)]) (seq 0 8)) (seq 0 8).

Definition PrepackSlice_events (S0 : list Z) (j : Z) : list event :=
  flat_map (fun t =>
      let i := Z.of_nat t in
      let b0 := getb S0 (j + Z.shiftr i 1) in
      let b1 := getb S0 (j + Z.shiftr (8 + i) 1) in
      [RdSrc (j + Z.shiftr i 1); RdSrc (j + Z.shiftr (8 + i) 1);
       WrDst (j + i)
             (uint8 (Z.lor (GetInt4 b0 i) (Z.shiftl (GetInt4 b1 (i + 8)) 4)))])
    (seq 0 8).

(** *** The events of [Prepack] *)

(** Number of 8-byte chunks of a column. *)
Definition chunks (Ldb : Z) : nat := Z.to_nat (Ldb / 8).

Definition transpose_columns_events (S0 : list Z) (Ldb n : Z) : list event :=
  flat_map (fun q => Transpose8x8_events S0 Ldb n (8 * Z.of_nat q))
           (seq 0 (chunks Ldb)).

Definition regroup_column_events (S0 : list Z) (Ldb n : Z) : list event :=
  flat_map (fun q => PrepackSlice_events S0 (n * Ldb + 8 * Z.of_nat q))
           (seq 0 (chunks Ldb)).

Definition tiles_events (S0 : list Z) (Ldb N : Z) : list event :=
  flat_map (fun t => transpose_columns_events S0 Ldb (8 * Z.of_nat t))
           (seq 0 (Z.to_nat (N / 8))).

Definition tail_events (S0 : list Z) (Ldb N : Z) : list event :=
  flat_map (fun u => regroup_column_events S0 Ldb (8 * (N / 8) + Z.of_nat u))
           (seq 0 (Z.to_nat (N mod 8))).

Definition Prepack_events (S0 : list Z) (Ldb N : Z) : list event :=
  tiles_events S0 Ldb N ++ tail_events S0 Ldb N.

(** What the theorems on whole runs assume of the sizes: the stride is a
    positive multiple of 8 and the buffers of [N * Ldb] bytes exist (their
    size is a [size_t]). *)
Record sizes_ok (Ldb N : Z) : Prop := {
  N_pos : 1 <= N;
  Ldb_pos : 1 <= Ldb;
  Ldb_mod8 : Ldb mod 8 = 0;
  buffer_fits : N * Ldb <= SIZE_MAX
}.

(** Fuel that covers each of the three data-dependent loops. *)
Definition enough (fuel : nat) (Ldb N : Z) : Prop :=
  N / 8 < Z.of_nat fuel /\ Ldb / 8 < Z.of_nat fuel /\ N mod 8 < Z.of_nat fuel.

(** The [int] chunk counter of the regroup path stays in range: that path is
    not taken, or the stride fits an [int]. *)
Definition int_counter_ok (Ldb N : Z) : Prop := N mod 8 = 0 \/ Ldb <= INT_MAX.

(** ** The two layouts, element by element *)

(** [std::vector::max_size()] for bytes. *)
Definition max_size : Z := 2 ^ 63 - 1.
Definition is_byte (b : Z) : Prop := 0 <= b < 256.

(** Low ([h = 0]) or high nibble of a byte. *)
Definition nibble (b h : Z) : Z := if h =? 0 then Z.land b 15 else Z.shiftr b 4.

(** Source layout: element [kidx] of column [col] is in byte
    [col * Ldb + kidx / 2], even indices in the low nibble. *)
Definition source_nibble (Ldb : Z) (buf : list Z) (col kidx : Z) : Z :=
  nibble (getb buf (col * Ldb + kidx / 2)) (kidx mod 2).

(** Packed layout.  A column of a full tile has its byte [kidx / 2] at offset
    [(kidx / 2) * 8 + col mod 8] of the tile; a tail column has element
    [16 g + p] in byte [8 g + p mod 8] of the column, nibble [p / 8]. *)
Definition packed_nibble (Ldb N : Z) (buf : list Z) (col kidx : Z) : Z :=
  if col <? 8 * (N / 8) then
    nibble (getb buf (8 * (col / 8) * Ldb + (kidx / 2) * 8 + col mod 8))
           (kidx mod 2)
  else
    nibble (getb buf (col * Ldb + 8 * (kidx / 16) + kidx mod 8))
           ((kidx mod 16) / 8).

(** The 4-bit values of a buffer, in byte order, low nibble first. *)
Definition nibbles (buf : list Z) : list Z :=
  flat_map (fun b => [Z.land b 15; Z.shiftr b 4]) buf.

(** Element [p] of the group of 16 that starts at byte [j]. *)
Definition element (buf : list Z) (j p : Z) : Z :=
  nibble (getb buf (j + p / 2)) (p mod 2).

(** *** The packed buffer holds the nibbles of the source, rearranged *)

Definition bytes_at (buf : list Z) (idxs : list Z) : list Z := map (getb buf) idxs.

(** The bytes found at the written indices are the bytes read. *)
Definition copies (S0 D : list Z) (evs : list event) : Prop :=
  bytes_at D (writes evs) = bytes_at S0 (reads evs).

(** *** The stride *)

(** The stride in the words of the data model: [K] is rounded up to the next
    multiple of [BlkLen], and a column takes [ceil(K_padded * 4 / 8)] bytes. *)
Definition ceil_div (a b : Z) : Z := (a + b - 1) / b.
Definition K_padded (K BlkLen : Z) : Z := ceil_div K BlkLen * BlkLen.
Definition Ldb_spec (K BlkLen : Z) : Z := ceil_div (K_padded K BlkLen * 4) 8.

(** *** The two regimes *)




(** *** The [int] counter of the regroup path *)

Definition is_done {A} (o : outcome A) : bool :=
  match o with Done _ _ => true | _ => false end.

(** Number of chunks the [int] counter can step over: [8 * 268435455] is the
    last multiple of 8 below [INT_MAX]. *)
Definition int_chunks : nat := Z.to_nat 268435455.

(** A column of [2^31 + 8] bytes, as [TestPrepack<1, 2^32 + 16, 16>]
    allocates it. *)
Definition big_column : list Z := repeat 0 (Z.to_nat (2 ^ 31 + 8)).

(** ** The cast checks *)

(** *** Bit patterns and their values *)

(** Fields of a binary16 pattern. *)
Definition F16_sign (p : Z) : Z := Z.land (Z.shiftr p 15) 1.
Definition F16_exp (p : Z) : Z := Z.land (Z.shiftr p 10) 31.
Definition F16_frac (p : Z) : Z := Z.land p 1023.
(** [(p & 0x7C00) != 0x7C00]: neither infinity nor NaN. *)
Definition F16_finite (p : Z) : bool := negb (Z.land p 31744 =? 31744).

(** Fields of a binary32 pattern. *)
Definition F32_sign (x : Z) : Z := Z.land (Z.shiftr x 31) 1.
Definition F32_exp (x : Z) : Z := Z.land (Z.shiftr x 23) 255.
Definition F32_frac (x : Z) : Z := Z.land x 8388607.
Definition F32_finite (x : Z) : bool := negb (F32_exp x =? 255).
Definition F32_isnan (x : Z) : bool := (F32_exp x =? 255) && negb (F32_frac x =? 0).

(** Magnitudes as integers: the absolute value encoded by a pattern, times
    [2^149] (the smallest binary32 subnormal is [2^-149], the smallest
    binary16 subnormal [2^-24 = 2^125 * 2^-149]).  For the exponent field 31
    of binary16 the formula is continued, so that [0x7C00] stands for
    [2^16]. *)
Definition F16_scaled (p : Z) : Z :=
  if F16_exp p =? 0 then Z.shiftl (F16_frac p) 125
  else Z.shiftl (1024 + F16_frac p) (F16_exp p - 1 + 125).

Definition F32_scaled (x : Z) : Z :=
  if F32_exp x =? 0 then F32_frac x
  else Z.shiftl (8388608 + F32_frac x) (F32_exp x - 1).

Definition signed (s : Z) (q : Q) : Q := if s =? 0 then q else Qopp q.

(** The rational number a finite pattern encodes. *)
Definition F16_value (p : Z) : Q :=
  signed (F16_sign p) (Qmake (F16_scaled p) (2 ^ 149)).
Definition F32_value (x : Z) : Q :=
  signed (F32_sign x) (Qmake (F32_scaled x) (2 ^ 149)).

(** *** The two kernels *)

Definition F16_isnan (p : Z) : bool := (F16_exp p =? 31) && negb (F16_frac p =? 0).

(** Modelled from the spec: one lane of [MlasCastF16ToF32KernelNeon]
    ([WidenToFull]), which is not among the sources: exact for zero,
    subnormal and normal patterns; infinity stays infinity and a NaN stays a
    NaN.  The spec leaves the bits of a widened NaN open and does not promise
    that the vector path and the scalar path agree on them: with [quiet] the
    NaN is made quiet, as the hardware conversion does, without it the
    payload is moved as it is. *)
Definition widen_lane (quiet : bool) (p : Z) : Z :=
  let s := F16_sign p in
  let e := F16_exp p in
  let m := F16_frac p in
  Z.shiftl s 31 +
  (if e =? 31 then
     if m =? 0 then 2139095040                       (* 0x7F800000 *)
     else Z.lor (if quiet then 2143289344 else 2139095040) (Z.shiftl m 13)
   else if e =? 0 then
     if m =? 0 then 0
     else let k := Z.log2 m in
          Z.shiftl (k + 103) 23 + (Z.shiftl m (23 - k) - 8388608)
   else Z.shiftl (e + 112) 23 + Z.shiftl m 13).

(** Modelled from the spec: the hardware conversion of a vector lane and the
    scalar fall-back of [WidenToFull] (not among the sources). *)
Definition widen_vector : Z -> Z := widen_lane true.
Definition widen_scalar : Z -> Z := widen_lane false.

(** Modelled from the spec: part of the lane conversion of [NarrowToHalf],
    which is not among the sources.  [m >> k] rounded to nearest, a tie to
    the even quotient. *)
Definition round_shift (m k : Z) : Z :=
  let q := Z.shiftr m k in
  let r := Z.land m (Z.ones k) in
  let half := Z.shiftl 1 (k - 1) in
  if (half <? r) || ((r =? half) && Z.odd q) then q + 1 else q.

(** Modelled from the spec: part of the lane conversion of [NarrowToHalf],
    which is not among the sources.  Magnitude bits of the narrowed value of
    a finite pattern. *)
Definition narrow_mag (x : Z) : Z :=
  let e := F32_exp x in
  let m := if e =? 0 then F32_frac x else 8388608 + F32_frac x in
  if 143 <=? e then 31744                             (* overflow: 0x7C00 *)
  else if e <? 113 then round_shift m (126 - Z.max e 1)
  else Z.shiftl (e - 113) 10 + round_shift m 13.

(** Modelled from the spec: one lane of [MlasCastF32ToF16KernelNeon]
    ([NarrowToHalf]), which is not among the sources, rounding to nearest:
    the 13 (or more, for a subnormal result) low bits of the significand are
    rounded away, a carry moves to the next exponent and past the largest
    finite value to infinity.  Infinity stays infinity and a NaN stays a NaN,
    with the top of its payload ([payload], the hardware conversion) or as
    the one quiet NaN [0x7E00]; the spec leaves these bits open. *)
Definition narrow_lane (payload : bool) (x : Z) : Z :=
  let s := F32_sign x in
  Z.shiftl s 15 +
  (if F32_exp x =? 255 then
     if F32_frac x =? 0 then 31744                    (* 0x7C00 *)
     else if payload
          then 32256 + Z.shiftr (Z.land (F32_frac x) 4194303) 13
          else 32256                                  (* 0x7E00 *)
   else narrow_mag x).

(** Modelled from the spec: the hardware conversion of a vector lane and the
    scalar fall-back of [NarrowToHalf] (not among the sources). *)
Definition narrow_vector : Z -> Z := narrow_lane true.
Definition narrow_scalar : Z -> Z := narrow_lane false.

(** Modelled from the spec: the vector width of the kernels, which are not
    among the sources; the spec calls the counts 1, 3, 4, 6 and 7 smaller
    than one vector width, so a vector has 8 lanes. *)
Definition vector_width : nat := 8.

(** Modelled from the spec: the scalar fall-back of the two kernels, which
    are not among the sources: the last, partial chunk is converted element
    by element. *)
Fixpoint cast_scalar_tail (conv : Z -> Z) (src : list Z) (count : nat) : list Z :=
  match count, src with
  | S c, x :: src' => conv x :: cast_scalar_tail conv src' c
  | _, _ => []
  end.

(** Modelled from the spec: the hardware conversion of one vector, lane by
    lane (the kernels are not among the sources). *)
Definition cast_vector (conv : Z -> Z) (lanes : list Z) : list Z := map conv lanes.

(** Modelled from the spec: the loop of a kernel over the buffer (not among
    the sources): whole vectors first, with the hardware conversion [vec],
    then the scalar tail, with [scalar]. *)
Fixpoint cast_kernel (fuel : nat) (vec scalar : Z -> Z) (src : list Z)
         (count : nat) : list Z :=
  match fuel with
  | O => []
  | S fuel' =>
      if (vector_width <=? count)%nat then
        cast_vector vec (firstn vector_width src)
        ++ cast_kernel fuel' vec scalar (skipn vector_width src)
                       (count - vector_width)
      else cast_scalar_tail scalar src count
  end.

(** Modelled from the spec: [WidenToFull(src, count)] and
    [NarrowToHalf(src, count)], the two kernels that are not among the
    sources ([MlasCastF16ToF32KernelNeon], [MlasCastF32ToF16KernelNeon]). *)
Definition WidenToFull (src : list Z) (count : nat) : list Z :=
  cast_kernel (S count) widen_vector widen_scalar src count.
Definition NarrowToHalf (src : list Z) (count : nat) : list Z :=
  cast_kernel (S count) narrow_vector narrow_scalar src count.

(** *** Widening is exact *)

Definition widen_exact_at (p : Z) : bool :=
  implb (F16_finite p)
        ((F32_scaled (widen_vector p) =? F16_scaled p)
         && (F32_sign (widen_vector p) =? F16_sign p)
         && F32_finite (widen_vector p)
         && (widen_scalar p =? widen_vector p)
         && negb (F16_isnan p)).

(** Infinity is widened to the infinity of its sign, a NaN to a NaN, on
    either path. *)
Definition widen_class_at (p : Z) : bool :=
  F16_finite p
  || (if F16_isnan p
      then F32_isnan (widen_vector p) && F32_isnan (widen_scalar p)
      else (widen_vector p =? Z.shiftl (F16_sign p) 31 + 2139095040)
           && (widen_scalar p =? Z.shiftl (F16_sign p) 31 + 2139095040)).

(** [f] holds at [a], [a + 1], ..., [a + n - 1]. *)
Fixpoint all_from (f : Z -> bool) (n : nat) (a : Z) : bool :=
  match n with
  | O => true
  | S n' => f a && all_from f n' (a + 1)
  end.

(** *** Narrowing rounds to nearest *)

(** Modelled from the spec: what "round to nearest" asks of the reference
    conversion, which is not among the sources.  [h] is the binary16
    magnitude nearest to the magnitude [V] (scaled by [2^149]), and the even
    one of two equally near; the pattern [0x7C00] (infinity) takes part with
    the value [2^16]. *)
Definition nearest_even (V h : Z) : Prop :=
  0 <= h <= 31744 /\
  (forall h', 0 <= h' <= 31744 ->
     Z.abs (F16_scaled h - V) <= Z.abs (F16_scaled h' - V)) /\
  (forall h', 0 <= h' <= 31744 -> h' <> h ->
     Z.abs (F16_scaled h' - V) = Z.abs (F16_scaled h - V) -> Z.even h = true).

(** Modelled from the spec: the scalar reference conversion
    ([MLAS_FP16(float)]) is not among the sources; the spec asks of it only
    that it rounds a finite 32-bit value to the nearest 16-bit value.  [y] is
    a result of such a conversion of [x]: the sign of [x], and the nearest
    magnitude (ties to even, as IEEE 754 round-to-nearest has them). *)
Definition round_to_nearest (x y : Z) : Prop :=
  exists h, y = Z.shiftl (F32_sign x) 15 + h /\ nearest_even (F32_scaled x) h.

(** *** The two checks of the test *)

Definition uint16 (x : Z) : Z := x mod 65536.

(** [a == b] on two binary32 patterns: no NaN, the same magnitude, and the
    same sign unless both are zero. *)
Definition F32_eqb (a b : Z) : bool :=
  negb (F32_isnan a) && negb (F32_isnan b)
  && (F32_scaled a =? F32_scaled b)
  && ((F32_sign a =? F32_sign b) || (F32_scaled a =? 0)).

(** The pattern of [n / 8] for [0 <= n < 2^24], which binary32 holds
    exactly. *)
Definition F32_of_eighths (n : Z) : Z :=
  if n =? 0 then 0
  else let k := Z.log2 n in
       Z.shiftl (k + 124) 23 + (Z.shiftl n (23 - k) - 8388608).

(** [src[i] = static_cast<float>(i) + 0.125f]. *)
Definition TestFp32ToFp16_src (i : Z) : Z := F32_of_eighths (8 * i + 1).

Definition TestFp32ToFp16_inputs (count : nat) : list Z :=
  map (fun i => TestFp32ToFp16_src (Z.of_nat i)) (seq 0 count).

(** [TestFp32ToFp16<count>]: [ASSERT_EQ(dest[i], MLAS_FP16(src[i]).val)]. *)
Definition TestFp32ToFp16 (kernel : list Z -> nat -> list Z)
           (reference : Z -> Z) (count : nat) : bool :=
  let src := TestFp32ToFp16_inputs count in
  let dest := kernel src count in
  forallb (fun i => nth i dest 0 =? reference (nth i src 0)) (seq 0 count).

Definition TestFp16ToFp32_inputs (count : nat) : list Z :=
  map (fun i => uint16 (Z.of_nat i)) (seq 0 count).

(** [TestFp16ToFp32<count>]: patterns with [(src[i] & 0x1c00) == 0x1c00] are
    skipped, the others compared with [MLAS_FP16::FromBits(src[i]).ToFloat()]. *)
Definition TestFp16ToFp32 (kernel : list Z -> nat -> list Z)
           (reference : Z -> Z) (count : nat) : bool :=
  let src := TestFp16ToFp32_inputs count in
  let dest := kernel src count in
  forallb (fun i =>
             if Z.land (nth i src 0) 7168 =? 7168 then true
             else F32_eqb (nth i dest 0) (reference (nth i src 0)))
          (seq 0 count).

(** [1 << 16], the count of the two sweeps. *)
Definition sweep : nat := Z.to_nat 65536.

(** [ExecuteShort] of the cast test. *)
Definition ExecuteShort_cast (widen narrow : list Z -> nat -> list Z)
           (to_float from_float : Z -> Z) : bool :=
  TestFp16ToFp32 widen to_float sweep && TestFp16ToFp32 widen to_float 1
  && TestFp16ToFp32 widen to_float 4 && TestFp16ToFp32 widen to_float 7
  && TestFp32ToFp16 narrow from_float sweep && TestFp32ToFp16 narrow from_float 3
  && TestFp32ToFp16 narrow from_float 4 && TestFp32ToFp16 narrow from_float 6.

Definition sweep_ok_at (i : Z) : bool :=
  F32_finite (TestFp32ToFp16_src i)
  && (F32_sign (TestFp32ToFp16_src i) =? 0)
  && (F32_scaled (TestFp32ToFp16_src i) =? Z.shiftl (8 * i + 1) 146).

Definition not_skipped_finite_at (p : Z) : bool :=
  (Z.land p 7168 =? 7168) || F16_finite p.

(** ** The rest of the packing test *)

(** How a part of the test ends: it ran on with a value; an [ASSERT_EQ]
    failed, which makes the function return ([msg] holds the numbers of its
    message); an index was outside a vector; or the fuel ran out. *)
Inductive verdict (A : Type) : Type :=
| Passed (a : A)
| AssertFailed (msg : list Z)
| TestUndefined
| TestTimeout.
Arguments Passed {A} a.
Arguments AssertFailed {A} msg.
Arguments TestUndefined {A}.
Arguments TestTimeout {A}.

Definition vbind {A B} (m : verdict A) (f : A -> verdict B) : verdict B :=
  match m with
  | Passed a => f a
  | AssertFailed msg => AssertFailed msg
  | TestUndefined => TestUndefined
  | TestTimeout => TestTimeout
  end.

(** [for (; cond(i); i = next(i)) body(i);] on a [size_t] counter, left at
    the first failed assertion. *)
Fixpoint check_loop (fuel : nat) (cond : Z -> bool) (next : Z -> Z)
         (body : Z -> verdict unit) (i : Z) : verdict Z :=
  match fuel with
  | O => TestTimeout
  | S fuel' =>
      if cond i then
        vbind (body i) (fun _ => check_loop fuel' cond next body (next i))
      else Passed i
  end.

(** [ASSERT_EQ(packed[idx], ref[idx]) << msg]. *)
Definition ASSERT_EQ_at (packed ref : list Z) (idx : Z) (msg : list Z)
  : verdict unit :=
  match nth_error packed (Z.to_nat idx), nth_error ref (Z.to_nat idx) with
  | Some a, Some b => if a =? b then Passed tt else AssertFailed msg
  | _, _ => TestUndefined
  end.

(** [n * Ldb + (i >> 1) * 8 + j] and [n * Ldb + (i >> 1)]. *)
Definition Check_tile_index (Ldb n i j : Z) : Z :=
  sadd (sadd (smul n Ldb) (smul (Z.shiftr i 1) 8)) j.
Definition Check_tail_index (Ldb n i : Z) : Z :=
  sadd (smul n Ldb) (Z.shiftr i 1).

(** First loop of [Check]: [for (; n + 8 <= N; n += 8)]. *)
Definition Check_tiles (fuel : nat) (Ldb N K : Z) (packed ref : list Z)
  : verdict Z :=
  check_loop fuel (fun n => sadd n 8 <=? N) (fun n => sadd n 8) (fun n =>
    vbind (check_loop fuel (fun i => i <? K) (fun i => sadd i 2) (fun i =>
      vbind (check_loop 9 (fun j => j <? 8) (fun j => sadd j 1) (fun j =>
        ASSERT_EQ_at packed ref (Check_tile_index Ldb n i j) [n; i; j]) 0)
            (fun _ => Passed tt)) 0)
          (fun _ => Passed tt)) 0.

(** Second loop of [Check]: [for (; n < N; ++n)], from the [n] the first
    loop ended with. *)
Definition Check_tail (fuel : nat) (Ldb N K : Z) (packed ref : list Z) (n : Z)
  : verdict Z :=
  check_loop fuel (fun n => n <? N) (fun n => sadd n 1) (fun n =>
    vbind (check_loop fuel (fun i => i <? K) (fun i => sadd i 2) (fun i =>
      ASSERT_EQ_at packed ref (Check_tail_index Ldb n i) [n; i]) 0)
          (fun _ => Passed tt)) n.

(** [Check<Ldb, N, K>(packed, ref)]. *)
Definition Check (fuel : nat) (Ldb N K : Z) (packed ref : list Z)
  : verdict unit :=
  vbind (Check_tiles fuel Ldb N K packed ref) (fun n =>
  vbind (Check_tail fuel Ldb N K packed ref n) (fun _ => Passed tt)).

(** [InitializeBuffer<BufferSize>(buffer)]:
    [buffer[i] = static_cast<uint8_t>(_distrib(_gen))] for [i] from 0 up.
    The random engine is the stream [gen] of the [int]s it returns, and
    [pos] the number of draws taken so far. *)
Fixpoint InitializeBuffer_from (fuel : nat) (BufferSize : Z) (gen : nat -> Z)
         (i : Z) (pos : nat) (buffer : list Z) : verdict (list Z * nat) :=
  match fuel with
  | O => TestTimeout
  | S fuel' =>
      if i <? BufferSize then
        if i <? Z.of_nat (length buffer) then
          InitializeBuffer_from fuel' BufferSize gen (sadd i 1) (S pos)
            (list_set buffer (Z.to_nat i) (uint8 (gen pos)))
        else TestUndefined
      else Passed (buffer, pos)
  end.

Definition InitializeBuffer (fuel : nat) (BufferSize : Z) (gen : nat -> Z)
           (pos : nat) (buffer : list Z) : verdict (list Z * nat) :=
  InitializeBuffer_from fuel BufferSize gen 0 pos buffer.

(** A failed assertion is recorded and the caller runs on. *)
Definition recorded {A} (v : verdict A) : verdict bool :=
  match v with
  | Passed _ => Passed true
  | AssertFailed _ => Passed false
  | TestUndefined => TestUndefined
  | TestTimeout => TestTimeout
  end.

(** [std::vector<uint8_t> v(BufferSize)]: [BufferSize] zero bytes. *)
Definition zero_buffer (size : Z) : list Z := repeat 0 (Z.to_nat size).

(** [TestPrepack<N, K, BlkLen>()].  The kernel under test,
    [MlasSQNBitGemmPackQuantBData], is not among the sources:
    [kernel N K Bits BlkLen input packed] is the content it leaves in
    [packed].  [fuel] bounds the buffer loop, [pfuel] the loops of [Prepack]
    and [Check].  The value is whether [Check] recorded no failure, and the
    number of draws taken. *)
Definition TestPrepack (kernel : Z -> Z -> Z -> Z -> list Z -> list Z -> list Z)
           (fuel pfuel : nat) (N K BlkLen : Z) (gen : nat -> Z) (pos : nat)
  : verdict (bool * nat) :=
  let Ldb := Ldb_of K BlkLen in
  let size := BufferSize N K BlkLen in
  vbind (InitializeBuffer fuel size gen pos (zero_buffer size)) (fun ip =>
    let packed := kernel N K Bits BlkLen (fst ip) (zero_buffer size) in
    match run_Prepack pfuel Ldb N (fst ip) (zero_buffer size) with
    | Done _ s =>
        vbind (recorded (Check pfuel Ldb N K packed (dst s))) (fun ok =>
          Passed (ok, snd ip))
    | Undefined _ => TestUndefined
    | Timeout => TestTimeout
    end).

(** The instantiations of [ExecuteShort]: [(N, K, BlkLen)]. *)
Definition ExecuteShort_cases : list (Z * Z * Z) :=
  [(1, 1, 16); (1, 15, 16); (1, 31, 16); (8, 1, 16); (8, 16, 16);
   (9, 31, 16); (9, 33, 32); (15, 33, 16); (17, 67, 16); (17, 96, 128)].

(** [ExecuteShort] of the packing test: the ten calls in order, on the one
    random engine; the value is whether no call recorded a failure. *)
Definition ExecuteShort_prepack
           (kernel : Z -> Z -> Z -> Z -> list Z -> list Z -> list Z)
           (fuel pfuel : nat) (gen : nat -> Z) : verdict bool :=
  vbind
    (fold_left (fun acc c =>
       vbind acc (fun a =>
         vbind (TestPrepack kernel fuel pfuel (fst (fst c)) (snd (fst c)) (snd c)
                            gen (snd a))
               (fun r => Passed (fst a && fst r, snd r))))
       ExecuteShort_cases (Passed (true, 0%nat)))
    (fun a => Passed (fst a)).

(** *** What [Check] looks at *)

(** The indices [Check] compares, in closed form: the first
    [8 * ceil(K / 2)] bytes of every full tile and the first [ceil(K / 2)]
    bytes of every tail column. *)
Definition compared (Ldb N K idx : Z) : bool :=
  (0 <=? idx) && (idx <? N * Ldb)
  && (if idx <? 8 * (N / 8) * Ldb
      then idx mod (8 * Ldb) <? 8 * ((K + 1) / 2)
      else idx mod Ldb <? (K + 1) / 2).

(** The byte of the packed buffer that holds element [kidx] of column [col]
    (the index inside [packed_nibble]). *)
Definition packed_index (Ldb N col kidx : Z) : Z :=
  if col <? 8 * (N / 8)
  then 8 * (col / 8) * Ldb + (kidx / 2) * 8 + col mod 8
  else col * Ldb + 8 * (kidx / 16) + kidx mod 8.

(** The bytes that are packed together with index [idx]: the 8 columns of
    its tile, or its tail column. *)
Definition block_start (Ldb N idx : Z) : Z :=
  if idx <? 8 * (N / 8) * Ldb then 8 * Ldb * (idx / (8 * Ldb))
  else Ldb * (idx / Ldb).
Definition block_size (Ldb N idx : Z) : Z :=
  if idx <? 8 * (N / 8) * Ldb then 8 * Ldb else Ldb.

Definition verdict_ok {A} (v : verdict A) : Prop :=
  match v with
  | Passed _ | AssertFailed _ => True
  | TestUndefined | TestTimeout => False
  end.

(** What [Check] assumes of its arguments: the two buffers have [N * Ldb]
    bytes, and the bytes of [K] elements fit a column. *)
Record Check_sizes (Ldb N K : Z) (packed ref : list Z) : Prop := {
  Check_N : 0 <= N;
  Check_K : 0 <= K;
  Check_Ldb : (K + 1) / 2 <= Ldb;
  Check_packed : Z.of_nat (length packed) = N * Ldb;
  Check_ref : Z.of_nat (length ref) = N * Ldb;
  Check_fits : N * Ldb <= max_size;
  Check_N_fits : N <= max_size
}.

Definition Check_fuel (fuel : nat) (N K : Z) : Prop :=
  N / 8 < Z.of_nat fuel /\ (K + 1) / 2 < Z.of_nat fuel /\ N mod 8 < Z.of_nat fuel.

(** What the test asks of the kernel: on a buffer of bytes it leaves a
    buffer of the same size that holds every element of every column at the
    place of the packed layout. *)
Definition packs (kernel : Z -> Z -> Z -> Z -> list Z -> list Z -> list Z)
           (N K BlkLen : Z) : Prop :=
  forall input packed,
    Z.of_nat (length input) = N * Ldb_of K BlkLen ->
    Z.of_nat (length packed) = N * Ldb_of K BlkLen ->
    Forall is_byte input ->
    Z.of_nat (length (kernel N K Bits BlkLen input packed)) = N * Ldb_of K BlkLen /\
    forall col kidx, 0 <= col < N -> 0 <= kidx < 2 * Ldb_of K BlkLen ->
      packed_nibble (Ldb_of K BlkLen) N (kernel N K Bits BlkLen input packed) col kidx
      = source_nibble (Ldb_of K BlkLen) input col kidx.

(** A kernel that packs as the reference does, for the witnesses of what is
    proved of every kernel. *)
Definition Prepack_kernel (pfuel : nat) (N K bits BlkLen : Z)
           (input packed : list Z) : list Z :=
  match run_Prepack pfuel (Ldb_of K BlkLen) N input packed with
  | Done _ s => dst s
  | _ => packed
  end.

(** *** The skip test of [TestFp16ToFp32] *)

(** [(p & 0x1c00) == 0x1c00] says that the three low bits of the exponent
    field are set. *)
Definition skip_mask_exponent_at (p : Z) : bool :=
  Bool.eqb (Z.land p 7168 =? 7168) (F16_exp p mod 8 =? 7).

(** * Lemmas and theorems *)

(** *** Machine arithmetic without wrap-around *)

Lemma size_t_small x : 0 <= x <= SIZE_MAX -> size_t x = x.
Proof. unfold size_t, SIZE_MAX. intros. apply Z.mod_small. lia. Qed.

Lemma sadd_small a b : 0 <= a + b <= SIZE_MAX -> sadd a b = a + b.
Proof. apply size_t_small. Qed.

Lemma smul_small a b : 0 <= a * b <= SIZE_MAX -> smul a b = a * b.
Proof. apply size_t_small. Qed.

Lemma ssub_small a b : 0 <= a - b <= SIZE_MAX -> ssub a b = a - b.
Proof. apply size_t_small. Qed.

Lemma SIZE_MAX_eq : SIZE_MAX = 18446744073709551615.
Proof. reflexivity. Qed.

Lemma INT_MAX_eq : INT_MAX = 2147483647.
Proof. reflexivity. Qed.

(** *** Lists *)

Lemma list_set_length l n v : length (list_set l n v) = length l.
Proof. revert n; induction l; intros [|n]; simpl; auto. Qed.

Lemma nth_list_set_eq l n v : (n < length l)%nat -> nth n (list_set l n v) 0 = v.
Proof.
  revert n; induction l; intros [|n]; simpl; intros; try lia; auto.
  apply IHl; lia.
Qed.

Lemma nth_list_set_neq l n m v : n <> m -> nth m (list_set l n v) 0 = nth m l 0.
Proof.
  revert n m; induction l; intros [|n] [|m]; simpl; intros; try congruence; auto.
Qed.

Lemma replay_length evs d : length (replay evs d) = length d.
Proof.
  revert d; induction evs as [|e evs IH]; intros; simpl; auto.
  unfold replay in *; simpl. rewrite IH. destruct e; simpl; auto using list_set_length.
Qed.

Lemma replay_app e1 e2 d : replay (e1 ++ e2) d = replay e2 (replay e1 d).
Proof. unfold replay. apply fold_left_app. Qed.

Lemma writes_app e1 e2 : writes (e1 ++ e2) = writes e1 ++ writes e2.
Proof. unfold writes. apply flat_map_app. Qed.

Lemma reads_app e1 e2 : reads (e1 ++ e2) = reads e1 ++ reads e2.
Proof. unfold reads. apply flat_map_app. Qed.

Lemma zrange_length a n : length (zrange a n) = n.
Proof. unfold zrange. now rewrite length_map, length_seq. Qed.

Lemma in_zrange a n x : In x (zrange a n) <-> a <= x < a + Z.of_nat n.
Proof.
  unfold zrange. rewrite in_map_iff. split.
  - intros (t & <- & Ht). apply in_seq in Ht. lia.
  - intros H. exists (Z.to_nat (x - a)). split; [lia|]. apply in_seq. lia.
Qed.

Lemma map_seq_from {A} (f : nat -> A) n m :
  map f (seq n m) = map (fun t => f (n + t)%nat) (seq 0 m).
Proof.
  revert n f; induction m as [|m IH]; intros n f; simpl; auto.
  f_equal; [f_equal; lia|].
  rewrite IH, (IH 1%nat). apply map_ext. intros t. f_equal. lia.
Qed.

Lemma zrange_app a n m :
  zrange a (n + m) = zrange a n ++ zrange (a + Z.of_nat n) m.
Proof.
  unfold zrange. rewrite seq_app, map_app. f_equal. simpl.
  rewrite map_seq_from. apply map_ext. intros t. lia.
Qed.

(** *** Rules for [emits], [stuck] and [faults] *)

Lemma emits_ret {A} S0 len (a : A) : emits S0 len (ret a) a [].
Proof. intros d t _. reflexivity. Qed.

Lemma emits_bind {A B} S0 len (m : M A) (k : A -> M B) a b e1 e2 :
  emits S0 len m a e1 -> emits S0 len (k a) b e2 ->
  emits S0 len (bind m k) b (e1 ++ e2).
Proof.
  intros H1 H2 d t Hd. unfold bind. rewrite (H1 d t Hd).
  rewrite H2 by (rewrite replay_length; exact Hd).
  now rewrite replay_app, rev_app_distr, app_assoc.
Qed.

Lemma emits_read S0 len i :
  0 <= i < Z.of_nat (length S0) ->
  emits S0 len (read_src i) (getb S0 i) [RdSrc i].
Proof.
  intros Hi d t _. unfold read_src, getb; simpl.
  destruct (nth_error S0 (Z.to_nat i)) eqn:E.
  - now rewrite (nth_error_nth _ _ _ E).
  - apply nth_error_None in E. lia.
Qed.

Lemma emits_write S0 len j v :
  0 <= j < Z.of_nat len -> emits S0 len (write_dst j v) tt [WrDst j v].
Proof.
  intros Hj d t Hd. unfold write_dst; simpl. rewrite Hd.
  destruct (Z.ltb_spec j (Z.of_nat len)); [reflexivity | lia].
Qed.

Lemma emits_ext {A} S0 len (m : M A) a e e' :
  e = e' -> emits S0 len m a e -> emits S0 len m a e'.
Proof. now intros ->. Qed.

Lemma emits_val {A} S0 len (m : M A) a a' e :
  a = a' -> emits S0 len m a e -> emits S0 len m a' e.
Proof. now intros ->. Qed.

Lemma stuck_bind_l {A B} S0 len (m : M A) (k : A -> M B) :
  stuck S0 len m -> stuck S0 len (bind m k).
Proof.
  intros H d t Hd b s. unfold bind. specialize (H d t Hd).
  destruct (m (mkState S0 d t)) as [a s'| |]; try discriminate.
  now contradiction (H a s').
Qed.

Lemma stuck_bind_r {A B} S0 len (m : M A) (k : A -> M B) a e :
  emits S0 len m a e -> stuck S0 len (k a) -> stuck S0 len (bind m k).
Proof.
  intros H1 H2 d t Hd b s. unfold bind. rewrite (H1 d t Hd).
  apply H2. now rewrite replay_length.
Qed.

Lemma faults_bind_r {A B} S0 len (m : M A) (k : A -> M B) a e f :
  emits S0 len m a e -> faults S0 len (k a) f -> faults S0 len (bind m k) f.
Proof.
  intros H1 H2 d t Hd. unfold bind. rewrite (H1 d t Hd).
  apply H2. now rewrite replay_length.
Qed.

Section ForLoop.
Variables (S0 : list Z) (len : nat).
Variables (cond : Z -> bool) (next : Z -> option Z) (body : Z -> M unit).
(** The counter and the events of the [t]-th iteration. *)
Variables (f : nat -> Z) (ev : nat -> list event).
Variable m : nat.
Hypothesis iterations : forall t, (t < m)%nat ->
  cond (f t) = true /\ next (f t) = Some (f (S t)) /\
  emits S0 len (body (f t)) tt (ev t).

Lemma emits_for_loop_from k t0 fuel :
  (t0 + k)%nat = m -> (k < fuel)%nat -> cond (f m) = false ->
  emits S0 len (for_loop fuel cond next body (f t0)) (f m)
        (flat_map ev (seq t0 k)).
Proof.
  revert t0 fuel. induction k as [|k IH]; intros t0 fuel Hm Hf Hc.
  - replace t0 with m by lia. destruct fuel; [lia|]. simpl.
    rewrite Hc. apply emits_ret.
  - destruct fuel; [lia|]. simpl.
    destruct (iterations t0) as (Hc1 & Hn & Hb); [lia|].
    rewrite Hc1, Hn. eapply emits_bind; [exact Hb|].
    apply IH; auto; lia.
Qed.

(** A loop whose [m] iterations run and whose condition then fails. *)
Lemma emits_for_loop fuel :
  cond (f m) = false -> (m < fuel)%nat ->
  emits S0 len (for_loop fuel cond next body (f 0%nat)) (f m)
        (flat_map ev (seq 0 m)).
Proof. intros. apply emits_for_loop_from; auto. Qed.

(** A loop whose iteration [m] gets stuck, or overflows its counter. *)
Lemma stuck_for_loop_from k t0 fuel :
  (t0 + k)%nat = m -> cond (f m) = true ->
  (stuck S0 len (body (f m)) \/
   exists e, emits S0 len (body (f m)) tt e /\ next (f m) = None) ->
  stuck S0 len (for_loop fuel cond next body (f t0)).
Proof.
  revert t0 fuel. induction k as [|k IH]; intros t0 fuel Hm Hc Hs.
  - replace t0 with m by lia. destruct fuel; simpl.
    + intros d t _ a s. discriminate.
    + rewrite Hc. destruct Hs as [Hs | (e & He & Hn)].
      * now apply stuck_bind_l.
      * rewrite Hn. eapply stuck_bind_r; [exact He|].
        intros d t _ a s. discriminate.
  - destruct fuel; simpl.
    + intros d t _ a s. discriminate.
    + destruct (iterations t0) as (Hc1 & Hn & Hb); [lia|].
      rewrite Hc1, Hn. eapply stuck_bind_r; [exact Hb|].
      apply IH; auto; lia.
Qed.

Lemma stuck_for_loop fuel :
  cond (f m) = true ->
  (stuck S0 len (body (f m)) \/
   exists e, emits S0 len (body (f m)) tt e /\ next (f m) = None) ->
  stuck S0 len (for_loop fuel cond next body (f 0%nat)).
Proof. intros. apply (stuck_for_loop_from m 0); auto. Qed.

(** With enough fuel, the overflow of the counter after iteration [m] is
    the outcome. *)
Lemma faults_for_loop_from k t0 fuel e :
  (t0 + k)%nat = m -> (k < fuel)%nat -> cond (f m) = true ->
  emits S0 len (body (f m)) tt e -> next (f m) = None ->
  faults S0 len (for_loop fuel cond next body (f t0)) SignedOverflow.
Proof.
  revert t0 fuel. induction k as [|k IH]; intros t0 fuel Hm Hf Hc He Hn.
  - replace t0 with m by lia. destruct fuel; [lia|]. simpl.
    rewrite Hc, Hn. eapply faults_bind_r; [exact He|].
    intros d t _. reflexivity.
  - destruct fuel; [lia|]. simpl.
    destruct (iterations t0) as (Hc1 & Hn1 & Hb); [lia|].
    rewrite Hc1, Hn1. eapply faults_bind_r; [exact Hb|].
    apply IH; auto; lia.
Qed.
Lemma faults_for_loop fuel e :
  (m < fuel)%nat -> cond (f m) = true ->
  emits S0 len (body (f m)) tt e -> next (f m) = None ->
  faults S0 len (for_loop fuel cond next body (f 0%nat)) SignedOverflow.
Proof. intros. apply (faults_for_loop_from m 0 fuel e); auto. Qed.
End ForLoop.

Lemma emits_then_ret {A} S0 len (m : M A) a e :
  emits S0 len m a e -> emits S0 len (m ;;; ret tt) tt e.
Proof.
  intros H. eapply emits_ext; [apply app_nil_r|].
  eapply emits_bind; [exact H | apply emits_ret].
Qed.

(** The first event belongs to the first command of a sequence. *)
Ltac emits_step :=
  match goal with
  | |- emits _ _ _ _ (?a :: ?l) =>
      change (a :: l) with ([a] ++ l); eapply emits_bind
  end.

(** A [size_t] counter going up from [a] in steps of [d], [m] times. *)
Lemma emits_count_loop S0 len fuel cond a d body ev m :
  0 <= a -> 0 <= d -> a + d * Z.of_nat m <= SIZE_MAX ->
  (forall t, (t < m)%nat ->
     cond (a + d * Z.of_nat t) = true /\
     emits S0 len (body (a + d * Z.of_nat t)) tt (ev t)) ->
  cond (a + d * Z.of_nat m) = false -> (m < fuel)%nat ->
  emits S0 len (for_loop fuel cond (size_t_step d) body a)
        (a + d * Z.of_nat m) (flat_map ev (seq 0 m)).
Proof.
  intros Ha Hd Hmax Hit Hc Hf.
  replace a with ((fun t => a + d * Z.of_nat t) 0%nat) at 1 by (simpl; lia).
  apply (emits_for_loop S0 len cond (size_t_step d) body
           (fun t => a + d * Z.of_nat t) ev m); auto.
  intros t Ht. destruct (Hit t Ht) as [H1 H2]. repeat split; auto.
  unfold size_t_step. f_equal. rewrite sadd_small; nia.
Qed.

(** The [int] counter of the regroup path: up from 0 in steps of [d]. *)
Lemma int_count_iterations d m t :
  0 <= d -> d * Z.of_nat m <= INT_MAX -> (t < m)%nat ->
  int_step d (d * Z.of_nat t) = Some (d * Z.of_nat (S t)).
Proof.
  intros Hd Hm Ht. unfold int_step.
  replace (d * Z.of_nat t + d) with (d * Z.of_nat (S t)) by lia.
  destruct (Z.leb_spec (d * Z.of_nat (S t)) INT_MAX); [reflexivity | nia].
Qed.

Lemma Transpose8x8_i_small Ldb n k c r :
  0 <= n -> 0 <= k -> 0 <= c < 8 -> 0 <= r < 8 -> k + 8 <= Ldb ->
  (n + 8) * Ldb <= SIZE_MAX ->
  Transpose8x8_i Ldb n k c r = (n + c) * Ldb + r + k.
Proof.
  intros. unfold Transpose8x8_i.
  assert (0 <= (n + c) * Ldb) by nia.
  assert ((n + c) * Ldb + Ldb <= (n + 8) * Ldb) by nia.
  rewrite (sadd_small n c) by nia.
  rewrite (smul_small (n + c) Ldb) by nia.
  rewrite (sadd_small ((n + c) * Ldb) r) by nia.
  rewrite sadd_small by nia. reflexivity.
Qed.

Lemma Transpose8x8_j_small Ldb n k c r :
  0 <= n -> 0 <= k -> 0 <= c < 8 -> 0 <= r < 8 -> k + 8 <= Ldb ->
  (n + 8) * Ldb <= SIZE_MAX ->
  Transpose8x8_j Ldb n k c r = n * Ldb + (r + k) * 8 + c.
Proof.
  intros. unfold Transpose8x8_j.
  assert (0 <= n * Ldb) by nia.
  assert (n * Ldb + 8 * Ldb = (n + 8) * Ldb) by nia.
  rewrite (sadd_small r k) by nia.
  rewrite (smul_small n Ldb), (smul_small (r + k) 8) by nia.
  rewrite (sadd_small (n * Ldb)) by nia.
  rewrite sadd_small by nia. reflexivity.
Qed.

Lemma emits_Transpose8x8 S0 len Ldb n k :
  0 <= n -> 0 <= k -> k + 8 <= Ldb ->
  (n + 8) * Ldb <= Z.of_nat (length S0) -> (n + 8) * Ldb <= Z.of_nat len ->
  (n + 8) * Ldb <= SIZE_MAX ->
  emits S0 len (Transpose8x8 Ldb n k) tt (Transpose8x8_events S0 Ldb n k).
Proof.
  intros Hn Hk HL HS Hlen Hmax. unfold Transpose8x8, Transpose8x8_events.
  eapply emits_then_ret.
  apply (emits_count_loop S0 len 9 _ 0 1 _ _ 8); try reflexivity; try lia;
    try (rewrite SIZE_MAX_eq; simpl; lia).
  intros c Hc. split; [apply Z.ltb_lt; lia|].
  eapply emits_then_ret.
  apply (emits_count_loop S0 len 9 _ 0 1 _ _ 8); try reflexivity; try lia;
    try (rewrite SIZE_MAX_eq; simpl; lia).
  intros r Hr. split; [apply Z.ltb_lt; lia|].
  rewrite !Z.add_0_l, !Z.mul_1_l.
  rewrite Transpose8x8_i_small, Transpose8x8_j_small by lia.
  assert ((n + Z.of_nat c) * Ldb + Ldb <= (n + 8) * Ldb) by nia.
  assert (0 <= (n + Z.of_nat c) * Ldb) by nia.
  assert (n * Ldb + 8 * Ldb = (n + 8) * Ldb) by nia.
  assert (0 <= n * Ldb) by nia.
  emits_step.
  - apply emits_read. lia.
  - apply emits_write. lia.
Qed.

Lemma emits_PrepackSlice S0 len j :
  0 <= j -> j + 8 <= Z.of_nat (length S0) -> j + 8 <= Z.of_nat len ->
  j + 8 <= SIZE_MAX ->
  emits S0 len (PrepackSlice j) tt (PrepackSlice_events S0 j).
Proof.
  intros Hj HS Hlen Hmax. unfold PrepackSlice, PrepackSlice_events.
  eapply emits_then_ret.
  apply (emits_count_loop S0 len 9 _ 0 1 _ _ 8); try reflexivity; try lia;
    try (rewrite SIZE_MAX_eq; simpl; lia).
  intros i Hi. split; [apply Z.ltb_lt; lia|].
  rewrite !Z.add_0_l, !Z.mul_1_l.
  assert (H1 : 0 <= Z.shiftr (Z.of_nat i) 1 < 4).
  { rewrite Z.shiftr_div_pow2 by lia. change (2 ^ 1) with 2.
    split; [apply Z.div_pos; lia | apply Z.div_lt_upper_bound; lia]. }
  assert (H2 : 4 <= Z.shiftr (8 + Z.of_nat i) 1 < 8).
  { rewrite Z.shiftr_div_pow2 by lia. change (2 ^ 1) with 2.
    split; [apply Z.div_le_lower_bound; lia | apply Z.div_lt_upper_bound; lia]. }
  pose proof SIZE_MAX_eq as HM.
  unfold PrepackSlice_i0, PrepackSlice_i1, PrepackSlice_j.
  rewrite (sadd_small 8), (sadd_small (Z.of_nat i)) by lia.
  rewrite !sadd_small by lia.
  emits_step; [apply emits_read; lia|].
  emits_step; [apply emits_read; lia|].
  apply emits_write. lia.
Qed.

Lemma chunks_eq Ldb : 0 <= Ldb -> Ldb mod 8 = 0 -> 8 * Z.of_nat (chunks Ldb) = Ldb.
Proof.
  intros H0 H8. unfold chunks. rewrite Z2Nat.id by (apply Z.div_pos; lia).
  pose proof (Z.div_mod Ldb 8). lia.
Qed.

Lemma emits_transpose_columns S0 len fuel Ldb n :
  0 <= n -> 0 <= Ldb -> Ldb mod 8 = 0 ->
  (n + 8) * Ldb <= Z.of_nat (length S0) -> (n + 8) * Ldb <= Z.of_nat len ->
  (n + 8) * Ldb <= SIZE_MAX -> (chunks Ldb < fuel)%nat ->
  emits S0 len (transpose_columns fuel Ldb n) tt
        (transpose_columns_events S0 Ldb n).
Proof.
  intros Hn HL H8 HS Hlen Hmax Hf.
  pose proof (chunks_eq Ldb HL H8) as HQ.
  unfold transpose_columns, transpose_columns_events.
  eapply emits_then_ret.
  apply (emits_count_loop S0 len fuel _ 0 8 _ _ (chunks Ldb)); try nia.
  intros q Hq. rewrite Z.add_0_l. split; [apply Z.ltb_lt; lia|].
  apply emits_Transpose8x8; lia.
Qed.

Lemma emits_regroup_column S0 len fuel Ldb n :
  0 <= n -> 0 <= Ldb -> Ldb mod 8 = 0 -> Ldb <= INT_MAX ->
  (n + 1) * Ldb <= Z.of_nat (length S0) -> (n + 1) * Ldb <= Z.of_nat len ->
  (n + 1) * Ldb <= SIZE_MAX -> (chunks Ldb < fuel)%nat ->
  emits S0 len (regroup_column fuel Ldb n) tt
        (regroup_column_events S0 Ldb n).
Proof.
  intros Hn HL H8 HI HS Hlen Hmax Hf.
  pose proof (chunks_eq Ldb HL H8) as HQ.
  pose proof SIZE_MAX_eq as HM. pose proof INT_MAX_eq as HIM.
  unfold regroup_column, regroup_column_events.
  eapply emits_then_ret.
  replace 0 with ((fun t => 8 * Z.of_nat t) 0%nat) at 1 by reflexivity.
  eapply emits_ext; [|
    apply (emits_for_loop S0 len _ (int_step 8) _ (fun t => 8 * Z.of_nat t)
             (fun q => PrepackSlice_events S0 (n * Ldb + 8 * Z.of_nat q))
             (chunks Ldb))]; auto.
  - intros q Hq. split; [|split].
    + rewrite size_t_small by lia. apply Z.ltb_lt. lia.
    + apply (int_count_iterations 8 (chunks Ldb)); lia.
    + rewrite size_t_small by lia.
      rewrite (smul_small n Ldb) by nia. rewrite sadd_small by nia.
      apply emits_PrepackSlice; nia.
  - rewrite size_t_small by lia. apply Z.ltb_ge. lia.
Qed.

Lemma sizes_ok_bounds Ldb N :
  sizes_ok Ldb N ->
  8 <= Ldb /\ 0 <= N / 8 /\ 0 <= N mod 8 < 8 /\ N = 8 * (N / 8) + N mod 8 /\
  N + 8 <= SIZE_MAX.
Proof.
  intros [HN HL H8 HB]. pose proof SIZE_MAX_eq.
  pose proof (Z.div_mod Ldb 8). pose proof (Z.div_mod N 8).
  pose proof (Z.mod_pos_bound N 8). pose proof (Z.div_pos N 8).
  assert (8 <= Ldb) by (pose proof (Z.div_pos Ldb 8); nia).
  repeat split; try lia; nia.
Qed.

Lemma emits_Prepack_tiles S0 len fuel Ldb N :
  sizes_ok Ldb N -> enough fuel Ldb N ->
  Z.of_nat (length S0) = N * Ldb -> Z.of_nat len = N * Ldb ->
  emits S0 len (Prepack_tiles fuel Ldb N) (8 * (N / 8)) (tiles_events S0 Ldb N).
Proof.
  intros Hok (Hf1 & Hf2 & Hf3) HS Hlen.
  destruct (sizes_ok_bounds _ _ Hok) as (HL8 & HT & HU & HN & HN8).
  destruct Hok as [HN1 HL H8 HB].
  unfold Prepack_tiles, tiles_events.
  replace (8 * (N / 8)) with (0 + 8 * Z.of_nat (Z.to_nat (N / 8))) by lia.
  apply (emits_count_loop S0 len fuel _ 0 8 _
           (fun t => transpose_columns_events S0 Ldb (8 * Z.of_nat t))
           (Z.to_nat (N / 8))); try lia.
  - intros t Ht. rewrite Z.add_0_l. split.
    + rewrite sadd_small by lia. apply Z.leb_le. lia.
    + apply emits_transpose_columns; try lia; try nia.
      unfold chunks. lia.
  - rewrite sadd_small by lia. apply Z.leb_gt. lia.
Qed.

Lemma emits_Prepack_tail S0 len fuel Ldb N :
  sizes_ok Ldb N -> enough fuel Ldb N -> int_counter_ok Ldb N ->
  Z.of_nat (length S0) = N * Ldb -> Z.of_nat len = N * Ldb ->
  emits S0 len (Prepack_tail fuel Ldb N (8 * (N / 8))) N (tail_events S0 Ldb N).
Proof.
  intros Hok (Hf1 & Hf2 & Hf3) Hint HS Hlen.
  destruct (sizes_ok_bounds _ _ Hok) as (HL8 & HT & HU & HN & HN8).
  destruct Hok as [HN1 HL H8 HB].
  unfold Prepack_tail, tail_events.
  apply (emits_val _ _ _ (8 * (N / 8) + 1 * Z.of_nat (Z.to_nat (N mod 8))));
    [lia|].
  apply (emits_count_loop S0 len fuel _ (8 * (N / 8)) 1 _
           (fun u => regroup_column_events S0 Ldb (8 * (N / 8) + Z.of_nat u))
           (Z.to_nat (N mod 8))); try lia.
  - intros u Hu. rewrite Z.mul_1_l. split; [apply Z.ltb_lt; lia|].
    destruct Hint as [Hint | Hint]; [rewrite Hint in Hu; simpl in Hu; lia|].
    apply emits_regroup_column; try lia; try nia.
    unfold chunks. lia.
  - apply Z.ltb_ge. lia.
Qed.

Theorem emits_Prepack S0 len fuel Ldb N :
  sizes_ok Ldb N -> enough fuel Ldb N -> int_counter_ok Ldb N ->
  Z.of_nat (length S0) = N * Ldb -> Z.of_nat len = N * Ldb ->
  emits S0 len (Prepack fuel Ldb N) tt (Prepack_events S0 Ldb N).
Proof.
  intros Hok Hf Hint HS Hlen. unfold Prepack, Prepack_events.
  eapply emits_bind; [apply emits_Prepack_tiles; auto|].
  eapply emits_then_ret. apply emits_Prepack_tail; auto.
Qed.

(** *** Each destination byte is written once *)

Lemma writes_flat_map {A} (g : A -> list event) l :
  writes (flat_map g l) = flat_map (fun x => writes (g x)) l.
Proof.
  induction l as [|x l IH]; simpl; auto. now rewrite writes_app, IH.
Qed.

Lemma reads_flat_map {A} (g : A -> list event) l :
  reads (flat_map g l) = flat_map (fun x => reads (g x)) l.
Proof.
  induction l as [|x l IH]; simpl; auto. now rewrite reads_app, IH.
Qed.

Lemma flat_map_seq_S {A} (g : nat -> list A) m :
  flat_map g (seq 0 (S m)) = flat_map g (seq 0 m) ++ g m.
Proof.
  rewrite seq_S, flat_map_app. simpl. now rewrite app_nil_r.
Qed.

(** [m] consecutive blocks of [sz] indices each make up a range. *)
Lemma perm_blocks (blk : nat -> list Z) (a : Z) (sz m : nat) :
  (forall t, (t < m)%nat ->
     Permutation (blk t) (zrange (a + Z.of_nat (t * sz)) sz)) ->
  Permutation (flat_map blk (seq 0 m)) (zrange a (m * sz)).
Proof.
  induction m as [|m IH]; intros H.
  - simpl. constructor.
  - rewrite flat_map_seq_S.
    replace (S m * sz)%nat with (m * sz + sz)%nat by lia.
    rewrite zrange_app. apply Permutation_app.
    + apply IH. intros t Ht. apply H. lia.
    + apply H. lia.
Qed.

(** Two nested loops visit the same pairs in either order. *)
Lemma flat_map_swap {A B C} (g : A -> B -> list C) la lb :
  Permutation (flat_map (fun x => flat_map (fun y => g x y) lb) la)
              (flat_map (fun y => flat_map (fun x => g x y) la) lb).
Proof.
  induction la as [|x la IH]; simpl.
  - induction lb; simpl; auto.
  - eapply perm_trans; [apply Permutation_app_head, IH|].
    clear IH. induction lb as [|y lb IH]; simpl; auto.
    rewrite <- !app_assoc. apply Permutation_app_head.
    eapply perm_trans; [|apply Permutation_app_head, IH].
    rewrite !app_assoc. apply Permutation_app_tail, Permutation_app_comm.
Qed.

Lemma Permutation_flat_map_ext {A B} (g h : A -> list B) l :
  (forall x, In x l -> Permutation (g x) (h x)) ->
  Permutation (flat_map g l) (flat_map h l).
Proof.
  induction l as [|x l IH]; intros H; simpl; auto.
  apply Permutation_app; [apply H; now left | apply IH; intros; apply H; now right].
Qed.

Lemma zrange_one a : zrange a 1 = [a].
Proof. unfold zrange. simpl. f_equal. lia. Qed.

Lemma writes_Transpose8x8 S0 Ldb n k :
  Permutation (writes (Transpose8x8_events S0 Ldb n k))
              (zrange (n * Ldb + 8 * k) 64).
Proof.
  unfold Transpose8x8_events. rewrite writes_flat_map.
  eapply perm_trans.
  { apply Permutation_flat_map_ext. intros c _. rewrite writes_flat_map.
    simpl writes. apply Permutation_refl. }
  eapply perm_trans; [apply flat_map_swap|].
  apply (perm_blocks _ _ 8 8). intros r Hr.
  apply (perm_blocks _ _ 1 8). intros c Hc.
  rewrite zrange_one. replace (n * Ldb + (Z.of_nat r + k) * 8 + Z.of_nat c)
    with (n * Ldb + 8 * k + Z.of_nat (r * 8) + Z.of_nat (c * 1)) by lia.
  apply Permutation_refl.
Qed.

Lemma writes_PrepackSlice S0 j :
  Permutation (writes (PrepackSlice_events S0 j)) (zrange j 8).
Proof.
  unfold PrepackSlice_events. rewrite writes_flat_map.
  apply (perm_blocks _ _ 1 8). intros i Hi. simpl writes.
  rewrite zrange_one.
  replace (j + Z.of_nat (i * 1)) with (j + Z.of_nat i) by lia.
  apply Permutation_refl.
Qed.

Lemma writes_transpose_columns S0 Ldb n :
  Permutation (writes (transpose_columns_events S0 Ldb n))
              (zrange (n * Ldb) (chunks Ldb * 64)).
Proof.
  unfold transpose_columns_events. rewrite writes_flat_map.
  apply perm_blocks. intros q Hq.
  replace (n * Ldb + Z.of_nat (q * 64)) with (n * Ldb + 8 * (8 * Z.of_nat q))
    by lia.
  apply writes_Transpose8x8.
Qed.

Lemma writes_regroup_column S0 Ldb n :
  Permutation (writes (regroup_column_events S0 Ldb n))
              (zrange (n * Ldb) (chunks Ldb * 8)).
Proof.
  unfold regroup_column_events. rewrite writes_flat_map.
  apply perm_blocks. intros q Hq.
  replace (n * Ldb + Z.of_nat (q * 8)) with (n * Ldb + 8 * Z.of_nat q) by lia.
  apply writes_PrepackSlice.
Qed.

Lemma writes_tiles S0 Ldb N :
  0 <= Ldb -> Ldb mod 8 = 0 ->
  Permutation (writes (tiles_events S0 Ldb N))
              (zrange 0 (Z.to_nat (N / 8) * (chunks Ldb * 64))).
Proof.
  intros HL H8. pose proof (chunks_eq Ldb HL H8).
  unfold tiles_events. rewrite writes_flat_map.
  apply perm_blocks. intros t Ht.
  replace (0 + Z.of_nat (t * (chunks Ldb * 64))) with (8 * Z.of_nat t * Ldb)
    by nia.
  apply writes_transpose_columns.
Qed.

Lemma writes_tail S0 Ldb N :
  0 <= Ldb -> Ldb mod 8 = 0 ->
  Permutation (writes (tail_events S0 Ldb N))
              (zrange (8 * (N / 8) * Ldb)
                      (Z.to_nat (N mod 8) * (chunks Ldb * 8))).
Proof.
  intros HL H8. pose proof (chunks_eq Ldb HL H8).
  unfold tail_events. rewrite writes_flat_map.
  apply perm_blocks. intros u Hu.
  replace (8 * (N / 8) * Ldb + Z.of_nat (u * (chunks Ldb * 8)))
    with ((8 * (N / 8) + Z.of_nat u) * Ldb) by nia.
  apply writes_regroup_column.
Qed.

Theorem writes_Prepack S0 Ldb N :
  sizes_ok Ldb N ->
  Permutation (writes (Prepack_events S0 Ldb N)) (zrange 0 (Z.to_nat (N * Ldb))).
Proof.
  intros Hok.
  destruct (sizes_ok_bounds _ _ Hok) as (HL8 & HT & HU & HN & HN8).
  destruct Hok as [HN1 HL H8 HB].
  pose proof (chunks_eq Ldb ltac:(lia) H8) as HQ.
  unfold Prepack_events. rewrite writes_app.
  replace (Z.to_nat (N * Ldb))
    with (Z.to_nat (N / 8) * (chunks Ldb * 64)
          + Z.to_nat (N mod 8) * (chunks Ldb * 8))%nat by nia.
  rewrite zrange_app. apply Permutation_app.
  - apply writes_tiles; lia.
  - replace (0 + Z.of_nat (Z.to_nat (N / 8) * (chunks Ldb * 64)))
      with (8 * (N / 8) * Ldb) by nia.
    apply writes_tail; lia.
Qed.

(** *** The bytes of the destination after a run *)

Lemma NoDup_zrange a n : NoDup (zrange a n).
Proof.
  unfold zrange. apply Finite.Injective_map_NoDup; [|apply seq_NoDup].
  intros x y. lia.
Qed.

Lemma getb_list_set_eq d j v :
  0 <= j < Z.of_nat (length d) -> getb (list_set d (Z.to_nat j) v) j = v.
Proof. intros. unfold getb. apply nth_list_set_eq. lia. Qed.

Lemma getb_list_set_neq d j j' v :
  0 <= j -> 0 <= j' -> j <> j' ->
  getb (list_set d (Z.to_nat j) v) j' = getb d j'.
Proof. intros. unfold getb. apply nth_list_set_neq. lia. Qed.

Lemma replay_untouched evs d j :
  0 <= j -> (forall j', In j' (writes evs) -> 0 <= j') ->
  ~ In j (writes evs) -> getb (replay evs d) j = getb d j.
Proof.
  intros Hj. revert d. induction evs as [|e evs IH]; intros d Hpos Hnot; auto.
  change (replay (e :: evs) d) with (replay evs (apply_event d e)).
  rewrite IH.
  - destruct e as [i | j' v]; simpl; auto.
    apply getb_list_set_neq; auto.
    + apply Hpos. simpl. now left.
    + intros ->. apply Hnot. simpl. now left.
  - intros j' Hj'. apply Hpos. unfold writes; simpl. apply in_or_app. now right.
  - intros Hin. apply Hnot. unfold writes; simpl. apply in_or_app. now right.
Qed.

Lemma replay_written evs d j v :
  NoDup (writes evs) -> (forall j', In j' (writes evs) -> 0 <= j') ->
  In (WrDst j v) evs -> j < Z.of_nat (length d) ->
  getb (replay evs d) j = v.
Proof.
  revert d. induction evs as [|e evs IH]; intros d Hnd Hpos Hin Hj; [easy|].
  change (replay (e :: evs) d) with (replay evs (apply_event d e)).
  assert (Hpos' : forall j', In j' (writes evs) -> 0 <= j').
  { intros j' Hj'. apply Hpos. unfold writes; simpl. apply in_or_app. now right. }
  destruct Hin as [-> | Hin].
  - simpl in Hnd. apply NoDup_cons_iff in Hnd as [Hnot _].
    assert (0 <= j) by (apply Hpos; simpl; now left).
    rewrite replay_untouched; auto. simpl. apply getb_list_set_eq. lia.
  - apply IH; auto.
    + destruct e; simpl in Hnd; auto. now apply NoDup_cons_iff in Hnd.
    + destruct e; simpl; auto. now rewrite list_set_length.
Qed.

Lemma Prepack_writes_facts S0 Ldb N :
  sizes_ok Ldb N ->
  NoDup (writes (Prepack_events S0 Ldb N)) /\
  (forall j, In j (writes (Prepack_events S0 Ldb N)) <-> 0 <= j < N * Ldb).
Proof.
  intros Hok. pose proof (writes_Prepack S0 Ldb N Hok) as HP.
  destruct Hok as [HN1 HL H8 HB]. split.
  - eapply Permutation_NoDup; [apply Permutation_sym, HP | apply NoDup_zrange].
  - intros j. split; intros Hj.
    + apply (Permutation_in _ HP), in_zrange in Hj. nia.
    + apply (Permutation_in _ (Permutation_sym HP)), in_zrange. nia.
Qed.

(** The byte that ends at [j] when [WrDst j v] is among the events. *)
Lemma Prepack_byte S0 Ldb N d j v :
  sizes_ok Ldb N -> Z.of_nat (length d) = N * Ldb ->
  In (WrDst j v) (Prepack_events S0 Ldb N) ->
  getb (replay (Prepack_events S0 Ldb N) d) j = v.
Proof.
  intros Hok Hd Hin. destruct (Prepack_writes_facts S0 Ldb N Hok) as [Hnd Hw].
  assert (Hj : In j (writes (Prepack_events S0 Ldb N))).
  { unfold writes. apply in_flat_map. exists (WrDst j v). split; auto. now left. }
  apply replay_written; auto.
  - intros j' Hj'. apply Hw in Hj'. lia.
  - apply Hw in Hj. lia.
Qed.

(** The write of the transpose path for tile [t], chunk [q], column [c] of
    the tile and row [r] of the chunk. *)
Lemma In_tiles_events S0 Ldb N t q c r :
  (t < Z.to_nat (N / 8))%nat -> (q < chunks Ldb)%nat -> (c < 8)%nat -> (r < 8)%nat ->
  let n := 8 * Z.of_nat t in
  let k := 8 * Z.of_nat q in
  let i := (n + Z.of_nat c) * Ldb + Z.of_nat r + k in
  In (WrDst (n * Ldb + (Z.of_nat r + k) * 8 + Z.of_nat c) (getb S0 i))
     (Prepack_events S0 Ldb N).
Proof.
  intros Ht Hq Hc Hr n k i. unfold Prepack_events. apply in_or_app. left.
  apply in_flat_map. exists t. split; [apply in_seq; lia|].
  apply in_flat_map. exists q. split; [apply in_seq; lia|].
  apply in_flat_map. exists c. split; [apply in_seq; lia|].
  apply in_flat_map. exists r. split; [apply in_seq; lia|].
  right. now left.
Qed.

(** The write of the regroup path for tail column [u], chunk [q], byte [i]. *)
Lemma In_tail_events S0 Ldb N u q t :
  (u < Z.to_nat (N mod 8))%nat -> (q < chunks Ldb)%nat -> (t < 8)%nat ->
  let j := (8 * (N / 8) + Z.of_nat u) * Ldb + 8 * Z.of_nat q in
  let i := Z.of_nat t in
  let b0 := getb S0 (j + Z.shiftr i 1) in
  let b1 := getb S0 (j + Z.shiftr (8 + i) 1) in
  In (WrDst (j + i)
        (uint8 (Z.lor (GetInt4 b0 i) (Z.shiftl (GetInt4 b1 (i + 8)) 4))))
     (Prepack_events S0 Ldb N).
Proof.
  intros Hu Hq Ht j i b0 b1. unfold Prepack_events. apply in_or_app. right.
  apply in_flat_map. exists u. split; [apply in_seq; lia|].
  apply in_flat_map. exists q. split; [apply in_seq; lia|].
  apply in_flat_map. exists t. split; [apply in_seq; lia|].
  right. right. now left.
Qed.

Lemma small_cases x : 0 <= x < 16 ->
  x = 0 \/ x = 1 \/ x = 2 \/ x = 3 \/ x = 4 \/ x = 5 \/ x = 6 \/ x = 7 \/
  x = 8 \/ x = 9 \/ x = 10 \/ x = 11 \/ x = 12 \/ x = 13 \/ x = 14 \/ x = 15.
Proof. lia. Qed.

Lemma pack_nibbles x y :
  0 <= x < 16 -> 0 <= y < 16 ->
  Z.land (uint8 (Z.lor x (Z.shiftl y 4))) 15 = x /\
  Z.shiftr (uint8 (Z.lor x (Z.shiftl y 4))) 4 = y.
Proof.
  intros Hx Hy. apply small_cases in Hx. apply small_cases in Hy.
  repeat (destruct Hx as [-> | Hx]); try subst x;
    repeat (destruct Hy as [-> | Hy]); try subst y; split; reflexivity.
Qed.

Lemma nibble_range b h : is_byte b -> 0 <= nibble b h < 16.
Proof.
  intros Hb. unfold nibble, is_byte in *. destruct (h =? 0).
  - change 15 with (Z.ones 4). rewrite Z.land_ones by lia.
    apply Z.mod_pos_bound. lia.
  - rewrite Z.shiftr_div_pow2 by lia. change (2 ^ 4) with 16.
    split; [apply Z.div_pos; lia | apply Z.div_lt_upper_bound; lia].
Qed.

Lemma GetInt4_nibble b i : is_byte b -> 0 <= i -> GetInt4 b i = nibble b (i mod 2).
Proof.
  intros Hb Hi. unfold GetInt4.
  change 1 with (Z.ones 1). rewrite Z.land_ones by lia. change (2 ^ 1) with 2.
  pose proof (nibble_range b (i mod 2) Hb) as Hr. unfold nibble in *.
  destruct (i mod 2 =? 0); unfold uint8; apply Z.mod_small; lia.
Qed.

Lemma getb_byte buf i : Forall is_byte buf -> is_byte (getb buf i).
Proof.
  intros H. unfold getb.
  destruct (nth_in_or_default (Z.to_nat i) buf 0) as [Hin | ->].
  - rewrite Forall_forall in H. now apply H.
  - unfold is_byte. lia.
Qed.

Lemma run_Prepack_events fuel Ldb N input ref :
  sizes_ok Ldb N -> enough fuel Ldb N -> int_counter_ok Ldb N ->
  Z.of_nat (length input) = N * Ldb -> Z.of_nat (length ref) = N * Ldb ->
  run_Prepack fuel Ldb N input ref =
  Done tt (mkState input (replay (Prepack_events input Ldb N) ref)
                   (rev (Prepack_events input Ldb N))).
Proof.
  intros Hok Hf Hint HS Hd. unfold run_Prepack.
  rewrite (emits_Prepack input (length ref) fuel Ldb N Hok Hf Hint HS Hd ref [] eq_refl).
  now rewrite app_nil_r.
Qed.

Lemma tile_byte S0 Ldb N d col kb :
  sizes_ok Ldb N -> Z.of_nat (length d) = N * Ldb ->
  0 <= col < 8 * (N / 8) -> 0 <= kb < Ldb ->
  getb (replay (Prepack_events S0 Ldb N) d)
       (8 * (col / 8) * Ldb + kb * 8 + col mod 8)
  = getb S0 (col * Ldb + kb).
Proof.
  intros Hok Hd Hcol Hkb.
  pose proof (chunks_eq Ldb ltac:(destruct Hok; lia) (Ldb_mod8 _ _ Hok)) as HQ.
  pose proof (Z.div_mod col 8 ltac:(lia)) as Ec.
  pose proof (Z.mod_pos_bound col 8 ltac:(lia)) as Bc.
  pose proof (Z.div_mod kb 8 ltac:(lia)) as Ek.
  pose proof (Z.mod_pos_bound kb 8 ltac:(lia)) as Bk.
  assert (0 <= col / 8 < N / 8) by (split; [apply Z.div_pos; lia | lia]).
  assert (0 <= kb / 8 < Ldb / 8) by
    (split; [apply Z.div_pos; lia | unfold chunks in HQ; lia]).
  pose proof (In_tiles_events S0 Ldb N (Z.to_nat (col / 8)) (Z.to_nat (kb / 8))
                (Z.to_nat (col mod 8)) (Z.to_nat (kb mod 8))) as Hin.
  cbv zeta in Hin. rewrite !Z2Nat.id in Hin by lia.
  replace (8 * (col / 8) + col mod 8) with col in Hin by lia.
  replace (kb mod 8 + 8 * (kb / 8)) with kb in Hin by lia.
  replace (col * Ldb + kb mod 8 + 8 * (kb / 8)) with (col * Ldb + kb) in Hin by lia.
  apply Prepack_byte; auto. apply Hin; unfold chunks; lia.
Qed.

Lemma tail_byte S0 Ldb N d col q i :
  sizes_ok Ldb N -> Z.of_nat (length d) = N * Ldb ->
  8 * (N / 8) <= col < N -> 0 <= q < Ldb / 8 -> 0 <= i < 8 ->
  let j := col * Ldb + 8 * q in
  getb (replay (Prepack_events S0 Ldb N) d) (j + i)
  = uint8 (Z.lor (GetInt4 (getb S0 (j + Z.shiftr i 1)) i)
                 (Z.shiftl (GetInt4 (getb S0 (j + Z.shiftr (8 + i) 1)) (i + 8)) 4)).
Proof.
  intros Hok Hd Hcol Hq Hi j.
  destruct (sizes_ok_bounds _ _ Hok) as (HL8 & HT & HU & HN & HN8).
  pose proof (In_tail_events S0 Ldb N (Z.to_nat (col - 8 * (N / 8)))
                (Z.to_nat q) (Z.to_nat i)) as Hin.
  cbv zeta in Hin. rewrite !Z2Nat.id in Hin by lia.
  replace (8 * (N / 8) + (col - 8 * (N / 8))) with col in Hin by lia.
  apply Prepack_byte; auto. apply Hin; unfold chunks; lia.
Qed.

Lemma packed_nibble_correct S0 Ldb N d col kidx :
  sizes_ok Ldb N -> Z.of_nat (length d) = N * Ldb -> Forall is_byte S0 ->
  0 <= col < N -> 0 <= kidx < 2 * Ldb ->
  packed_nibble Ldb N (replay (Prepack_events S0 Ldb N) d) col kidx
  = source_nibble Ldb S0 col kidx.
Proof.
  intros Hok Hd Hb Hcol Hk.
  destruct (sizes_ok_bounds _ _ Hok) as (HL8 & HT & HU & HN & HN8).
  pose proof (chunks_eq Ldb ltac:(lia) (Ldb_mod8 _ _ Hok)) as HQ.
  unfold chunks in HQ. rewrite Z2Nat.id in HQ by (apply Z.div_pos; lia).
  unfold packed_nibble, source_nibble.
  destruct (Z.ltb_spec col (8 * (N / 8))) as [Htile | Htail].
  - rewrite tile_byte; auto; [lia|].
    split; [apply Z.div_pos; lia | apply Z.div_lt_upper_bound; lia].
  - pose proof (Z.div_mod kidx 16 ltac:(lia)) as E16.
    pose proof (Z.mod_pos_bound kidx 16 ltac:(lia)) as B16.
    pose proof (Z.mod_pos_bound kidx 8 ltac:(lia)) as B8.
    assert (Hq : 0 <= kidx / 16 < Ldb / 8).
    { split; [apply Z.div_pos; lia | apply Z.div_lt_upper_bound; lia]. }
    pose proof (tail_byte S0 Ldb N d col (kidx / 16) (kidx mod 8) Hok Hd
                  ltac:(lia) Hq B8) as Hbyte.
    cbv zeta in Hbyte. rewrite Hbyte. clear Hbyte.
    set (j := col * Ldb + 8 * (kidx / 16)).
    set (i := kidx mod 8) in *.
    assert (S1 : Z.shiftr i 1 = i / 2) by (now rewrite Z.shiftr_div_pow2 by lia).
    assert (S2 : Z.shiftr (8 + i) 1 = (8 + i) / 2)
      by (now rewrite Z.shiftr_div_pow2 by lia).
    rewrite S1, S2. clear S1 S2.
    rewrite !GetInt4_nibble by (try apply getb_byte; auto; lia).
    destruct (pack_nibbles
                (nibble (getb S0 (j + i / 2)) (i mod 2))
                (nibble (getb S0 (j + (8 + i) / 2)) ((i + 8) mod 2)))
      as [Hlo Hhi]; try (apply nibble_range, getb_byte; auto).
    assert (Ei : kidx mod 16 = i \/ kidx mod 16 = i + 8).
    { unfold i. pose proof (Z.div_mod kidx 8 ltac:(lia)).
      pose proof (Z.div_mod (kidx / 8) 2 ltac:(lia)).
      pose proof (Z.mod_pos_bound (kidx / 8) 2 ltac:(lia)). lia. }
    destruct Ei as [Ei | Ei].
    + replace (kidx mod 16 / 8) with 0 by (rewrite Ei; symmetry; apply Z.div_small; lia).
      unfold nibble at 1. simpl (0 =? 0). cbv iota. rewrite Hlo.
      f_equal; [f_equal|].
      * unfold j. assert (kidx / 2 = 8 * (kidx / 16) + i / 2); [|lia].
        rewrite E16 at 1. rewrite Ei.
        replace (16 * (kidx / 16) + i) with (i + (8 * (kidx / 16)) * 2) by lia.
        rewrite Z.div_add by lia. lia.
      * symmetry. replace kidx with (i + (8 * (kidx / 16)) * 2) at 1 by lia.
        apply Z.mod_add. lia.
    + replace (kidx mod 16 / 8) with 1.
      2:{ rewrite Ei. replace (i + 8) with (i + 1 * 8) by lia.
          rewrite Z.div_add by lia. rewrite Z.div_small; lia. }
      unfold nibble at 1. simpl (1 =? 0). cbv iota. rewrite Hhi.
      f_equal; [f_equal|].
      * unfold j. assert (kidx / 2 = 8 * (kidx / 16) + (8 + i) / 2); [|lia].
        rewrite E16 at 1. rewrite Ei.
        replace (16 * (kidx / 16) + (i + 8)) with (8 + i + (8 * (kidx / 16)) * 2) by lia.
        rewrite Z.div_add by lia. lia.
      * symmetry. replace kidx with (i + 8 + (8 * (kidx / 16)) * 2) at 1 by lia.
        apply Z.mod_add. lia.
Qed.

Lemma list_as_bytes_at l : l = bytes_at l (zrange 0 (length l)).
Proof.
  unfold bytes_at, zrange, getb. rewrite map_map.
  induction l as [|x l IH]; simpl; auto. f_equal.
  rewrite <- seq_shift, map_map. rewrite IH at 1.
  apply map_ext. intros t. now rewrite !Z.add_0_l, !Nat2Z.id.
Qed.

Lemma nibbles_app a b : nibbles (a ++ b) = nibbles a ++ nibbles b.
Proof. unfold nibbles. apply flat_map_app. Qed.

Lemma bytes_at_app buf a b : bytes_at buf (a ++ b) = bytes_at buf a ++ bytes_at buf b.
Proof. unfold bytes_at. apply map_app. Qed.

Lemma Permutation_nibbles a b : Permutation a b -> Permutation (nibbles a) (nibbles b).
Proof. unfold nibbles. apply Permutation_flat_map. Qed.

Lemma Permutation_bytes_at buf a b :
  Permutation a b -> Permutation (bytes_at buf a) (bytes_at buf b).
Proof. unfold bytes_at. apply Permutation_map. Qed.

Lemma copies_flat_map {A} S0 D (g : A -> list event) l :
  (forall x, In x l -> copies S0 D (g x)) -> copies S0 D (flat_map g l).
Proof.
  unfold copies. induction l as [|x l IH]; intros H; simpl; auto.
  rewrite writes_app, reads_app, !bytes_at_app. f_equal.
  - apply H. now left.
  - apply IH. intros. apply H. now right.
Qed.

Lemma copies_tiles S0 Ldb N d :
  sizes_ok Ldb N -> Z.of_nat (length d) = N * Ldb ->
  copies S0 (replay (Prepack_events S0 Ldb N) d) (tiles_events S0 Ldb N).
Proof.
  intros Hok Hd. unfold tiles_events.
  apply copies_flat_map. intros t Ht. apply in_seq in Ht.
  apply copies_flat_map. intros q Hq. apply in_seq in Hq.
  apply copies_flat_map. intros c Hc. apply in_seq in Hc.
  apply copies_flat_map. intros r Hr. apply in_seq in Hr.
  unfold copies. simpl. f_equal.
  apply Prepack_byte; auto. apply In_tiles_events; lia.
Qed.

Lemma reads_transpose_columns S0 Ldb n :
  0 <= Ldb -> Ldb mod 8 = 0 ->
  Permutation (reads (transpose_columns_events S0 Ldb n))
              (zrange (n * Ldb) (chunks Ldb * 64)).
Proof.
  intros HL H8. pose proof (chunks_eq Ldb HL H8) as HQ.
  unfold transpose_columns_events, Transpose8x8_events.
  rewrite reads_flat_map.
  eapply perm_trans.
  { apply Permutation_flat_map_ext. intros q _. rewrite reads_flat_map.
    apply Permutation_flat_map_ext. intros c _. rewrite reads_flat_map.
    cbn [reads flat_map read app]. apply Permutation_refl. }
  eapply perm_trans; [apply flat_map_swap|].
  replace (chunks Ldb * 64)%nat with (8 * (chunks Ldb * 8))%nat by lia.
  apply perm_blocks. intros c Hc.
  apply perm_blocks. intros q Hq.
  apply (perm_blocks _ _ 1 8). intros r Hr.
  rewrite zrange_one.
  replace ((n + Z.of_nat c) * Ldb + Z.of_nat r + 8 * Z.of_nat q)
    with (n * Ldb + Z.of_nat (c * (chunks Ldb * 8)) + Z.of_nat (q * 8)
          + Z.of_nat (r * 1)) by nia.
  apply Permutation_refl.
Qed.

Lemma reads_tiles S0 Ldb N :
  0 <= Ldb -> Ldb mod 8 = 0 ->
  Permutation (reads (tiles_events S0 Ldb N))
              (zrange 0 (Z.to_nat (N / 8) * (chunks Ldb * 64))).
Proof.
  intros HL H8. pose proof (chunks_eq Ldb HL H8).
  unfold tiles_events. rewrite reads_flat_map.
  apply perm_blocks. intros t Ht.
  replace (0 + Z.of_nat (t * (chunks Ldb * 64))) with (8 * Z.of_nat t * Ldb)
    by nia.
  now apply reads_transpose_columns.
Qed.

(** Full tiles: the bytes of the packed tile region are those of the source. *)
Lemma tiles_bytes_permuted S0 Ldb N d :
  sizes_ok Ldb N -> Z.of_nat (length d) = N * Ldb ->
  let A := (Z.to_nat (N / 8) * (chunks Ldb * 64))%nat in
  Permutation (bytes_at (replay (Prepack_events S0 Ldb N) d) (zrange 0 A))
              (bytes_at S0 (zrange 0 A)).
Proof.
  intros Hok Hd A. assert (HL : 0 <= Ldb) by (destruct Hok; lia).
  eapply perm_trans.
  { apply Permutation_bytes_at, Permutation_sym.
    apply (writes_tiles S0 Ldb N HL (Ldb_mod8 _ _ Hok)). }
  rewrite (copies_tiles S0 Ldb N d Hok Hd).
  apply Permutation_bytes_at, reads_tiles; auto. apply Hok.
Qed.

(** Moves the head of the left list to its place in the right one. *)
Ltac perm_head :=
  match goal with
  | |- Permutation [] [] => apply perm_nil
  | |- Permutation (?a :: _) ?r =>
      let rec go pre post :=
        match post with
        | a :: ?post' =>
            change r with (pre ++ a :: post'); apply Permutation_cons_app;
            cbn [app]
        | ?b :: ?post' => go (pre ++ [b]) post'
        end in
      go (@nil Z) r
  end.

(** Regrouping 16 nibbles: positions [i] and [i + 8] side by side. *)
Lemma regroup_permutation (e : Z -> Z) :
  Permutation
    [e 0; e 8; e 1; e 9; e 2; e 10; e 3; e 11;
     e 4; e 12; e 5; e 13; e 6; e 14; e 7; e 15]
    [e 0; e 1; e 2; e 3; e 4; e 5; e 6; e 7;
     e 8; e 9; e 10; e 11; e 12; e 13; e 14; e 15].
Proof. repeat perm_head. Qed.

(** The byte the regroup path writes at offset [i] of the chunk at [j]. *)
Lemma regroup_value S0 j i :
  Forall is_byte S0 -> 0 <= i < 8 ->
  let v := uint8 (Z.lor (GetInt4 (getb S0 (j + Z.shiftr i 1)) i)
                        (Z.shiftl (GetInt4 (getb S0 (j + Z.shiftr (8 + i) 1))
                                           (i + 8)) 4)) in
  Z.land v 15 = element S0 j i /\ Z.shiftr v 4 = element S0 j (i + 8).
Proof.
  intros Hb Hi v. subst v. unfold element.
  rewrite !Z.shiftr_div_pow2 with (n := 1) by lia. change (2 ^ 1) with 2.
  rewrite !GetInt4_nibble by (try apply getb_byte; auto; lia).
  replace (8 + i) with (i + 8) by lia.
  apply pack_nibbles; apply nibble_range, getb_byte; auto.
Qed.

Lemma chunk_nibbles_permuted S0 Ldb N d col q :
  sizes_ok Ldb N -> Z.of_nat (length d) = N * Ldb -> Forall is_byte S0 ->
  8 * (N / 8) <= col < N -> 0 <= q < Ldb / 8 ->
  let j := col * Ldb + 8 * q in
  Permutation
    (nibbles (bytes_at (replay (Prepack_events S0 Ldb N) d) (zrange j 8)))
    (nibbles (bytes_at S0 (zrange j 8))).
Proof.
  intros Hok Hd Hb Hcol Hq j.
  assert (Hn : forall i, 0 <= i < 8 ->
    Z.land (getb (replay (Prepack_events S0 Ldb N) d) (j + i)) 15
      = element S0 j i /\
    Z.shiftr (getb (replay (Prepack_events S0 Ldb N) d) (j + i)) 4
      = element S0 j (i + 8)).
  { intros i Hi. pose proof (tail_byte S0 Ldb N d col q i Hok Hd Hcol Hq Hi) as E.
    cbv zeta in E. fold j in E. rewrite E. now apply regroup_value. }
  unfold zrange, bytes_at, nibbles. cbn [seq map flat_map app Z.of_nat].
  cbn [Pos.of_succ_nat Pos.succ].
  destruct (Hn 0) as [-> ->]; [lia|]. destruct (Hn 1) as [-> ->]; [lia|].
  destruct (Hn 2) as [-> ->]; [lia|]. destruct (Hn 3) as [-> ->]; [lia|].
  destruct (Hn 4) as [-> ->]; [lia|]. destruct (Hn 5) as [-> ->]; [lia|].
  destruct (Hn 6) as [-> ->]; [lia|]. destruct (Hn 7) as [-> ->]; [lia|].
  apply (regroup_permutation (element S0 j)).
Qed.

Lemma nibbles_bytes_at_flat_map {A} buf (g : A -> list Z) l :
  nibbles (bytes_at buf (flat_map g l))
  = flat_map (fun x => nibbles (bytes_at buf (g x))) l.
Proof.
  induction l as [|x l IH]; simpl; auto.
  now rewrite bytes_at_app, nibbles_app, IH.
Qed.

(** The tail region as the chunks of its columns. *)
Lemma tail_region_chunks Ldb N :
  0 <= Ldb -> Ldb mod 8 = 0 ->
  Permutation
    (flat_map (fun u => flat_map (fun q =>
         zrange ((8 * (N / 8) + Z.of_nat u) * Ldb + 8 * Z.of_nat q) 8)
       (seq 0 (chunks Ldb))) (seq 0 (Z.to_nat (N mod 8))))
    (zrange (8 * (N / 8) * Ldb) (Z.to_nat (N mod 8) * (chunks Ldb * 8))).
Proof.
  intros HL H8. pose proof (chunks_eq Ldb HL H8).
  apply perm_blocks. intros u Hu. apply perm_blocks. intros q Hq.
  replace ((8 * (N / 8) + Z.of_nat u) * Ldb + 8 * Z.of_nat q)
    with (8 * (N / 8) * Ldb + Z.of_nat (u * (chunks Ldb * 8)) + Z.of_nat (q * 8))
    by nia.
  apply Permutation_refl.
Qed.

Lemma tail_nibbles_permuted S0 Ldb N d :
  sizes_ok Ldb N -> Z.of_nat (length d) = N * Ldb -> Forall is_byte S0 ->
  let R := zrange (8 * (N / 8) * Ldb) (Z.to_nat (N mod 8) * (chunks Ldb * 8)) in
  Permutation (nibbles (bytes_at (replay (Prepack_events S0 Ldb N) d) R))
              (nibbles (bytes_at S0 R)).
Proof.
  intros Hok Hd Hb R.
  destruct (sizes_ok_bounds _ _ Hok) as (HL8 & HT & HU & HN & HN8).
  pose proof (tail_region_chunks Ldb N ltac:(lia) (Ldb_mod8 _ _ Hok)) as HR.
  fold R in HR.
  eapply perm_trans;
    [apply Permutation_nibbles, Permutation_bytes_at, Permutation_sym, HR|].
  eapply perm_trans;
    [|apply Permutation_nibbles, Permutation_bytes_at, HR].
  rewrite !nibbles_bytes_at_flat_map.
  apply Permutation_flat_map_ext. intros u Hu. apply in_seq in Hu.
  rewrite !nibbles_bytes_at_flat_map.
  apply Permutation_flat_map_ext. intros q Hq. apply in_seq in Hq.
  apply (chunk_nibbles_permuted S0 Ldb N d); auto; unfold chunks in Hq; lia.
Qed.

(** The packed buffer is a rearrangement of the nibbles of the source. *)
Theorem Prepack_nibbles_permuted S0 Ldb N d :
  sizes_ok Ldb N -> Z.of_nat (length S0) = N * Ldb ->
  Z.of_nat (length d) = N * Ldb -> Forall is_byte S0 ->
  Permutation (nibbles (replay (Prepack_events S0 Ldb N) d)) (nibbles S0).
Proof.
  intros Hok HS Hd Hb.
  destruct (sizes_ok_bounds _ _ Hok) as (HL8 & HT & HU & HN & HN8).
  pose proof (chunks_eq Ldb ltac:(lia) (Ldb_mod8 _ _ Hok)) as HQ.
  set (D := replay (Prepack_events S0 Ldb N) d).
  assert (HlenD : length D = length S0).
  { unfold D. rewrite replay_length. lia. }
  rewrite (list_as_bytes_at D), (list_as_bytes_at S0), HlenD.
  replace (length S0)
    with (Z.to_nat (N / 8) * (chunks Ldb * 64)
          + Z.to_nat (N mod 8) * (chunks Ldb * 8))%nat by nia.
  rewrite zrange_app, !bytes_at_app, !nibbles_app.
  apply Permutation_app.
  - apply Permutation_nibbles. now apply tiles_bytes_permuted.
  - replace (0 + Z.of_nat (Z.to_nat (N / 8) * (chunks Ldb * 64)))
      with (8 * (N / 8) * Ldb) by nia.
    now apply tail_nibbles_permuted.
Qed.

(** ** The claims on the packer *)

Lemma run_emits {A} (m : M A) a evs s :
  emits (src s) (length (dst s)) m a evs ->
  m s = Done a (mkState (src s) (replay evs (dst s)) (rev evs ++ trace s)).
Proof. intros H. destruct s as [S0 d t]. now apply H. Qed.

(** One call.  For a group of 8 columns starting at [n] ([n + 8 <= N]) and a
    chunk of 8 bytes at offset [k] of the column byte range
    ([k + 8 <= Ldb]), [Transpose8x8] ends normally, leaves the source as it
    is, and the output byte at [n*Ldb + (r+k)*8 + c] is the source byte at
    [(n+c)*Ldb + (r+k)], for all [r], [c] in [0,8). *)
Lemma Transpose8x8_transposes Ldb N n k s :
  0 <= n -> n + 8 <= N -> 0 <= k -> k + 8 <= Ldb ->
  Z.of_nat (length (src s)) = N * Ldb ->
  Z.of_nat (length (dst s)) = N * Ldb ->
  N * Ldb <= SIZE_MAX ->
  exists s',
    Transpose8x8 Ldb n k s = Done tt s' /\
    src s' = src s /\
    length (dst s') = length (dst s) /\
    forall r c, 0 <= r < 8 -> 0 <= c < 8 ->
      getb (dst s') (n * Ldb + (r + k) * 8 + c)
      = getb (src s) ((n + c) * Ldb + (r + k)).
Proof.
  intros Hn HnN Hk HkL HS Hd Hmax.
  assert (Hfit : (n + 8) * Ldb <= N * Ldb) by nia.
  eexists. split; [apply run_emits, emits_Transpose8x8; lia|].
  cbn [src dst]. split; [reflexivity|]. split; [apply replay_length|].
  intros r c Hr Hc.
  pose proof (writes_Transpose8x8 (src s) Ldb n k) as HP.
  apply replay_written.
  - eapply Permutation_NoDup; [apply Permutation_sym, HP | apply NoDup_zrange].
  - intros j' Hj'. apply (Permutation_in _ HP), in_zrange in Hj'. nia.
  - unfold Transpose8x8_events.
    apply in_flat_map. exists (Z.to_nat c). split; [apply in_seq; lia|].
    apply in_flat_map. exists (Z.to_nat r). split; [apply in_seq; lia|].
    rewrite !Z2Nat.id by lia. right. left. f_equal. f_equal. lia.
  - nia.
Qed.

Lemma emits_PrepackSlice_values S0 d j i :
  0 <= j -> j + 8 <= Z.of_nat (length d) -> Forall is_byte S0 -> 0 <= i < 8 ->
  Z.land (getb (replay (PrepackSlice_events S0 j) d) (j + i)) 15
    = element S0 j i /\
  Z.shiftr (getb (replay (PrepackSlice_events S0 j) d) (j + i)) 4
    = element S0 j (i + 8).
Proof.
  intros Hj Hd Hb Hi.
  pose proof (writes_PrepackSlice S0 j) as HP.
  rewrite (replay_written _ d (j + i)
             (uint8 (Z.lor (GetInt4 (getb S0 (j + Z.shiftr i 1)) i)
                (Z.shiftl (GetInt4 (getb S0 (j + Z.shiftr (8 + i) 1)) (i + 8)) 4)))).
  - now apply regroup_value.
  - eapply Permutation_NoDup; [apply Permutation_sym, HP | apply NoDup_zrange].
  - intros j' Hj'. apply (Permutation_in _ HP), in_zrange in Hj'. lia.
  - unfold PrepackSlice_events.
    apply in_flat_map. exists (Z.to_nat i). split; [apply in_seq; lia|].
    rewrite !Z2Nat.id by lia. right. right. now left.
  - lia.
Qed.

(** One call.  For a tail column [n] (one of the last [N mod 8]) and a chunk
    of 8 bytes at offset [k] of it, [PrepackSlice] ends normally and, for
    each [i] in [0,8), the output byte at offset [i] of the chunk has element
    [i] of the 16-element group in its low nibble and element [i + 8] in its
    high nibble ([element]). *)
Lemma PrepackSlice_regroups Ldb N n k s :
  8 * (N / 8) <= n < N -> 0 <= k -> k + 8 <= Ldb -> 1 <= N ->
  Z.of_nat (length (src s)) = N * Ldb ->
  Z.of_nat (length (dst s)) = N * Ldb ->
  N * Ldb <= SIZE_MAX -> Forall is_byte (src s) ->
  exists s',
    PrepackSlice (n * Ldb + k) s = Done tt s' /\
    src s' = src s /\
    forall i, 0 <= i < 8 ->
      Z.land (getb (dst s') (n * Ldb + k + i)) 15
        = element (src s) (n * Ldb + k) i /\
      Z.shiftr (getb (dst s') (n * Ldb + k + i)) 4
        = element (src s) (n * Ldb + k) (i + 8).
Proof.
  intros Hn Hk HkL HN HS Hd Hmax Hb.
  assert (0 <= N / 8) by (apply Z.div_pos; lia).
  assert (Hfit : (n + 1) * Ldb <= N * Ldb) by nia.
  assert (0 <= n * Ldb) by nia.
  eexists. split; [apply run_emits, emits_PrepackSlice; lia|].
  cbn [src dst]. split; [reflexivity|].
  intros i Hi. apply emits_PrepackSlice_values; auto; lia.
Qed.

(** C2, as amended.  For [N >= 1] columns of stride [Ldb >= 1], [Ldb] a
    multiple of 8 (the stride of every power-of-two [BlkLen >= 16]), source
    and destination buffers of [N * Ldb] bytes and a stride within the range
    of the tail loop's [int] counter, a run of [Prepack] ends normally,
    leaves the source as it is, and has transposed every tile: for every
    group of 8 columns the packer forms, starting at a multiple of 8, [n]
    ([n + 8 <= N]), and every chunk of 8 bytes at offset [k] of the column
    byte range ([k + 8 <= Ldb]), the byte of the output at
    [n*Ldb + (r+k)*8 + c] is the byte of the source at [(n+c)*Ldb + (r+k)],
    for all [r], [c] in [0,8): whole bytes move, both nibbles together. *)
Theorem Prepack_transposes_tiles fuel Ldb N input ref :
  sizes_ok Ldb N -> int_counter_ok Ldb N -> enough fuel Ldb N ->
  Z.of_nat (length input) = N * Ldb -> Z.of_nat (length ref) = N * Ldb ->
  exists s',
    run_Prepack fuel Ldb N input ref = Done tt s' /\
    src s' = input /\
    forall n k r c,
      0 <= n -> n mod 8 = 0 -> n + 8 <= N -> 0 <= k -> k + 8 <= Ldb ->
      0 <= r < 8 -> 0 <= c < 8 ->
      getb (dst s') (n * Ldb + (r + k) * 8 + c)
      = getb input ((n + c) * Ldb + (r + k)).
Proof.
  intros Hok Hint Hf HS Hd.
  eexists. split; [apply run_Prepack_events; auto|]. cbn [src dst].
  split; [reflexivity|].
  intros n k r c Hn Hn8 HnN Hk HkL Hr Hc.
  assert (Hcol : 0 <= n + c < 8 * (N / 8)) by (Z.div_mod_to_equations; lia).
  pose proof (tile_byte input Ldb N ref (n + c) (r + k) Hok Hd Hcol ltac:(lia)) as H.
  replace (8 * ((n + c) / 8)) with n in H by (Z.div_mod_to_equations; lia).
  replace ((n + c) mod 8) with c in H by (Z.div_mod_to_equations; lia).
  exact H.
Qed.

Lemma Prepack_transposes_tiles_witness :
  exists s',
    run_Prepack 9 8 9 (zrange 0 72) (repeat 0 72%nat) = Done tt s' /\
    getb (dst s') (0 * 8 + (1 + 0) * 8 + 2) = 17.
Proof.
  destruct (Prepack_transposes_tiles 9 8 9 (zrange 0 72) (repeat 0 72%nat))
    as (s' & Hrun & _ & Hb).
  - split; [lia | lia | reflexivity | rewrite SIZE_MAX_eq; lia].
  - right. rewrite INT_MAX_eq. lia.
  - unfold enough. repeat split; reflexivity.
  - reflexivity.
  - reflexivity.
  - exists s'. split; [exact Hrun|].
    rewrite (Hb 0 0 1 2) by (try reflexivity; lia). reflexivity.
Defined.

(** C2 as stated fails for a stride that is not a multiple of 8: with
    [N = 8], [K = 1], [BlkLen = 8] the stride is 4, the chunk at offset 0
    reaches past the column, and the transpose path writes [dst[32]] of a
    32-byte buffer.  It also fails for a group that does not start at a
    multiple of 8: with [N = 16] and stride 8, the byte at
    [1*8 + (0+0)*8 + 0] is the source byte at index 1, not the one at
    [(1+0)*8 + (0+0)]. *)
Lemma Prepack_tile_BlkLen8_counterexample :
  Ldb_of 1 8 = 4 /\
  run_Prepack 9 (Ldb_of 1 8) 8 (zrange 0 32) (repeat 0 32%nat)
    = Undefined OutOfBounds /\
  ~ (exists fuel s',
       run_Prepack fuel (Ldb_of 1 8) 8 (zrange 0 32) (repeat 0 32%nat)
       = Done tt s') /\
  exists s',
    run_Prepack 9 8 16 (zrange 0 128) (repeat 0 128%nat) = Done tt s' /\
    getb (dst s') (1 * 8 + (0 + 0) * 8 + 0) = 1 /\
    getb (zrange 0 128) ((1 + 0) * 8 + (0 + 0)) = 8.
Proof.
  split; [vm_compute; reflexivity|]. split; [vm_compute; reflexivity|]. split.
  - intros (fuel & s' & H). destruct fuel as [|fuel]; [discriminate H|].
    vm_compute in H. discriminate H.
  - eexists. split; [vm_compute; reflexivity|]. split; vm_compute; reflexivity.
Qed.

(** C3, as amended.  Under the same conditions (stride a multiple of 8,
    buffers of [N * Ldb] bytes, stride within the range of the [int]
    counter) and for source bytes in [0, 256), a run of [Prepack] ends
    normally, leaves the source as it is, and has regrouped every chunk of
    every tail column: for every tail column [n] (one of the last
    [N mod 8]), every chunk of 8 bytes at an offset [k] that is a multiple
    of 8 ([k + 8 <= Ldb]) and each [i] in [0,8), the output byte at offset
    [i] of the chunk has element [i] of the 16-element group in its low
    nibble and element [i + 8] in its high nibble; in a source byte the low
    nibble is the even element, the high nibble the odd one ([element]). *)
Theorem Prepack_regroups_tail fuel Ldb N input ref :
  sizes_ok Ldb N -> int_counter_ok Ldb N -> enough fuel Ldb N ->
  Z.of_nat (length input) = N * Ldb -> Z.of_nat (length ref) = N * Ldb ->
  Forall is_byte input ->
  exists s',
    run_Prepack fuel Ldb N input ref = Done tt s' /\
    src s' = input /\
    forall n k i,
      8 * (N / 8) <= n < N -> 0 <= k -> k mod 8 = 0 -> k + 8 <= Ldb ->
      0 <= i < 8 ->
      Z.land (getb (dst s') (n * Ldb + k + i)) 15
        = element input (n * Ldb + k) i /\
      Z.shiftr (getb (dst s') (n * Ldb + k + i)) 4
        = element input (n * Ldb + k) (i + 8).
Proof.
  intros Hok Hint Hf HS Hd Hb.
  eexists. split; [apply run_Prepack_events; auto|]. cbn [src dst].
  split; [reflexivity|].
  intros n k i Hn Hk Hk8 HkL Hi.
  assert (Hq : 0 <= k / 8 < Ldb / 8) by (Z.div_mod_to_equations; lia).
  pose proof (tail_byte input Ldb N ref n (k / 8) i Hok Hd Hn Hq Hi) as H.
  cbv zeta in H.
  replace (8 * (k / 8)) with k in H by (Z.div_mod_to_equations; lia).
  rewrite H. now apply regroup_value.
Qed.

Lemma Prepack_regroups_tail_witness :
  exists s',
    run_Prepack 9 8 1 [33; 67; 101; 135; 169; 203; 237; 15] (repeat 0 8%nat)
    = Done tt s' /\
    Z.land (getb (dst s') (0 * 8 + 0 + 2)) 15 = 3 /\
    Z.shiftr (getb (dst s') (0 * 8 + 0 + 2)) 4 = 11.
Proof.
  destruct (Prepack_regroups_tail 9 8 1 [33; 67; 101; 135; 169; 203; 237; 15]
              (repeat 0 8%nat)) as (s' & Hrun & _ & Hv).
  - split; [lia | lia | reflexivity | rewrite SIZE_MAX_eq; lia].
  - right. rewrite INT_MAX_eq. lia.
  - unfold enough. repeat split; reflexivity.
  - reflexivity.
  - reflexivity.
  - repeat constructor; unfold is_byte; simpl; lia.
  - exists s'. split; [exact Hrun|].
    destruct (Hv 0 0 2) as [-> ->]; try reflexivity; try (simpl; lia).
    split; reflexivity.
Defined.

(** C3 as stated fails for a stride that is not a multiple of 8: with
    [N = 1], [K = 17], [BlkLen = 8] the stride is 12; the column has the
    chunk of 8 bytes at offset 0, and after it the regroup path goes on at
    offset 8 and reads [src[12]] of a 12-byte buffer, so the run is
    undefined and does not end normally. *)
Lemma Prepack_tail_BlkLen8_counterexample :
  Ldb_of 17 8 = 12 /\
  run_Prepack 9 (Ldb_of 17 8) 1 (zrange 16 12) (repeat 0 12%nat)
    = Undefined OutOfBounds /\
  ~ (exists fuel s',
       run_Prepack fuel (Ldb_of 17 8) 1 (zrange 16 12) (repeat 0 12%nat)
       = Done tt s').
Proof.
  split; [vm_compute; reflexivity|]. split; [vm_compute; reflexivity|].
  intros (fuel & s' & H).
  destruct fuel as [|[|fuel]]; [discriminate H | |];
    vm_compute in H; discriminate H.
Qed.

(** C1, as amended.  For [N >= 1] columns of stride [Ldb >= 1], [Ldb] a
    multiple of 8 (the stride of every power-of-two [BlkLen >= 16]), source
    and destination buffers of [N * Ldb] bytes and a stride within the range
    of the tail loop's [int] counter, [Prepack] ends normally and its output
    is the source rearranged nibble by nibble: the element of every
    (column, K-index) read by the packed addressing rule is the element the
    source holds there, the nibbles of the output are a permutation of the
    nibbles of the source, and the output has the [N * Ldb] bytes of the
    input. *)
Theorem Prepack_permutes_nibbles fuel Ldb N input ref :
  sizes_ok Ldb N -> int_counter_ok Ldb N -> enough fuel Ldb N ->
  Z.of_nat (length input) = N * Ldb -> Z.of_nat (length ref) = N * Ldb ->
  Forall is_byte input ->
  exists s',
    run_Prepack fuel Ldb N input ref = Done tt s' /\
    src s' = input /\
    Z.of_nat (length (dst s')) = N * Ldb /\
    (forall col kidx, 0 <= col < N -> 0 <= kidx < 2 * Ldb ->
       packed_nibble Ldb N (dst s') col kidx = source_nibble Ldb input col kidx) /\
    Permutation (nibbles (dst s')) (nibbles input).
Proof.
  intros Hok Hint Hf HS Hd Hb.
  eexists. split; [apply run_Prepack_events; auto|]. cbn [src dst].
  split; [reflexivity|]. split; [rewrite replay_length; exact Hd|]. split.
  - intros col kidx Hc Hk. now apply packed_nibble_correct.
  - now apply Prepack_nibbles_permuted.
Qed.

Lemma Prepack_permutes_nibbles_witness :
  exists s',
    run_Prepack 9 8 9 (zrange 16 72) (repeat 0 72%nat) = Done tt s' /\
    packed_nibble 8 9 (dst s') 8 9 = source_nibble 8 (zrange 16 72) 8 9 /\
    Permutation (nibbles (dst s')) (nibbles (zrange 16 72)).
Proof.
  destruct (Prepack_permutes_nibbles 9 8 9 (zrange 16 72) (repeat 0 72%nat))
    as (s' & Hrun & _ & _ & Hn & Hp).
  - split; [lia | lia | reflexivity | rewrite SIZE_MAX_eq; lia].
  - right. rewrite INT_MAX_eq. lia.
  - unfold enough. repeat split; reflexivity.
  - reflexivity.
  - reflexivity.
  - apply Forall_forall. intros x Hx. apply in_zrange in Hx. unfold is_byte. lia.
  - exists s'. split; [exact Hrun|]. split; [apply Hn; lia | exact Hp].
Defined.

(** C1 as stated fails for a power-of-two [BlkLen] below 16: with [N = 1],
    [K = 1], [BlkLen = 8] the stride is 4 and the regroup path reads
    [src[4]] of a 4-byte buffer. *)
Lemma Prepack_BlkLen8_counterexample :
  Ldb_of 1 8 = 4 /\
  run_Prepack 9 (Ldb_of 1 8) 1 [33; 67; 101; 135] [0; 0; 0; 0]
    = Undefined OutOfBounds /\
  ~ (exists fuel s',
       run_Prepack fuel (Ldb_of 1 8) 1 [33; 67; 101; 135] [0; 0; 0; 0]
       = Done tt s').
Proof.
  split; [reflexivity|]. split; [reflexivity|].
  intros (fuel & s' & H). destruct fuel as [|fuel]; discriminate H.
Qed.

Lemma two64_eq : two64 = 18446744073709551616.
Proof. reflexivity. Qed.

Lemma size_t_range x : 0 <= size_t x < two64.
Proof. unfold size_t. apply Z.mod_pos_bound. reflexivity. Qed.

Lemma pow2_bounds b : 0 <= b < 64 -> 1 <= 2 ^ b <= 2 ^ 63.
Proof.
  intros Hb. split.
  - pose proof (Z.pow_pos_nonneg 2 b). lia.
  - apply Z.pow_le_mono_r; lia.
Qed.

(** [x & ~(BlkLen - 1)] clears the low bits of [x]. *)
Lemma land_snot_pow2 x b :
  0 <= b < 64 -> 0 <= x < two64 ->
  Z.land x (snot (ssub (2 ^ b) 1)) = 2 ^ b * (x / 2 ^ b).
Proof.
  intros Hb Hx. pose proof (pow2_bounds b Hb) as HB.
  assert (H63 : 2 ^ 63 = 9223372036854775808) by reflexivity.
  rewrite ssub_small by (rewrite SIZE_MAX_eq; lia).
  replace (2 ^ b - 1) with (Z.ones b) by (rewrite Z.ones_equiv; lia).
  unfold snot, size_t. change two64 with (2 ^ 64).
  rewrite <- Z.land_ones by lia.
  rewrite (Z.land_comm (Z.lnot (Z.ones b))), Z.land_assoc.
  rewrite (Z.land_ones x 64) by lia.
  rewrite Z.mod_small by (change (2 ^ 64) with two64; lia).
  rewrite <- Z.ldiff_land, Z.ldiff_ones_r by lia.
  rewrite Z.shiftl_mul_pow2, Z.shiftr_div_pow2 by lia. lia.
Qed.

Lemma padded_arg K BlkLen :
  ssub (sadd K BlkLen) 1 = (K + BlkLen - 1) mod two64.
Proof.
  unfold ssub, sadd, size_t. now rewrite Zminus_mod_idemp_l.
Qed.

(** For a power-of-two [BlkLen >= 16] the computed stride is a multiple of 8,
    whatever the wrap-around. *)
Lemma Ldb_of_mod8 K b : 4 <= b < 64 -> Ldb_of K (2 ^ b) mod 8 = 0.
Proof.
  intros Hb. unfold Ldb_of, Bits.
  rewrite land_snot_pow2 by (try apply size_t_range; lia).
  set (x := ssub (sadd K (2 ^ b)) 1 / 2 ^ b).
  replace (2 ^ b) with (16 * 2 ^ (b - 4))
    by (change 16 with (2 ^ 4); rewrite <- Z.pow_add_r by lia; f_equal; lia).
  unfold smul, size_t.
  replace (16 * 2 ^ (b - 4) * x * 4) with (64 * (2 ^ (b - 4) * x)) by lia.
  change two64 with (64 * 2 ^ 58).
  rewrite Z.mul_mod_distr_l by lia.
  set (y := (2 ^ (b - 4) * x) mod 2 ^ 58).
  assert (Hy : 0 <= y < 2 ^ 58) by (apply Z.mod_pos_bound; reflexivity).
  assert (H58 : 2 ^ 58 = 288230376151711744) by reflexivity.
  rewrite sadd_small by (rewrite SIZE_MAX_eq; lia).
  replace (64 * y + 7) with (7 + (8 * y) * 8) by lia.
  rewrite Z.div_add by lia. change (7 / 8) with 0.
  rewrite Z.add_0_l, Z.mul_comm. apply Z.mod_mul. lia.
Qed.

Lemma Ldb_of_no_wrap K b :
  1 <= K -> 0 <= b -> K + 2 ^ b - 1 <= SIZE_MAX ->
  K_padded K (2 ^ b) * 4 + 7 <= SIZE_MAX ->
  Ldb_of K (2 ^ b) = Ldb_spec K (2 ^ b).
Proof.
  intros HK Hb Hx Hp. pose proof SIZE_MAX_eq as HM. pose proof two64_eq as H64.
  assert (Hb64 : b < 64).
  { destruct (Z.lt_ge_cases b 64); auto.
    assert (2 ^ 64 <= 2 ^ b) by (apply Z.pow_le_mono_r; lia).
    change (2 ^ 64) with 18446744073709551616 in *. lia. }
  pose proof (pow2_bounds b ltac:(lia)) as HB.
  unfold Ldb_of, Ldb_spec, Bits.
  rewrite land_snot_pow2 by (try apply size_t_range; lia).
  rewrite padded_arg, Z.mod_small by lia.
  unfold K_padded, ceil_div in *.
  rewrite (Z.mul_comm (2 ^ b)).
  assert (0 <= (K + 2 ^ b - 1) / 2 ^ b * 2 ^ b).
  { apply Z.mul_nonneg_nonneg; [apply Z.div_pos|]; lia. }
  rewrite smul_small by lia. rewrite sadd_small by lia.
  f_equal. lia.
Qed.

(** C8, as amended.  For [K >= 1] and a power-of-two [BlkLen] for which the
    stride computation stays within [size_t] ([K + BlkLen - 1] and
    [K_padded * 4 + 7] at most [SIZE_MAX]) the computed stride is
    [ceil(K_padded * 4 / 8)], with [K_padded] the next multiple of [BlkLen]
    from [K] on; and when [N * Ldb] fits a [size_t] too, the size of the
    three buffers is [N * Ldb]. *)
Theorem Ldb_of_is_ceil N K BlkLen b :
  1 <= K -> 0 <= b -> BlkLen = 2 ^ b -> 0 <= N ->
  K + BlkLen - 1 <= SIZE_MAX ->
  K_padded K BlkLen * 4 + 7 <= SIZE_MAX ->
  N * Ldb_spec K BlkLen <= SIZE_MAX ->
  Ldb_of K BlkLen = Ldb_spec K BlkLen /\
  K_padded K BlkLen mod BlkLen = 0 /\
  K <= K_padded K BlkLen < K + BlkLen /\
  BufferSize N K BlkLen = N * Ldb_of K BlkLen.
Proof.
  intros HK Hb -> HN Hx Hp HNL.
  pose proof (Ldb_of_no_wrap K b HK Hb Hx Hp) as E.
  assert (HB : 0 < 2 ^ b) by (apply Z.pow_pos_nonneg; lia).
  split; [exact E|]. split; [|split].
  - unfold K_padded. apply Z.mod_mul. lia.
  - unfold K_padded, ceil_div.
    pose proof (Z.div_mod (K + 2 ^ b - 1) (2 ^ b) ltac:(lia)).
    pose proof (Z.mod_pos_bound (K + 2 ^ b - 1) (2 ^ b) HB). lia.
  - unfold BufferSize. rewrite E. apply smul_small. split; [|exact HNL].
    apply Z.mul_nonneg_nonneg; [lia|].
    unfold Ldb_spec, K_padded, ceil_div. apply Z.div_pos; [|lia].
    assert (0 <= (K + 2 ^ b - 1) / 2 ^ b) by (apply Z.div_pos; lia). nia.
Qed.

Lemma Ldb_of_is_ceil_witness :
  Ldb_of 33 32 = Ldb_spec 33 32 /\ BufferSize 9 33 32 = 9 * Ldb_of 33 32.
Proof.
  destruct (Ldb_of_is_ceil 9 33 32 5) as (H1 & _ & _ & H2);
    [lia | lia | reflexivity | lia | vm_compute; discriminate
    | vm_compute; discriminate | vm_compute; discriminate |].
  split; assumption.
Defined.

(** C8 as stated fails when the computation wraps: for [K = 2^62] and
    [BlkLen = 16], [K_padded * 4] is [2^64] and the computed stride is 0,
    not [2^61]. *)
Lemma Ldb_of_wraps_counterexample :
  1 <= 2 ^ 62 /\ 16 = 2 ^ 4 /\
  Ldb_of (2 ^ 62) 16 = 0 /\ Ldb_spec (2 ^ 62) 16 = 2 ^ 61 /\
  Ldb_of (2 ^ 62) 16 <> Ldb_spec (2 ^ 62) 16.
Proof. repeat split; try reflexivity; try discriminate. Qed.






(** *** Frame: what a run reads and writes *)

Lemma writes_rev evs : Permutation (writes (rev evs)) (writes evs).
Proof. unfold writes. apply Permutation_flat_map, Permutation_sym, Permutation_rev. Qed.

Lemma In_writes j v evs : In (WrDst j v) evs -> In j (writes evs).
Proof.
  intros H. unfold writes. apply in_flat_map. exists (WrDst j v). split; auto. now left.
Qed.

Lemma In_reads i evs : In (RdSrc i) evs -> In i (reads evs).
Proof.
  intros H. unfold reads. apply in_flat_map. exists (RdSrc i). split; auto. now left.
Qed.

Lemma reads_PrepackSlice_range S0 j i :
  In i (reads (PrepackSlice_events S0 j)) -> j <= i < j + 8.
Proof.
  unfold PrepackSlice_events. rewrite reads_flat_map.
  intros H. apply in_flat_map in H as (t & Ht & H). apply in_seq in Ht.
  cbn [reads flat_map read app] in H.
  assert (H1 : 0 <= Z.shiftr (Z.of_nat t) 1 < 4).
  { rewrite Z.shiftr_div_pow2 by lia. change (2 ^ 1) with 2.
    split; [apply Z.div_pos; lia | apply Z.div_lt_upper_bound; lia]. }
  assert (H2 : 4 <= Z.shiftr (8 + Z.of_nat t) 1 < 8).
  { rewrite Z.shiftr_div_pow2 by lia. change (2 ^ 1) with 2.
    split; [apply Z.div_le_lower_bound; lia | apply Z.div_lt_upper_bound; lia]. }
  destruct H as [<- | [<- | []]]; lia.
Qed.

Lemma reads_Prepack_range S0 Ldb N i :
  sizes_ok Ldb N -> In i (reads (Prepack_events S0 Ldb N)) -> 0 <= i < N * Ldb.
Proof.
  intros Hok H.
  destruct (sizes_ok_bounds _ _ Hok) as (HL8 & HT & HU & HN & HN8).
  pose proof (chunks_eq Ldb ltac:(lia) (Ldb_mod8 _ _ Hok)) as HQ.
  unfold Prepack_events in H. rewrite reads_app in H.
  apply in_app_or in H as [H | H].
  - apply (Permutation_in _ (reads_tiles S0 Ldb N ltac:(lia) (Ldb_mod8 _ _ Hok))) in H.
    apply in_zrange in H. nia.
  - unfold tail_events in H. rewrite reads_flat_map in H.
    apply in_flat_map in H as (u & Hu & H). apply in_seq in Hu.
    unfold regroup_column_events in H. rewrite reads_flat_map in H.
    apply in_flat_map in H as (q & Hq & H). apply in_seq in Hq.
    apply reads_PrepackSlice_range in H. nia.
Qed.

(** Under the sizes of [sizes_ok] and with the tail counter in range, a run
    ends normally, leaves the source as it is, writes each destination index
    of [0, N * Ldb) once and no other, and reads inside the source. *)
Theorem Prepack_writes_once fuel Ldb N input ref :
  sizes_ok Ldb N -> int_counter_ok Ldb N -> enough fuel Ldb N ->
  Z.of_nat (length input) = N * Ldb -> Z.of_nat (length ref) = N * Ldb ->
  exists s',
    run_Prepack fuel Ldb N input ref = Done tt s' /\
    src s' = input /\
    Permutation (writes (trace s')) (zrange 0 (Z.to_nat (N * Ldb))) /\
    (forall i, In (RdSrc i) (trace s') -> 0 <= i < N * Ldb).
Proof.
  intros Hok Hint Hf HS Hd.
  eexists. split; [apply run_Prepack_events; auto|]. cbn [src trace].
  split; [reflexivity|]. split.
  - eapply perm_trans; [apply writes_rev | now apply writes_Prepack].
  - intros i Hi. apply in_rev, In_reads in Hi.
    now apply (reads_Prepack_range input Ldb N).
Qed.

Lemma faults_bind_l {A B} S0 len (m : M A) (k : A -> M B) f :
  faults S0 len m f -> faults S0 len (bind m k) f.
Proof. intros H d t Hd. unfold bind. now rewrite (H d t Hd). Qed.

Lemma int_chunks_eq : Z.of_nat int_chunks = 268435455.
Proof. unfold int_chunks. apply Z2Nat.id. lia. Qed.

#[global] Opaque int_chunks.

Lemma regroup_column_iterations S0 len Ldb n t :
  0 <= n -> INT_MAX < Ldb ->
  (n + 1) * Ldb <= Z.of_nat (length S0) -> (n + 1) * Ldb <= Z.of_nat len ->
  (n + 1) * Ldb <= SIZE_MAX -> (t <= int_chunks)%nat ->
  (size_t (8 * Z.of_nat t) <? Ldb) = true /\
  emits S0 len (PrepackSlice (sadd (smul n Ldb) (size_t (8 * Z.of_nat t)))) tt
        (PrepackSlice_events S0 (n * Ldb + 8 * Z.of_nat t)).
Proof.
  intros Hn HL HS Hlen Hmax Ht. pose proof int_chunks_eq.
  pose proof SIZE_MAX_eq. pose proof INT_MAX_eq.
  rewrite size_t_small by lia. split; [apply Z.ltb_lt; lia|].
  rewrite (smul_small n Ldb) by nia. rewrite sadd_small by nia.
  apply emits_PrepackSlice; nia.
Qed.

Lemma regroup_column_stuck S0 len fuel Ldb n :
  0 <= n -> INT_MAX < Ldb ->
  (n + 1) * Ldb <= Z.of_nat (length S0) -> (n + 1) * Ldb <= Z.of_nat len ->
  (n + 1) * Ldb <= SIZE_MAX ->
  stuck S0 len (regroup_column fuel Ldb n).
Proof.
  intros Hn HL HS Hlen Hmax. unfold regroup_column. apply stuck_bind_l.
  pose proof INT_MAX_eq as HI. pose proof int_chunks_eq as HC.
  replace 0 with ((fun t => 8 * Z.of_nat t) 0%nat) at 1 by reflexivity.
  apply (stuck_for_loop S0 len _ (int_step 8) _ (fun t => 8 * Z.of_nat t)
           (fun q => PrepackSlice_events S0 (n * Ldb + 8 * Z.of_nat q))
           int_chunks).
  - intros t Ht.
    destruct (regroup_column_iterations S0 len Ldb n t) as [Hc He];
      auto; [lia|].
    repeat split; auto.
    apply (int_count_iterations 8 int_chunks); lia.
  - apply (regroup_column_iterations S0 len Ldb n int_chunks); auto.
  - right. eexists. split.
    + apply (regroup_column_iterations S0 len Ldb n int_chunks); auto.
    + unfold int_step. rewrite int_chunks_eq.
      destruct (Z.leb_spec (8 * 268435455 + 8) INT_MAX); [lia | reflexivity].
Qed.

Lemma regroup_column_faults S0 len fuel Ldb n :
  0 <= n -> INT_MAX < Ldb ->
  (n + 1) * Ldb <= Z.of_nat (length S0) -> (n + 1) * Ldb <= Z.of_nat len ->
  (n + 1) * Ldb <= SIZE_MAX -> (int_chunks < fuel)%nat ->
  faults S0 len (regroup_column fuel Ldb n) SignedOverflow.
Proof.
  intros Hn HL HS Hlen Hmax Hf. unfold regroup_column. apply faults_bind_l.
  pose proof INT_MAX_eq as HI. pose proof int_chunks_eq as HC.
  replace 0 with ((fun t => 8 * Z.of_nat t) 0%nat) at 1 by reflexivity.
  apply (faults_for_loop S0 len _ (int_step 8) _ (fun t => 8 * Z.of_nat t)
           (fun q => PrepackSlice_events S0 (n * Ldb + 8 * Z.of_nat q))
           int_chunks) with
           (e := PrepackSlice_events S0 (n * Ldb + 8 * Z.of_nat int_chunks));
    [ | exact Hf | | | ].
  - intros t Ht.
    destruct (regroup_column_iterations S0 len Ldb n t) as [Hc He];
      auto; [lia|].
    repeat split; auto.
    apply (int_count_iterations 8 int_chunks); lia.
  - apply (regroup_column_iterations S0 len Ldb n int_chunks); auto.
  - apply (regroup_column_iterations S0 len Ldb n int_chunks); auto.
  - unfold int_step. rewrite int_chunks_eq.
    destruct (Z.leb_spec (8 * 268435455 + 8) INT_MAX); [lia | reflexivity].
Qed.

Lemma emits_Prepack_tiles_none S0 len fuel Ldb N :
  0 <= N < 8 -> emits S0 len (Prepack_tiles (S fuel) Ldb N) 0 [].
Proof.
  intros HN d t _. unfold Prepack_tiles. cbn [for_loop].
  change (sadd 0 8) with 8.
  destruct (Z.leb_spec 8 N); [lia | reflexivity].
Qed.

Lemma Prepack_stuck S0 len fuel Ldb N :
  1 <= N < 8 -> INT_MAX < Ldb ->
  N * Ldb <= Z.of_nat (length S0) -> N * Ldb <= Z.of_nat len ->
  N * Ldb <= SIZE_MAX ->
  stuck S0 len (Prepack fuel Ldb N).
Proof.
  intros HN HL HS Hlen Hmax. destruct fuel as [|fuel].
  { intros d t _ a s. discriminate. }
  unfold Prepack. eapply stuck_bind_r; [apply emits_Prepack_tiles_none; lia|].
  apply stuck_bind_l. unfold Prepack_tail.
  change 0 with (Z.of_nat 0) at 1.
  apply (stuck_for_loop S0 len _ _ _ Z.of_nat (fun _ => []) 0).
  - intros t Ht. lia.
  - apply Z.ltb_lt. simpl. lia.
  - left. change (Z.of_nat 0) with 0. pose proof INT_MAX_eq.
    apply regroup_column_stuck; nia.
Qed.

Lemma Prepack_faults S0 len fuel Ldb N :
  1 <= N < 8 -> INT_MAX < Ldb ->
  N * Ldb <= Z.of_nat (length S0) -> N * Ldb <= Z.of_nat len ->
  N * Ldb <= SIZE_MAX -> (int_chunks < fuel)%nat ->
  faults S0 len (Prepack fuel Ldb N) SignedOverflow.
Proof.
  intros HN HL HS Hlen Hmax Hf. destruct fuel as [|fuel]; [lia|].
  unfold Prepack. eapply faults_bind_r; [apply emits_Prepack_tiles_none; lia|].
  apply faults_bind_l. unfold Prepack_tail. cbn [for_loop].
  destruct (Z.ltb_spec 0 N); [|lia].
  apply faults_bind_l. pose proof INT_MAX_eq.
  apply regroup_column_faults; try nia.
Qed.

Lemma big_column_length : Z.of_nat (length big_column) = 2 ^ 31 + 8.
Proof. unfold big_column. rewrite repeat_length. apply Z2Nat.id. lia. Qed.

#[global] Opaque big_column.

(** C9, at [N = 1], [K = 2^32 + 16], [BlkLen = 16].  The stride is
    [2^31 + 8] and the buffers have that many bytes; the [int] chunk counter
    of the regroup path reaches [2^31 - 8] and its next increment overflows
    with a chunk of the column still to come, so the run never ends
    normally, whatever the fuel, while the loop of the transpose path counts
    the same chunks in a [size_t]. *)
Theorem Prepack_int_counter_overflows :
  Ldb_of (2 ^ 32 + 16) 16 = 2 ^ 31 + 8 /\
  BufferSize 1 (2 ^ 32 + 16) 16 = 2 ^ 31 + 8 /\
  (forall fuel,
     is_done (run_Prepack fuel (Ldb_of (2 ^ 32 + 16) 16) 1 big_column big_column)
     = false) /\
  run_Prepack (S int_chunks) (Ldb_of (2 ^ 32 + 16) 16) 1 big_column big_column
  = Undefined SignedOverflow.
Proof.
  assert (E : Ldb_of (2 ^ 32 + 16) 16 = 2 ^ 31 + 8) by reflexivity.
  split; [exact E|]. split; [reflexivity|]. rewrite E.
  pose proof big_column_length as HL. pose proof INT_MAX_eq. pose proof SIZE_MAX_eq.
  assert (P31 : 2 ^ 31 = 2147483648) by reflexivity.
  split.
  - intros fuel. unfold run_Prepack.
    pose proof (Prepack_stuck big_column (length big_column) fuel (2 ^ 31 + 8) 1
                  ltac:(lia) ltac:(lia) ltac:(lia) ltac:(lia) ltac:(lia)
                  big_column [] eq_refl) as Hs.
    destruct (Prepack fuel (2 ^ 31 + 8) 1 (mkState big_column big_column []))
      as [[] s | |]; auto.
    now contradiction (Hs tt s).
  - unfold run_Prepack.
    apply (Prepack_faults big_column (length big_column) (S int_chunks)
             (2 ^ 31 + 8) 1); auto; lia.
Qed.

(** *** Index safety *)

Lemma PrepackSlice_indices_small j i :
  0 <= j -> j + 8 <= SIZE_MAX -> 0 <= i < 8 ->
  j <= PrepackSlice_i0 j i < j + 4 /\
  j + 4 <= PrepackSlice_i1 j i < j + 8 /\
  PrepackSlice_j j i = j + i.
Proof.
  intros Hj Hmax Hi. pose proof SIZE_MAX_eq.
  unfold PrepackSlice_i0, PrepackSlice_i1, PrepackSlice_j.
  assert (H1 : 0 <= Z.shiftr i 1 < 4).
  { rewrite Z.shiftr_div_pow2 by lia. change (2 ^ 1) with 2.
    split; [apply Z.div_pos; lia | apply Z.div_lt_upper_bound; lia]. }
  assert (H2 : 4 <= Z.shiftr (8 + i) 1 < 8).
  { rewrite Z.shiftr_div_pow2 by lia. change (2 ^ 1) with 2.
    split; [apply Z.div_le_lower_bound; lia | apply Z.div_lt_upper_bound; lia]. }
  rewrite (sadd_small 8 i) by lia. rewrite !sadd_small by lia. lia.
Qed.

(** C10, as amended.  For [K >= 1] and a power-of-two [BlkLen >= 16] the
    computed stride is a multiple of 8, so the chunks of 8 bytes cover a
    column exactly.  When the stride is not 0, the buffers have [N * Ldb]
    bytes and the stride is within the range of the tail loop's [int]
    counter, a run ends normally with every index it reads or writes inside
    the buffers; each read of the transpose path is inside the byte range of
    its column [n + c] and each write inside the byte range of the tile's 8
    columns; each read and write of the regroup path is inside the byte range
    of its column. *)
Theorem Prepack_indices_in_range fuel N K BlkLen b input ref :
  1 <= N -> 1 <= K -> BlkLen = 2 ^ b -> 4 <= b < 64 ->
  1 <= Ldb_of K BlkLen ->
  Z.of_nat (length input) = N * Ldb_of K BlkLen ->
  Z.of_nat (length ref) = N * Ldb_of K BlkLen ->
  N * Ldb_of K BlkLen <= SIZE_MAX ->
  int_counter_ok (Ldb_of K BlkLen) N -> enough fuel (Ldb_of K BlkLen) N ->
  let Ldb := Ldb_of K BlkLen in
  Ldb mod 8 = 0 /\ 8 * Z.of_nat (chunks Ldb) = Ldb /\
  (exists s',
     run_Prepack fuel Ldb N input ref = Done tt s' /\
     (forall i, In (RdSrc i) (trace s') -> 0 <= i < N * Ldb) /\
     (forall j v, In (WrDst j v) (trace s') -> 0 <= j < N * Ldb)) /\
  (forall n k c r,
     0 <= n -> n + 8 <= N -> 0 <= k -> k + 8 <= Ldb ->
     0 <= c < 8 -> 0 <= r < 8 ->
     (n + c) * Ldb <= Transpose8x8_i Ldb n k c r < (n + c + 1) * Ldb /\
     n * Ldb <= Transpose8x8_j Ldb n k c r < (n + 8) * Ldb) /\
  (forall n k i,
     0 <= n < N -> 0 <= k -> k + 8 <= Ldb -> 0 <= i < 8 ->
     n * Ldb <= PrepackSlice_i0 (n * Ldb + k) i < (n + 1) * Ldb /\
     n * Ldb <= PrepackSlice_i1 (n * Ldb + k) i < (n + 1) * Ldb /\
     n * Ldb <= PrepackSlice_j (n * Ldb + k) i < (n + 1) * Ldb).
Proof.
  intros HN HK -> Hb HL HS Hd Hmax Hint Hf Ldb. fold Ldb in HL, HS, Hd, Hmax, Hint, Hf.
  assert (H8 : Ldb mod 8 = 0) by (apply Ldb_of_mod8; exact Hb).
  assert (Hok : sizes_ok Ldb N) by (split; auto).
  split; [exact H8|]. split; [apply chunks_eq; lia|]. split; [|split].
  - destruct (Prepack_writes_once fuel Ldb N input ref Hok Hint Hf HS Hd)
      as (s' & Hrun & _ & Hw & Hr).
    exists s'. split; [exact Hrun|]. split; [exact Hr|].
    intros j v Hj. apply In_writes in Hj.
    apply (Permutation_in _ Hw), in_zrange in Hj. nia.
  - intros n k c r Hn HnN Hk HkL Hc Hr.
    assert ((n + 8) * Ldb <= N * Ldb) by nia.
    rewrite Transpose8x8_i_small, Transpose8x8_j_small by lia. nia.
  - intros n k i Hn Hk HkL Hi.
    assert ((n + 1) * Ldb <= N * Ldb) by nia.
    assert (0 <= n * Ldb) by nia.
    pose proof (PrepackSlice_indices_small (n * Ldb + k) i
                  ltac:(lia) ltac:(lia) Hi) as (E0 & E1 & E2).
    rewrite E2. lia.
Qed.

Lemma Prepack_indices_in_range_witness :
  Ldb_of 33 16 mod 8 = 0 /\
  exists s',
    run_Prepack 9 (Ldb_of 33 16) 9 (repeat 7 216%nat) (repeat 0 216%nat)
    = Done tt s'.
Proof.
  destruct (Prepack_indices_in_range 9 9 33 16 4 (repeat 7 216%nat) (repeat 0 216%nat))
    as (H8 & _ & (s' & Hrun & _) & _);
    [ lia | lia | reflexivity | lia | vm_compute; discriminate | reflexivity
    | reflexivity | vm_compute; discriminate
    | right; vm_compute; discriminate
    | unfold enough; repeat split; reflexivity |].
  split; [exact H8 | exists s'; exact Hrun].
Defined.

(** C10 as stated fails for the writes of the transpose path: with
    [N = 8], [K = 16], [BlkLen = 16] (stride 8), the byte read at index 1 of
    column 0 is written at index 8, outside the byte range [0, 8) of
    column 0. *)
Lemma transpose_write_outside_column_counterexample :
  Ldb_of 16 16 = 8 /\
  Transpose8x8_i 8 0 0 0 1 = 1 /\
  Transpose8x8_j 8 0 0 0 1 = 8 /\
  ~ ((0 + 0) * 8 <= Transpose8x8_j 8 0 0 0 1 < (0 + 0 + 1) * 8) /\
  exists s',
    run_Prepack 9 (Ldb_of 16 16) 8 (zrange 0 64) (repeat 0 64%nat) = Done tt s' /\
    In (WrDst 8 1) (trace s').
Proof.
  split; [reflexivity|]. split; [reflexivity|]. split; [reflexivity|].
  split; [vm_compute; intros [_ H]; discriminate H|].
  eexists. split; [vm_compute; reflexivity|].
  vm_compute. intuition.
Qed.

(** *** The kernels go through the buffer element by element *)

Lemma firstn_plus {A} (a b : nat) (l : list A) :
  firstn (a + b) l = firstn a l ++ firstn b (skipn a l).
Proof.
  revert l. induction a as [|a IH]; intros l; simpl; auto.
  destruct l as [|x l]; simpl; [now rewrite firstn_nil | now rewrite IH].
Qed.

Lemma cast_scalar_tail_map conv src count :
  cast_scalar_tail conv src count = map conv (firstn count src).
Proof.
  revert src. induction count as [|c IH]; intros [|x src]; simpl; auto.
  now rewrite IH.
Qed.

Lemma nth_map_firstn conv (src : list Z) (count i : nat) :
  (count <= length src)%nat -> (i < count)%nat ->
  nth i (map conv (firstn count src)) 0 = conv (nth i src 0).
Proof.
  intros Hc Hi.
  rewrite <- (firstn_skipn count src) at 2.
  rewrite (nth_indep _ 0 (conv 0)) by (rewrite length_map, length_firstn; lia).
  rewrite map_nth, app_nth1 by (rewrite length_firstn; lia). reflexivity.
Qed.

Lemma cast_kernel_length vec scalar fuel : forall src count,
  (count < fuel)%nat -> (count <= length src)%nat ->
  length (cast_kernel fuel vec scalar src count) = count.
Proof.
  induction fuel as [|fuel IH]; intros src count Hf Hc; [lia|].
  cbn [cast_kernel].
  destruct (Nat.leb_spec vector_width count) as [Hv | Hv].
  - unfold cast_vector. rewrite length_app, length_map, length_firstn.
    rewrite IH by (try rewrite length_skipn; unfold vector_width in *; lia).
    unfold vector_width in *. lia.
  - rewrite cast_scalar_tail_map, length_map, length_firstn. lia.
Qed.

(** Every output is the conversion of its input, by the vector path or by
    the scalar tail. *)
Lemma cast_kernel_nth vec scalar fuel : forall src count i,
  (count < fuel)%nat -> (count <= length src)%nat -> (i < count)%nat ->
  nth i (cast_kernel fuel vec scalar src count) 0 = vec (nth i src 0) \/
  nth i (cast_kernel fuel vec scalar src count) 0 = scalar (nth i src 0).
Proof.
  induction fuel as [|fuel IH]; intros src count i Hf Hc Hi; [lia|].
  cbn [cast_kernel].
  destruct (Nat.leb_spec vector_width count) as [Hv | Hv].
  - unfold cast_vector.
    assert (Hl : length (map vec (firstn vector_width src)) = vector_width)
      by (rewrite length_map, length_firstn; lia).
    destruct (Nat.lt_ge_cases i vector_width) as [Hlt | Hge].
    + left. rewrite app_nth1 by lia. apply nth_map_firstn; lia.
    + rewrite app_nth2, Hl by lia.
      replace (nth i src 0) with (nth (i - vector_width) (skipn vector_width src) 0).
      * apply IH; try rewrite length_skipn; unfold vector_width in *; lia.
      * rewrite <- (firstn_skipn vector_width src) at 2.
        rewrite app_nth2; rewrite length_firstn; [f_equal|]; lia.
  - right. rewrite cast_scalar_tail_map. apply nth_map_firstn; lia.
Qed.

Lemma widen_lanes_agree p :
  F16_isnan p = false -> widen_vector p = widen_scalar p.
Proof.
  unfold F16_isnan, widen_vector, widen_scalar, widen_lane. intros H.
  destruct (F16_exp p =? 31); [|reflexivity].
  destruct (F16_frac p =? 0); [reflexivity | discriminate].
Qed.

Lemma narrow_lanes_agree x :
  F32_isnan x = false -> narrow_vector x = narrow_scalar x.
Proof.
  unfold F32_isnan, narrow_vector, narrow_scalar, narrow_lane. intros H.
  destruct (F32_exp x =? 255); [|reflexivity].
  destruct (F32_frac x =? 0); [reflexivity | discriminate].
Qed.

Lemma cast_kernel_nth_agree vec scalar (src : list Z) (count i : nat) :
  (count <= length src)%nat -> (i < count)%nat ->
  vec (nth i src 0) = scalar (nth i src 0) ->
  nth i (cast_kernel (S count) vec scalar src count) 0 = scalar (nth i src 0).
Proof.
  intros Hc Hi E.
  destruct (cast_kernel_nth vec scalar (S count) src count i) as [H | H];
    try lia; rewrite H; auto.
Qed.

Lemma all_from_spec (f : Z -> bool) (n : nat) : forall a,
  all_from f n a = true ->
  forall p, a <= p < a + Z.of_nat n -> f p = true.
Proof.
  induction n as [|n IH]; intros a H p Hp; [lia|].
  cbn [all_from] in H. apply andb_prop in H as [H1 H2].
  destruct (Z.eq_dec p a) as [-> | Hne]; [exact H1|].
  apply (IH (a + 1)); auto. lia.
Qed.

Lemma widen_exact_all : forall p, 0 <= p < 65536 -> widen_exact_at p = true.
Proof.
  intros p Hp.
  apply (all_from_spec widen_exact_at (Z.to_nat 65536) 0);
    [vm_compute; reflexivity | lia].
Qed.

Lemma widen_exact p :
  0 <= p < 65536 -> F16_finite p = true ->
  F32_scaled (widen_vector p) = F16_scaled p /\
  F32_sign (widen_vector p) = F16_sign p /\
  F32_finite (widen_vector p) = true /\
  widen_scalar p = widen_vector p /\ F16_isnan p = false.
Proof.
  intros Hp Hf. pose proof (widen_exact_all p Hp) as H.
  unfold widen_exact_at in H. rewrite Hf in H. cbn [implb] in H.
  repeat (apply andb_prop in H as [H ?]).
  repeat split; try (now apply Z.eqb_eq); auto.
  now apply negb_true_iff.
Qed.

(** The class of a pattern that is not finite is kept, on either path. *)
Lemma widen_class p :
  0 <= p < 65536 -> F16_finite p = false ->
  if F16_isnan p
  then F32_isnan (widen_vector p) = true /\ F32_isnan (widen_scalar p) = true
  else widen_vector p = Z.shiftl (F16_sign p) 31 + 2139095040 /\
       widen_scalar p = Z.shiftl (F16_sign p) 31 + 2139095040.
Proof.
  intros Hp Hf.
  assert (H : widen_class_at p = true).
  { apply (all_from_spec widen_class_at (Z.to_nat 65536) 0);
      [vm_compute; reflexivity | lia]. }
  unfold widen_class_at in H. rewrite Hf in H. cbn [orb] in H.
  destruct (F16_isnan p); apply andb_prop in H as [H1 H2];
    split; auto; now apply Z.eqb_eq.
Qed.

(** C5. For every 16-bit pattern with [(p & 0x7C00) != 0x7C00], at any place
    of a buffer, [WidenToFull] yields a finite 32-bit pattern whose value is
    exactly the value of the 16-bit pattern (zero and subnormal patterns
    too, the sign of a zero kept). *)
Theorem WidenToFull_exact (src : list Z) (count i : nat) :
  (count <= length src)%nat -> (i < count)%nat ->
  0 <= nth i src 0 < 65536 -> F16_finite (nth i src 0) = true ->
  F32_finite (nth i (WidenToFull src count) 0) = true /\
  F32_sign (nth i (WidenToFull src count) 0) = F16_sign (nth i src 0) /\
  Qeq (F32_value (nth i (WidenToFull src count) 0)) (F16_value (nth i src 0)).
Proof.
  intros Hc Hi Hp Hf.
  destruct (widen_exact _ Hp Hf) as (Hv & Hs & Hfin & Heq & Hn).
  unfold WidenToFull. rewrite cast_kernel_nth_agree by auto.
  rewrite Heq. split; [exact Hfin|]. split; [exact Hs|].
  unfold F32_value, F16_value. rewrite Hv, Hs. reflexivity.
Qed.

Lemma WidenToFull_exact_witness :
  Qeq (F32_value (nth 1 (WidenToFull [15360; 1; 31743] 3) 0)) (F16_value 1).
Proof.
  destruct (WidenToFull_exact [15360; 1; 31743] 3 1) as (_ & _ & H);
    [simpl; lia | lia | simpl; lia | reflexivity |].
  exact H.
Defined.

Lemma F16_fields e m :
  0 <= e < 32 -> 0 <= m < 1024 ->
  F16_exp (e * 1024 + m) = e /\ F16_frac (e * 1024 + m) = m.
Proof.
  intros He Hm. unfold F16_exp, F16_frac.
  change 31 with (Z.ones 5). change 1023 with (Z.ones 10).
  rewrite !Z.land_ones, Z.shiftr_div_pow2 by lia.
  change (2 ^ 10) with 1024. change (2 ^ 5) with 32.
  rewrite Z.div_add_l, Z.div_small, Z.add_0_r by lia.
  rewrite Z.mod_small by lia. split; auto.
  rewrite Z.add_comm, Z.mod_add by lia. apply Z.mod_small. lia.
Qed.

Lemma F16_scaled_fields e m :
  0 <= e < 32 -> 0 <= m < 1024 ->
  F16_scaled (e * 1024 + m)
  = if e =? 0 then m * 2 ^ 125 else (1024 + m) * 2 ^ (e + 124).
Proof.
  intros He Hm. unfold F16_scaled.
  destruct (F16_fields e m He Hm) as [-> ->].
  destruct (Z.eqb_spec e 0).
  - now rewrite Z.shiftl_mul_pow2 by lia.
  - rewrite Z.shiftl_mul_pow2 by lia. do 2 f_equal. lia.
Qed.

(** In the binade [B] the magnitudes are the multiples [q * 2^(125+B)]. *)
Lemma F16_scaled_binade B q :
  0 <= B <= 29 -> 0 <= q <= 2048 -> B = 0 \/ 1024 <= q ->
  F16_scaled (B * 1024 + q) = q * 2 ^ (125 + B).
Proof.
  intros HB Hq HBq.
  destruct (Z.lt_ge_cases q 1024) as [Hlt | Hge].
  - destruct HBq as [-> | ?]; [|lia].
    rewrite (F16_scaled_fields 0 q) by lia. reflexivity.
  - destruct (Z.eq_dec q 2048) as [-> | Hne].
    + replace (B * 1024 + 2048) with ((B + 2) * 1024 + 0) by lia.
      rewrite F16_scaled_fields by lia.
      destruct (Z.eqb_spec (B + 2) 0); [lia|].
      assert (HP : 2 ^ (B + 2 + 124) = 2 * 2 ^ (125 + B)).
      { replace (B + 2 + 124) with (1 + (125 + B)) by lia.
        now rewrite Z.pow_add_r by lia. }
      rewrite HP. lia.
    + replace (B * 1024 + q) with ((B + 1) * 1024 + (q - 1024)) by lia.
      rewrite F16_scaled_fields by lia.
      destruct (Z.eqb_spec (B + 1) 0); [lia|].
      replace (B + 1 + 124) with (125 + B) by lia. f_equal. lia.
Qed.

Lemma F16_scaled_step h : 0 <= h < 31744 -> F16_scaled h < F16_scaled (h + 1).
Proof.
  intros Hh.
  pose proof (Z.div_mod h 1024 ltac:(lia)) as E.
  pose proof (Z.mod_pos_bound h 1024 ltac:(lia)) as Bm.
  assert (He : 0 <= h / 1024 < 31).
  { split; [apply Z.div_pos; lia | apply Z.div_lt_upper_bound; lia]. }
  set (e := h / 1024) in *. set (m := h mod 1024) in *.
  replace h with (e * 1024 + m) by lia.
  rewrite (F16_scaled_fields e m) by lia.
  destruct (Z.eq_dec m 1023) as [Hm | Hm].
  - replace (e * 1024 + m + 1) with ((e + 1) * 1024 + 0) by lia.
    rewrite F16_scaled_fields by lia.
    destruct (Z.eqb_spec (e + 1) 0); [lia|].
    assert (0 < 2 ^ 125) by (apply Z.pow_pos_nonneg; lia).
    destruct (Z.eqb_spec e 0) as [-> | Hne].
    + change (0 + 1 + 124) with 125. lia.
    + assert (HP : 2 ^ (e + 1 + 124) = 2 * 2 ^ (e + 124)).
      { replace (e + 1 + 124) with (1 + (e + 124)) by lia.
        now rewrite Z.pow_add_r by lia. }
      rewrite HP.
      assert (0 < 2 ^ (e + 124)) by (apply Z.pow_pos_nonneg; lia). nia.
  - replace (e * 1024 + m + 1) with (e * 1024 + (m + 1)) by lia.
    rewrite F16_scaled_fields by lia.
    destruct (Z.eqb_spec e 0).
    + assert (0 < 2 ^ 125) by (apply Z.pow_pos_nonneg; lia). nia.
    + assert (0 < 2 ^ (e + 124)) by (apply Z.pow_pos_nonneg; lia). nia.
Qed.

Lemma F16_scaled_mono h h' :
  0 <= h -> h < h' -> h' <= 31744 -> F16_scaled h < F16_scaled h'.
Proof.
  intros H0 Hlt Hmax.
  replace h' with (h + 1 + Z.of_nat (Z.to_nat (h' - h - 1))) by lia.
  assert (Hb : h + 1 + Z.of_nat (Z.to_nat (h' - h - 1)) <= 31744) by lia.
  revert Hb. generalize (Z.to_nat (h' - h - 1)). intros n.
  induction n as [|n IH]; intros Hb.
  - rewrite Z.add_0_r. apply F16_scaled_step. lia.
  - eapply Z.lt_trans; [apply IH; lia|].
    replace (h + 1 + Z.of_nat (S n)) with (h + 1 + Z.of_nat n + 1) by lia.
    apply F16_scaled_step. lia.
Qed.

Lemma F16_scaled_inj_le h h' :
  0 <= h <= 31744 -> 0 <= h' <= 31744 ->
  F16_scaled h = F16_scaled h' -> h = h'.
Proof.
  intros Hh Hh' E.
  destruct (Z.lt_trichotomy h h') as [Hlt | [-> | Hgt]]; auto.
  - pose proof (F16_scaled_mono h h'). lia.
  - pose proof (F16_scaled_mono h' h). lia.
Qed.

Lemma F16_scaled_mono_le h h' :
  0 <= h -> h <= h' -> h' <= 31744 -> F16_scaled h <= F16_scaled h'.
Proof.
  intros H0 Hle Hmax. destruct (Z.eq_dec h h') as [-> | Hne]; [lia|].
  pose proof (F16_scaled_mono h h'). lia.
Qed.

(** Between two neighbours the nearer one is nearest, the even one at a tie. *)
Lemma nearest_from_bracket V h0 h :
  0 <= h0 < 31744 ->
  F16_scaled h0 <= V < F16_scaled (h0 + 1) ->
  (h = h0 /\
   (V - F16_scaled h0 < F16_scaled (h0 + 1) - V \/
    (V - F16_scaled h0 = F16_scaled (h0 + 1) - V /\ Z.even h0 = true))) \/
  (h = h0 + 1 /\
   (F16_scaled (h0 + 1) - V < V - F16_scaled h0 \/
    (V - F16_scaled h0 = F16_scaled (h0 + 1) - V /\ Z.even h0 = false))) ->
  nearest_even V h.
Proof.
  intros Hh0 HV Hsel.
  assert (Hlow : forall h', 0 <= h' <= h0 -> F16_scaled h' <= F16_scaled h0)
    by (intros; apply F16_scaled_mono_le; lia).
  assert (Hlow' : forall h', 0 <= h' < h0 -> F16_scaled h' < F16_scaled h0)
    by (intros; apply F16_scaled_mono; lia).
  assert (Hup : forall h', h0 + 1 <= h' <= 31744 ->
                           F16_scaled (h0 + 1) <= F16_scaled h')
    by (intros; apply F16_scaled_mono_le; lia).
  assert (Hup' : forall h', h0 + 1 < h' <= 31744 ->
                            F16_scaled (h0 + 1) < F16_scaled h')
    by (intros; apply F16_scaled_mono; lia).
  destruct Hsel as [[-> Hd] | [-> Hd]]; (split; [lia|]; split).
  - intros h' Hh'. destruct (Z.le_gt_cases h' h0).
    + specialize (Hlow h' ltac:(lia)). lia.
    + specialize (Hup h' ltac:(lia)). lia.
  - intros h' Hh' Hne Heq. destruct (Z.le_gt_cases h' h0).
    + specialize (Hlow' h' ltac:(lia)). lia.
    + specialize (Hup h' ltac:(lia)). destruct Hd as [Hd | [_ He]]; [lia | exact He].
  - intros h' Hh'. destruct (Z.le_gt_cases h' h0).
    + specialize (Hlow h' ltac:(lia)). lia.
    + specialize (Hup h' ltac:(lia)). lia.
  - intros h' Hh' Hne Heq. destruct (Z.le_gt_cases h' h0).
    + specialize (Hlow h' ltac:(lia)). destruct Hd as [Hd | [_ He]]; [lia|].
      replace (h0 + 1) with (Z.succ h0) by lia.
      rewrite Z.even_succ, <- Z.negb_even, He. reflexivity.
    + specialize (Hup' h' ltac:(lia)). lia.
Qed.

Lemma nearest_even_unique_lt V h h' :
  nearest_even V h -> nearest_even V h' -> h < h' -> False.
Proof.
  intros (Hh & Hmin & Htie) (Hh' & Hmin' & Htie') Hlt.
  assert (Heq : Z.abs (F16_scaled h' - V) = Z.abs (F16_scaled h - V)).
  { pose proof (Hmin h' Hh'). pose proof (Hmin' h Hh). lia. }
  pose proof (Htie h' Hh' ltac:(lia) Heq) as Ev.
  pose proof (Htie' h Hh ltac:(lia) (eq_sym Heq)) as Ev'.
  pose proof (F16_scaled_mono h h' ltac:(lia) Hlt ltac:(lia)) as Hm.
  destruct (Z.eq_dec h' (h + 1)) as [-> | Hne].
  - replace (h + 1) with (Z.succ h) in Ev' by lia.
    rewrite Z.even_succ, <- Z.negb_even, Ev in Ev'. discriminate.
  - pose proof (F16_scaled_mono h (h + 1) ltac:(lia) ltac:(lia) ltac:(lia)).
    pose proof (F16_scaled_mono (h + 1) h' ltac:(lia) ltac:(lia) ltac:(lia)).
    pose proof (Hmin (h + 1) ltac:(lia)). lia.
Qed.

Lemma nearest_even_unique V h h' :
  nearest_even V h -> nearest_even V h' -> h = h'.
Proof.
  intros H H'. destruct (Z.lt_trichotomy h h') as [Hlt | [-> | Hgt]]; auto.
  - now destruct (nearest_even_unique_lt V h h').
  - now destruct (nearest_even_unique_lt V h' h).
Qed.

Lemma round_shift_spec M k :
  0 <= M -> 1 <= k ->
  round_shift M k
  = if (2 ^ (k - 1) <? M mod 2 ^ k)
       || ((M mod 2 ^ k =? 2 ^ (k - 1)) && Z.odd (M / 2 ^ k))
    then M / 2 ^ k + 1 else M / 2 ^ k.
Proof.
  intros HM Hk. unfold round_shift.
  rewrite Z.shiftr_div_pow2, Z.land_ones, Z.shiftl_1_l by lia. reflexivity.
Qed.

(** [M * W] between two multiples of [U = 2^k * W]. *)
Lemma shift_bracket M k W :
  0 <= M -> 1 <= k -> 0 < W ->
  let q0 := M / 2 ^ k in
  let r := M mod 2 ^ k in
  0 <= r < 2 ^ k /\ 2 ^ k = 2 * 2 ^ (k - 1) /\ 0 <= q0 /\
  M * W - q0 * (2 ^ k * W) = r * W /\
  (q0 + 1) * (2 ^ k * W) - M * W = (2 ^ k - r) * W.
Proof.
  intros HM Hk HW q0 r.
  assert (HP : 0 < 2 ^ k) by (apply Z.pow_pos_nonneg; lia).
  pose proof (Z.div_mod M (2 ^ k) ltac:(lia)) as E.
  pose proof (Z.mod_pos_bound M (2 ^ k) HP) as Br.
  fold q0 in E. fold r in E, Br.
  split; [exact Br|]. split.
  - replace k with (1 + (k - 1)) at 1 by lia. now rewrite Z.pow_add_r by lia.
  - split; [apply Z.div_pos; lia|]. split; nia.
Qed.

Lemma binade_round_nearest B k M W :
  0 <= B <= 29 -> 1 <= k -> 0 <= M -> 0 < W ->
  2 ^ k * W = 2 ^ (125 + B) ->
  M / 2 ^ k <= 2047 -> B = 0 \/ 1024 <= M / 2 ^ k ->
  nearest_even (M * W) (B * 1024 + round_shift M k).
Proof.
  intros HB Hk HM HW HU Hq HBq.
  destruct (shift_bracket M k W HM Hk HW) as (Br & Hhalf & Hq0 & Hd0 & Hd1).
  set (q0 := M / 2 ^ k) in *. set (r := M mod 2 ^ k) in *.
  assert (Ha : F16_scaled (B * 1024 + q0) = q0 * (2 ^ k * W))
    by (rewrite HU; apply F16_scaled_binade; lia).
  assert (Hb : F16_scaled (B * 1024 + q0 + 1) = (q0 + 1) * (2 ^ k * W)).
  { rewrite HU. replace (B * 1024 + q0 + 1) with (B * 1024 + (q0 + 1)) by lia.
    apply F16_scaled_binade; lia. }
  assert (Hev : Z.even (B * 1024 + q0) = Z.even q0).
  { replace (B * 1024 + q0) with (q0 + 2 * (512 * B)) by lia.
    apply Z.even_add_mul_2. }
  apply (nearest_from_bracket (M * W) (B * 1024 + q0)); [lia | nia |].
  rewrite Ha, Hb, Hd0, Hd1, Hev, round_shift_spec by lia.
  fold q0. fold r.
  destruct (Z.ltb_spec (2 ^ (k - 1)) r) as [Hgt | Hle]; cbn [orb].
  - right. split; [lia|]. left. nia.
  - destruct (Z.eqb_spec r (2 ^ (k - 1))) as [Heq | Hne]; cbn [andb].
    + destruct (Z.odd q0) eqn:Hodd.
      * right. split; [lia|]. right. split; [nia|].
        now rewrite <- Z.negb_odd, Hodd.
      * left. split; [lia|]. right. split; [nia|].
        now rewrite <- Z.negb_odd, Hodd.
    + left. split; [lia|]. left. nia.
Qed.

Lemma F32_fields_range x :
  0 <= F32_exp x <= 255 /\ 0 <= F32_frac x < 8388608.
Proof.
  assert (E1 : F32_exp x = Z.shiftr x 23 mod 2 ^ 8)
    by (unfold F32_exp; change 255 with (Z.ones 8); apply Z.land_ones; lia).
  assert (E2 : F32_frac x = x mod 2 ^ 23)
    by (unfold F32_frac; change 8388607 with (Z.ones 23); apply Z.land_ones; lia).
  rewrite E1, E2.
  pose proof (Z.mod_pos_bound (Z.shiftr x 23) (2 ^ 8) ltac:(lia)).
  pose proof (Z.mod_pos_bound x (2 ^ 23) ltac:(lia)).
  change (2 ^ 8) with 256 in *. change (2 ^ 23) with 8388608 in *. lia.
Qed.

Lemma pow2_split a b : 0 <= a -> 0 <= b -> 2 ^ a * 2 ^ b = 2 ^ (a + b).
Proof. intros. now rewrite Z.pow_add_r. Qed.

(** The magnitude [narrow_mag] gives a finite pattern is the nearest one. *)
Lemma narrow_mag_nearest x :
  F32_finite x = true -> nearest_even (F32_scaled x) (narrow_mag x).
Proof.
  intros Hfin. unfold F32_finite in Hfin.
  destruct (F32_fields_range x) as [HE HF].
  unfold narrow_mag, F32_scaled.
  set (E := F32_exp x) in *. set (F := F32_frac x) in *.
  destruct (Z.eqb_spec E 255) as [|H255]; [discriminate|]. clear Hfin.
  destruct (Z.leb_spec 143 E) as [Hov | Hnov].
  - (* overflow: at least 2^16 *)
    destruct (Z.eqb_spec E 0); [lia|].
    rewrite Z.shiftl_mul_pow2 by lia.
    assert (Htop : F16_scaled 31744 = 2 ^ 23 * 2 ^ 142) by reflexivity.
    assert (HV : F16_scaled 31744 <= (8388608 + F) * 2 ^ (E - 1)).
    { rewrite Htop. change (2 ^ 23) with 8388608.
      apply Z.mul_le_mono_nonneg; [lia | lia | apply Z.pow_nonneg; lia |].
      apply Z.pow_le_mono_r; lia. }
    split; [lia|]. split.
    + intros h' Hh'.
      pose proof (F16_scaled_mono_le h' 31744 ltac:(lia) ltac:(lia) ltac:(lia)). lia.
    + intros h' Hh' Hne Heq.
      pose proof (F16_scaled_mono h' 31744 ltac:(lia) ltac:(lia) ltac:(lia)). lia.
  - destruct (Z.ltb_spec E 113) as [Hsub | Hnorm].
    + (* result below 2^-14: fixed ulp 2^-24 *)
      change (round_shift (if E =? 0 then F else 8388608 + F) (126 - Z.max E 1))
        with (0 * 1024 + round_shift (if E =? 0 then F else 8388608 + F)
                                     (126 - Z.max E 1)).
      set (k := 126 - Z.max E 1).
      set (M := if E =? 0 then F else 8388608 + F).
      assert (HM : 0 <= M < 2 ^ 24).
      { unfold M. change (2 ^ 24) with 16777216. destruct (E =? 0); lia. }
      assert (Hk : 14 <= k <= 125) by (unfold k; lia).
      assert (HV : (if E =? 0 then F else Z.shiftl (8388608 + F) (E - 1))
                   = M * 2 ^ (125 - k)).
      { unfold M, k. destruct (Z.eqb_spec E 0) as [-> | HE0].
        - change (125 - (126 - Z.max 0 1)) with 0. lia.
        - rewrite Z.shiftl_mul_pow2 by lia. do 2 f_equal. lia. }
      rewrite HV.
      assert (Hq : M / 2 ^ k < 1024).
      { apply Z.div_lt_upper_bound; [apply Z.pow_pos_nonneg; lia|].
        assert (2 ^ 14 <= 2 ^ k) by (apply Z.pow_le_mono_r; lia).
        change (2 ^ 24) with (1024 * 2 ^ 14) in HM. nia. }
      apply binade_round_nearest;
        [lia | lia | lia | apply Z.pow_pos_nonneg; lia | | lia | lia].
      rewrite pow2_split by lia. f_equal. lia.
    + (* normal result: 13 bits rounded away *)
      destruct (Z.eqb_spec E 0); [lia|].
      rewrite !Z.shiftl_mul_pow2 by lia. change (2 ^ 10) with 1024.
      assert (Hq : 1024 <= (8388608 + F) / 2 ^ 13 <= 2047).
      { change (2 ^ 13) with 8192. split.
        - apply Z.div_le_lower_bound; lia.
        - assert ((8388608 + F) / 8192 < 2048); [|lia].
          apply Z.div_lt_upper_bound; lia. }
      apply binade_round_nearest;
        [lia | lia | lia | apply Z.pow_pos_nonneg; lia | | lia | lia].
      rewrite pow2_split by lia. f_equal. lia.
Qed.

Lemma narrow_lane_finite b x :
  F32_finite x = true ->
  narrow_lane b x = Z.shiftl (F32_sign x) 15 + narrow_mag x.
Proof.
  unfold F32_finite, narrow_lane. intros H.
  destruct (F32_exp x =? 255); [discriminate | reflexivity].
Qed.

(** On a finite pattern either path returns the round-to-nearest result, and
    nothing else is one. *)
Lemma narrow_lane_round_to_nearest b x y :
  F32_finite x = true -> (round_to_nearest x y <-> y = narrow_lane b x).
Proof.
  intros Hfin. rewrite (narrow_lane_finite b x Hfin).
  pose proof (narrow_mag_nearest x Hfin) as Hn. split.
  - intros (h & -> & Hh). f_equal. exact (nearest_even_unique _ _ _ Hh Hn).
  - intros ->. exists (narrow_mag x). split; auto.
Qed.

Lemma F16_finite_exp p : F16_finite p = negb (F16_exp p =? 31).
Proof.
  unfold F16_finite, F16_exp. f_equal.
  assert (E : Z.land p 31744 = Z.shiftl (Z.land (Z.shiftr p 10) 31) 10).
  { change 31744 with (Z.shiftl 31 10). apply Z.bits_inj'. intros n Hn.
    rewrite Z.land_spec, !Z.shiftl_spec, Z.land_spec by lia.
    destruct (Z.lt_ge_cases n 10).
    - rewrite (Z.testbit_neg_r 31) by lia. now rewrite !andb_false_r.
    - rewrite Z.shiftr_spec by lia. now replace (n - 10 + 10) with n by lia. }
  rewrite E, Z.shiftl_mul_pow2 by lia. change (2 ^ 10) with 1024.
  destruct (Z.eqb_spec (Z.land (Z.shiftr p 10) 31 * 1024) 31744);
    destruct (Z.eqb_spec (Z.land (Z.shiftr p 10) 31) 31); auto; lia.
Qed.

Lemma F16_fields_signed s e m :
  0 <= s < 2 -> 0 <= e < 32 -> 0 <= m < 1024 ->
  F16_sign (s * 32768 + e * 1024 + m) = s /\
  F16_exp (s * 32768 + e * 1024 + m) = e /\
  F16_frac (s * 32768 + e * 1024 + m) = m.
Proof.
  intros Hs He Hm. unfold F16_sign, F16_exp, F16_frac.
  change 1 with (Z.ones 1). change 31 with (Z.ones 5).
  change 1023 with (Z.ones 10).
  rewrite !Z.land_ones, !Z.shiftr_div_pow2 by lia.
  change (2 ^ 15) with 32768. change (2 ^ 10) with 1024.
  change (2 ^ 5) with 32. change (2 ^ 1) with 2.
  rewrite <- (Z.div_unique_pos (s * 32768 + e * 1024 + m) 32768 s (e * 1024 + m))
    by lia.
  rewrite <- (Z.div_unique_pos (s * 32768 + e * 1024 + m) 1024 (s * 32 + e) m)
    by lia.
  rewrite <- (Z.mod_unique_pos (s * 32768 + e * 1024 + m) 1024 (s * 32 + e) m)
    by lia.
  rewrite <- (Z.mod_unique_pos (s * 32 + e) 32 s e) by lia.
  rewrite Z.mod_small by lia. auto.
Qed.

(** The class and the sign of a pattern that is not finite are kept, on
    either path: infinity is narrowed to infinity, a NaN to a NaN. *)
Lemma narrow_class b x :
  F32_finite x = false ->
  F16_finite (narrow_lane b x) = false /\
  F16_sign (narrow_lane b x) = F32_sign x /\
  F16_isnan (narrow_lane b x) = F32_isnan x.
Proof.
  intros Hf. unfold F32_finite in Hf. apply negb_false_iff in Hf.
  assert (Hs : 0 <= F32_sign x < 2).
  { unfold F32_sign. change 1 with (Z.ones 1). rewrite Z.land_ones by lia.
    change (2 ^ 1) with 2. apply Z.mod_pos_bound. lia. }
  assert (H : exists m, narrow_lane b x = F32_sign x * 32768 + 31 * 1024 + m /\
                        0 <= m < 1024 /\ (m =? 0) = (F32_frac x =? 0)).
  { unfold narrow_lane. rewrite Hf, Z.shiftl_mul_pow2 by lia.
    change (2 ^ 15) with 32768.
    destruct (F32_frac x =? 0) eqn:E.
    - exists 0. split; [lia|]. split; [lia | reflexivity].
    - destruct b.
      + exists (512 + Z.shiftr (Z.land (F32_frac x) 4194303) 13).
        change 4194303 with (Z.ones 22).
        rewrite Z.land_ones, Z.shiftr_div_pow2 by lia.
        pose proof (Z.mod_pos_bound (F32_frac x) (2 ^ 22) ltac:(lia)) as Hb.
        assert (0 <= F32_frac x mod 2 ^ 22 / 2 ^ 13 < 512).
        { split; [apply Z.div_pos; lia|].
          apply Z.div_lt_upper_bound; [lia|].
          change (2 ^ 13 * 512) with (2 ^ 22). lia. }
        split; [lia|]. split; [lia|].
        destruct (Z.eqb_spec (512 + F32_frac x mod 2 ^ 22 / 2 ^ 13) 0); [lia | auto].
      + exists 512. split; [lia|]. split; [lia | reflexivity]. }
  destruct H as (m & -> & Hm & Hz).
  destruct (F16_fields_signed (F32_sign x) 31 m) as (S1 & E1 & F1); try lia.
  rewrite F16_finite_exp. unfold F16_isnan, F32_isnan.
  rewrite S1, E1, F1, Hf, Hz. auto.
Qed.

Lemma NarrowToHalf_nth_finite (src : list Z) (count i : nat) :
  (count <= length src)%nat -> (i < count)%nat ->
  F32_finite (nth i src 0) = true ->
  nth i (NarrowToHalf src count) 0 = narrow_scalar (nth i src 0).
Proof.
  intros Hc Hi Hfin. unfold NarrowToHalf. apply cast_kernel_nth_agree; auto.
  unfold narrow_vector, narrow_scalar. now rewrite !narrow_lane_finite.
Qed.

Lemma sweep_ok_all : forall i, 0 <= i < 65536 -> sweep_ok_at i = true.
Proof.
  intros i Hi.
  apply (all_from_spec sweep_ok_at (Z.to_nat 65536) 0);
    [vm_compute; reflexivity | lia].
Qed.

(** The swept inputs are the finite patterns of [i + 1/8]. *)
Lemma TestFp32ToFp16_src_value i :
  0 <= i < 65536 ->
  F32_finite (TestFp32ToFp16_src i) = true /\
  Qeq (F32_value (TestFp32ToFp16_src i)) (Qmake (8 * i + 1) 8).
Proof.
  intros Hi. pose proof (sweep_ok_all i Hi) as H. unfold sweep_ok_at in H.
  apply andb_prop in H as [H H3]. apply andb_prop in H as [H1 H2].
  apply Z.eqb_eq in H2, H3. split; [exact H1|].
  unfold F32_value. rewrite H2, H3. cbn [signed Z.eqb].
  unfold Qeq. cbn [Qnum Qden]. rewrite Z.shiftl_mul_pow2 by lia.
  change (Z.pos (2 ^ 149)) with (2 ^ 146 * 8). change (Z.pos 8) with 8. lia.
Qed.

(** C6. For every finite 32-bit pattern, at any place of a buffer, the
    16-bit pattern [NarrowToHalf] produces is the one a round-to-nearest
    conversion returns, bit for bit: [y] is a round-to-nearest result exactly
    when it is the output.  The swept inputs [i + 0.125], [i] in
    [0, 65536), are finite patterns, so this holds on the buffer of the
    test. *)
Theorem NarrowToHalf_matches_reference (src : list Z) (count i : nat) (y : Z) :
  (count <= length src)%nat -> (i < count)%nat ->
  F32_finite (nth i src 0) = true ->
  (round_to_nearest (nth i src 0) y <-> y = nth i (NarrowToHalf src count) 0) /\
  (forall n j z, (n <= sweep)%nat -> (j < n)%nat ->
     (round_to_nearest (nth j (TestFp32ToFp16_inputs n) 0) z
      <-> z = nth j (NarrowToHalf (TestFp32ToFp16_inputs n) n) 0)).
Proof.
  intros Hc Hi Hfin. split.
  - rewrite NarrowToHalf_nth_finite by auto.
    now apply narrow_lane_round_to_nearest.
  - intros n j z Hn Hj.
    assert (Hlen : length (TestFp32ToFp16_inputs n) = n)
      by (unfold TestFp32ToFp16_inputs; now rewrite length_map, length_seq).
    assert (Hfin' : F32_finite (nth j (TestFp32ToFp16_inputs n) 0) = true).
    { unfold TestFp32ToFp16_inputs.
      rewrite (nth_indep _ 0 (TestFp32ToFp16_src (Z.of_nat 0)))
        by (rewrite length_map, length_seq; lia).
      rewrite (map_nth (fun i => TestFp32ToFp16_src (Z.of_nat i))), seq_nth by lia.
      apply TestFp32ToFp16_src_value. unfold sweep in Hn. lia. }
    rewrite NarrowToHalf_nth_finite by (auto; lia).
    now apply narrow_lane_round_to_nearest.
Qed.

Lemma NarrowToHalf_matches_reference_witness :
  round_to_nearest 1066401792 15488.
Proof.
  destruct (NarrowToHalf_matches_reference [1065353216; 1066401792] 2 1 15488)
    as [H _]; [simpl; lia | lia | reflexivity |].
  apply H. reflexivity.
Defined.

(** The check of [TestFp32ToFp16] holds of [NarrowToHalf] against every
    reference that rounds to nearest. *)
Lemma TestFp32ToFp16_passes (reference : Z -> Z) (count : nat) :
  (forall x, F32_finite x = true -> round_to_nearest x (reference x)) ->
  (count <= sweep)%nat ->
  TestFp32ToFp16 NarrowToHalf reference count = true.
Proof.
  intros Href Hc. unfold TestFp32ToFp16. apply forallb_forall.
  intros j Hj. apply in_seq in Hj. apply Z.eqb_eq. symmetry.
  assert (Hlen : length (TestFp32ToFp16_inputs count) = count)
    by (unfold TestFp32ToFp16_inputs; now rewrite length_map, length_seq).
  assert (Hfin : F32_finite (nth j (TestFp32ToFp16_inputs count) 0) = true).
  { unfold TestFp32ToFp16_inputs.
    rewrite (nth_indep _ 0 (TestFp32ToFp16_src (Z.of_nat 0)))
      by (rewrite length_map, length_seq; lia).
    rewrite (map_nth (fun i => TestFp32ToFp16_src (Z.of_nat i))), seq_nth by lia.
    apply TestFp32ToFp16_src_value. unfold sweep in Hc. lia. }
  rewrite NarrowToHalf_nth_finite by (auto; lia).
  apply (narrow_lane_round_to_nearest false); auto.
Qed.

(** The patterns [TestFp16ToFp32] compares are finite ones; it also skips
    finite ones, such as [0x1C00]. *)
Lemma TestFp16ToFp32_skip_mask :
  (forall p, 0 <= p < 65536 -> Z.land p 7168 <> 7168 -> F16_finite p = true) /\
  Z.land 7168 7168 = 7168 /\ F16_finite 7168 = true.
Proof.
  split; [|split; reflexivity].
  intros p Hp Hm.
  assert (H : not_skipped_finite_at p = true).
  { apply (all_from_spec not_skipped_finite_at (Z.to_nat 65536) 0);
      [vm_compute; reflexivity | lia]. }
  unfold not_skipped_finite_at in H. apply orb_prop in H as [H | H]; auto.
  apply Z.eqb_eq in H. contradiction.
Qed.

(** The check of [TestFp16ToFp32] holds of [WidenToFull] against every
    reference that returns the exact value of a finite pattern. *)
Lemma TestFp16ToFp32_passes (reference : Z -> Z) (count : nat) :
  (forall p, 0 <= p < 65536 -> F16_finite p = true ->
     F32_isnan (reference p) = false /\
     F32_scaled (reference p) = F16_scaled p /\
     F32_sign (reference p) = F16_sign p) ->
  (count <= sweep)%nat ->
  TestFp16ToFp32 WidenToFull reference count = true.
Proof.
  intros Href Hc. unfold TestFp16ToFp32. apply forallb_forall.
  intros j Hj. apply in_seq in Hj. unfold sweep in Hc.
  assert (Hlen : length (TestFp16ToFp32_inputs count) = count)
    by (unfold TestFp16ToFp32_inputs; now rewrite length_map, length_seq).
  assert (Hp : nth j (TestFp16ToFp32_inputs count) 0 = Z.of_nat j).
  { unfold TestFp16ToFp32_inputs.
    rewrite (nth_indep _ 0 (uint16 (Z.of_nat 0)))
      by (rewrite length_map, length_seq; lia).
    rewrite (map_nth (fun i => uint16 (Z.of_nat i))), seq_nth by lia.
    unfold uint16. apply Z.mod_small. lia. }
  destruct (Z.eqb_spec (Z.land (nth j (TestFp16ToFp32_inputs count) 0) 7168) 7168)
    as [|Hm]; [reflexivity|].
  rewrite Hp in Hm.
  assert (Hfin : F16_finite (Z.of_nat j) = true)
    by (apply TestFp16ToFp32_skip_mask; [lia | exact Hm]).
  destruct (widen_exact (Z.of_nat j) ltac:(lia) Hfin) as (Hv & Hs & Hf & Heq & Hn).
  unfold WidenToFull.
  rewrite cast_kernel_nth_agree by (try rewrite Hp; auto; lia).
  rewrite Hp, Heq.
  destruct (Href (Z.of_nat j) ltac:(lia) Hfin) as (Rn & Rv & Rs).
  unfold F32_eqb. rewrite Rn, Rv, Rs, Hv, Hs, !Z.eqb_refl.
  unfold F32_isnan. unfold F32_finite in Hf.
  destruct (F32_exp (widen_vector (Z.of_nat j)) =? 255); [discriminate | reflexivity].
Qed.

(** [ExecuteShort] of the cast test passes on the two kernels, against such
    references. *)
Lemma ExecuteShort_cast_passes (to_float from_float : Z -> Z) :
  (forall p, 0 <= p < 65536 -> F16_finite p = true ->
     F32_isnan (to_float p) = false /\
     F32_scaled (to_float p) = F16_scaled p /\
     F32_sign (to_float p) = F16_sign p) ->
  (forall x, F32_finite x = true -> round_to_nearest x (from_float x)) ->
  ExecuteShort_cast WidenToFull NarrowToHalf to_float from_float = true.
Proof.
  intros Hw Hn. unfold ExecuteShort_cast.
  rewrite !TestFp16ToFp32_passes, !TestFp32ToFp16_passes; auto;
    unfold sweep; lia.
Qed.

(** ** More on the reference packer *)

Lemma byte_of_nibbles b : b = Z.land b 15 + 16 * Z.shiftr b 4.
Proof.
  change 15 with (Z.ones 4). rewrite Z.land_ones, Z.shiftr_div_pow2 by lia.
  change (2 ^ 4) with 16. pose proof (Z.div_mod b 16 ltac:(lia)). lia.
Qed.

(** [GetInt4] takes a byte apart: it returns a 4-bit value, chosen by the
    parity of [i] alone, and the low and the high value put together again
    are the byte. *)
Theorem GetInt4_unpacks v i :
  is_byte v -> 0 <= i ->
  0 <= GetInt4 v i < 16 /\
  GetInt4 v (i + 2) = GetInt4 v i /\
  Z.lor (GetInt4 v (2 * i)) (Z.shiftl (GetInt4 v (2 * i + 1)) 4) = v.
Proof.
  intros Hv Hi. rewrite !GetInt4_nibble by (auto; lia).
  split; [now apply nibble_range|]. split.
  - f_equal. replace (i + 2) with (i + 1 * 2) by lia. apply Z.mod_add. lia.
  - replace ((2 * i) mod 2) with 0
      by (symmetry; rewrite Z.mul_comm; apply Z.mod_mul; lia).
    replace ((2 * i + 1) mod 2) with 1
      by (symmetry; rewrite Z.add_comm, Z.mul_comm, Z.mod_add by lia; reflexivity).
    unfold nibble. cbn [Z.eqb].
    change 15 with (Z.ones 4).
    rewrite <- Z.ldiff_ones_r by lia.
    rewrite Z.lor_comm. apply Z.lor_ldiff_and.
Qed.

Lemma GetInt4_unpacks_witness :
  GetInt4 165 7 = 10 /\ Z.lor (GetInt4 165 6) (Z.shiftl (GetInt4 165 7) 4) = 165.
Proof.
  destruct (GetInt4_unpacks 165 3) as (_ & _ & H); [unfold is_byte; lia | lia |].
  split; [reflexivity | exact H].
Defined.

Lemma In_writes_inv j evs : In j (writes evs) -> exists v, In (WrDst j v) evs.
Proof.
  unfold writes. intros H. apply in_flat_map in H as (e & He & Hj).
  destruct e as [i | j' v]; simpl in Hj; [contradiction|].
  destruct Hj as [-> | []]. now exists v.
Qed.

Lemma list_eq_getb (l1 l2 : list Z) :
  length l1 = length l2 ->
  (forall j, 0 <= j < Z.of_nat (length l1) -> getb l1 j = getb l2 j) ->
  l1 = l2.
Proof.
  intros Hl H. apply (nth_ext _ _ 0 0 Hl). intros n Hn.
  specialize (H (Z.of_nat n) ltac:(lia)). unfold getb in H.
  now rewrite Nat2Z.id in H.
Qed.

Lemma Prepack_result_ext S0 Ldb N d1 d2 :
  sizes_ok Ldb N ->
  Z.of_nat (length d1) = N * Ldb -> Z.of_nat (length d2) = N * Ldb ->
  replay (Prepack_events S0 Ldb N) d1 = replay (Prepack_events S0 Ldb N) d2.
Proof.
  intros Hok H1 H2. apply list_eq_getb.
  - rewrite !replay_length. lia.
  - intros j Hj. rewrite replay_length in Hj.
    destruct (Prepack_writes_facts S0 Ldb N Hok) as [_ Hw].
    destruct (In_writes_inv j (Prepack_events S0 Ldb N)) as [v Hv];
      [apply Hw; lia|].
    now rewrite !(Prepack_byte S0 Ldb N _ j v).
Qed.

(** The reference buffer is overwritten as a whole: what a run leaves in it
    does not depend on what it held before. *)
Theorem Prepack_overwrites_ref fuel Ldb N input ref1 ref2 :
  sizes_ok Ldb N -> int_counter_ok Ldb N -> enough fuel Ldb N ->
  Z.of_nat (length input) = N * Ldb ->
  Z.of_nat (length ref1) = N * Ldb -> Z.of_nat (length ref2) = N * Ldb ->
  exists s1 s2,
    run_Prepack fuel Ldb N input ref1 = Done tt s1 /\
    run_Prepack fuel Ldb N input ref2 = Done tt s2 /\
    dst s1 = dst s2.
Proof.
  intros Hok Hint Hf HS H1 H2.
  eexists. eexists.
  split; [apply run_Prepack_events; auto|].
  split; [apply run_Prepack_events; auto|].
  cbn [dst]. now apply Prepack_result_ext.
Qed.

Lemma Prepack_overwrites_ref_witness :
  exists s1 s2,
    run_Prepack 9 8 9 (zrange 16 72) (repeat 0 72%nat) = Done tt s1 /\
    run_Prepack 9 8 9 (zrange 16 72) (zrange 100 72) = Done tt s2 /\
    dst s1 = dst s2.
Proof.
  apply (Prepack_overwrites_ref 9 8 9 (zrange 16 72) (repeat 0 72%nat) (zrange 100 72)).
  - split; [lia | lia | reflexivity | rewrite SIZE_MAX_eq; lia].
  - right. rewrite INT_MAX_eq. lia.
  - unfold enough. repeat split; reflexivity.
  - reflexivity.
  - reflexivity.
  - reflexivity.
Defined.

Lemma source_byte_nibbles Ldb buf idx :
  1 <= Ldb -> 0 <= idx ->
  getb buf idx
  = source_nibble Ldb buf (idx / Ldb) (2 * (idx mod Ldb))
    + 16 * source_nibble Ldb buf (idx / Ldb) (2 * (idx mod Ldb) + 1).
Proof.
  intros HL Hi. unfold source_nibble.
  pose proof (Z.div_mod idx Ldb ltac:(lia)) as E.
  replace (2 * (idx mod Ldb) / 2) with (idx mod Ldb)
    by (symmetry; rewrite Z.mul_comm; apply Z.div_mul; lia).
  replace ((2 * (idx mod Ldb) + 1) / 2) with (idx mod Ldb)
    by (Z.div_mod_to_equations; lia).
  replace ((2 * (idx mod Ldb)) mod 2) with 0
    by (symmetry; rewrite Z.mul_comm; apply Z.mod_mul; lia).
  replace ((2 * (idx mod Ldb) + 1) mod 2) with 1
    by (symmetry; rewrite Z.add_comm, Z.mul_comm, Z.mod_add by lia; reflexivity).
  replace (idx / Ldb * Ldb + idx mod Ldb) with idx by lia.
  unfold nibble. cbn [Z.eqb]. apply byte_of_nibbles.
Qed.

(** Packing loses nothing: two sources that are packed to the same bytes are
    the same. *)
Theorem Prepack_injective fuel Ldb N input1 input2 ref1 ref2 s1 s2 :
  sizes_ok Ldb N -> int_counter_ok Ldb N -> enough fuel Ldb N ->
  Z.of_nat (length input1) = N * Ldb -> Z.of_nat (length input2) = N * Ldb ->
  Z.of_nat (length ref1) = N * Ldb -> Z.of_nat (length ref2) = N * Ldb ->
  Forall is_byte input1 -> Forall is_byte input2 ->
  run_Prepack fuel Ldb N input1 ref1 = Done tt s1 ->
  run_Prepack fuel Ldb N input2 ref2 = Done tt s2 ->
  dst s1 = dst s2 -> input1 = input2.
Proof.
  intros Hok Hint Hf HS1 HS2 H1 H2 Hb1 Hb2 R1 R2 E.
  rewrite run_Prepack_events in R1, R2 by auto.
  injection R1 as <-. injection R2 as <-. cbn [dst] in E.
  assert (HL : 1 <= Ldb) by (destruct Hok; auto).
  apply list_eq_getb; [lia|]. intros idx Hidx.
  rewrite (source_byte_nibbles Ldb input1), (source_byte_nibbles Ldb input2) by lia.
  assert (Hcol : 0 <= idx / Ldb < N).
  { split; [apply Z.div_pos; lia | apply Z.div_lt_upper_bound; nia]. }
  pose proof (Z.mod_pos_bound idx Ldb ltac:(lia)) as Hoff.
  rewrite <- !(packed_nibble_correct input1 Ldb N ref1) by (auto; lia).
  rewrite <- !(packed_nibble_correct input2 Ldb N ref2) by (auto; lia).
  now rewrite E.
Qed.

Lemma Prepack_injective_witness :
  exists s1 s2,
    run_Prepack 9 8 1 [1; 2; 3; 4; 5; 6; 7; 8] (repeat 0 8%nat) = Done tt s1 /\
    run_Prepack 9 8 1 [1; 2; 3; 4; 5; 6; 7; 9] (repeat 0 8%nat) = Done tt s2 /\
    dst s1 <> dst s2.
Proof.
  assert (exists s, run_Prepack 9 8 1 [1; 2; 3; 4; 5; 6; 7; 8] (repeat 0 8%nat)
                    = Done tt s) as [s1 R1] by (eexists; vm_compute; reflexivity).
  assert (exists s, run_Prepack 9 8 1 [1; 2; 3; 4; 5; 6; 7; 9] (repeat 0 8%nat)
                    = Done tt s) as [s2 R2] by (eexists; vm_compute; reflexivity).
  exists s1, s2. split; [exact R1|]. split; [exact R2|]. intros E.
  assert (H : [1; 2; 3; 4; 5; 6; 7; 8] = [1; 2; 3; 4; 5; 6; 7; 9]).
  { apply (Prepack_injective 9 8 1 [1; 2; 3; 4; 5; 6; 7; 8] [1; 2; 3; 4; 5; 6; 7; 9]
             (repeat 0 8%nat) (repeat 0 8%nat) s1 s2); auto; try reflexivity.
    - split; [lia | lia | reflexivity | rewrite SIZE_MAX_eq; lia].
    - right. rewrite INT_MAX_eq. lia.
    - unfold enough. repeat split; reflexivity.
    - repeat constructor; unfold is_byte; lia.
    - repeat constructor; unfold is_byte; lia. }
  discriminate H.
Defined.

(** *** Columns are packed block by block *)

Lemma tile_byte_at S0 Ldb N d idx :
  sizes_ok Ldb N -> Z.of_nat (length d) = N * Ldb ->
  0 <= idx < 8 * (N / 8) * Ldb ->
  let rem := idx mod (8 * Ldb) in
  let i := (8 * (idx / (8 * Ldb)) + rem mod 8) * Ldb + rem / 8 in
  8 * Ldb * (idx / (8 * Ldb)) <= i < 8 * Ldb * (idx / (8 * Ldb)) + 8 * Ldb /\
  8 * Ldb * (idx / (8 * Ldb)) <= idx < 8 * Ldb * (idx / (8 * Ldb)) + 8 * Ldb /\
  getb (replay (Prepack_events S0 Ldb N) d) idx = getb S0 i.
Proof.
  intros Hok Hd Hidx rem i.
  destruct (sizes_ok_bounds _ _ Hok) as (HL8 & HT & HU & HN & HN8).
  pose proof (Z.div_mod idx (8 * Ldb) ltac:(lia)) as E.
  pose proof (Z.mod_pos_bound idx (8 * Ldb) ltac:(lia)) as B.
  fold rem in E, B.
  assert (Ht : 0 <= idx / (8 * Ldb) < N / 8).
  { split; [apply Z.div_pos; lia | apply Z.div_lt_upper_bound; lia]. }
  set (t := idx / (8 * Ldb)) in *.
  pose proof (Z.div_mod rem 8 ltac:(lia)) as E'.
  pose proof (Z.mod_pos_bound rem 8 ltac:(lia)) as B'.
  assert (Hkb : 0 <= rem / 8 < Ldb).
  { split; [apply Z.div_pos; lia | apply Z.div_lt_upper_bound; lia]. }
  set (kb := rem / 8) in *. set (c := rem mod 8) in *.
  split; [subst i; nia|]. split; [lia|].
  pose proof (tile_byte S0 Ldb N d (8 * t + c) kb Hok Hd ltac:(lia) Hkb) as H.
  replace ((8 * t + c) / 8) with t in H by (Z.div_mod_to_equations; lia).
  replace ((8 * t + c) mod 8) with c in H by (Z.div_mod_to_equations; lia).
  replace (8 * t * Ldb + kb * 8 + c) with idx in H by lia.
  exact H.
Qed.

Lemma tail_byte_at S0 Ldb N d idx :
  sizes_ok Ldb N -> Z.of_nat (length d) = N * Ldb ->
  8 * (N / 8) * Ldb <= idx < N * Ldb ->
  let j := Ldb * (idx / Ldb) + 8 * (idx mod Ldb / 8) in
  let i := (idx mod Ldb) mod 8 in
  (Ldb * (idx / Ldb) <= j + Z.shiftr i 1 < Ldb * (idx / Ldb) + Ldb /\
   Ldb * (idx / Ldb) <= j + Z.shiftr (8 + i) 1 < Ldb * (idx / Ldb) + Ldb) /\
  Ldb * (idx / Ldb) <= idx < Ldb * (idx / Ldb) + Ldb /\
  getb (replay (Prepack_events S0 Ldb N) d) idx
  = uint8 (Z.lor (GetInt4 (getb S0 (j + Z.shiftr i 1)) i)
                 (Z.shiftl (GetInt4 (getb S0 (j + Z.shiftr (8 + i) 1)) (i + 8)) 4)).
Proof.
  intros Hok Hd Hidx j i.
  destruct (sizes_ok_bounds _ _ Hok) as (HL8 & HT & HU & HN & HN8).
  pose proof (Ldb_mod8 _ _ Hok) as H8.
  pose proof (Z.div_mod idx Ldb ltac:(lia)) as E.
  pose proof (Z.mod_pos_bound idx Ldb ltac:(lia)) as B.
  assert (Hcol : 8 * (N / 8) <= idx / Ldb < N).
  { split; [apply Z.div_le_lower_bound; lia | apply Z.div_lt_upper_bound; lia]. }
  set (col := idx / Ldb) in *. set (off := idx mod Ldb) in *.
  assert (Hq : 0 <= off / 8 < Ldb / 8) by (Z.div_mod_to_equations; lia).
  assert (Hi : 0 <= i < 8) by (subst i; apply Z.mod_pos_bound; lia).
  assert (Eoff : off = 8 * (off / 8) + i) by (subst i; apply Z.div_mod; lia).
  assert (HQ : 8 * (off / 8) + 8 <= Ldb) by (Z.div_mod_to_equations; lia).
  assert (S1 : 0 <= Z.shiftr i 1 <= 3).
  { rewrite Z.shiftr_div_pow2 by lia. change (2 ^ 1) with 2.
    Z.div_mod_to_equations; lia. }
  assert (S2 : 4 <= Z.shiftr (8 + i) 1 <= 7).
  { rewrite Z.shiftr_div_pow2 by lia. change (2 ^ 1) with 2.
    Z.div_mod_to_equations; lia. }
  split; [subst j; lia|]. split; [lia|].
  pose proof (tail_byte S0 Ldb N d col (off / 8) i Hok Hd Hcol Hq Hi) as H.
  cbv zeta in H.
  replace (col * Ldb + 8 * (off / 8) + i) with idx in H by lia.
  replace (col * Ldb + 8 * (off / 8)) with j in H by (subst j; lia).
  exact H.
Qed.

(** Columns are packed independently, a full tile of 8 columns or one tail
    column at a time: the byte the packer leaves at [idx] depends only on
    the source bytes of the block of [idx]. *)
Theorem Prepack_blockwise fuel Ldb N input1 input2 ref1 ref2 idx :
  sizes_ok Ldb N -> int_counter_ok Ldb N -> enough fuel Ldb N ->
  Z.of_nat (length input1) = N * Ldb -> Z.of_nat (length input2) = N * Ldb ->
  Z.of_nat (length ref1) = N * Ldb -> Z.of_nat (length ref2) = N * Ldb ->
  0 <= idx < N * Ldb ->
  (forall i, block_start Ldb N idx <= i < block_start Ldb N idx + block_size Ldb N idx ->
     getb input1 i = getb input2 i) ->
  block_start Ldb N idx <= idx < block_start Ldb N idx + block_size Ldb N idx /\
  exists s1 s2,
    run_Prepack fuel Ldb N input1 ref1 = Done tt s1 /\
    run_Prepack fuel Ldb N input2 ref2 = Done tt s2 /\
    getb (dst s1) idx = getb (dst s2) idx.
Proof.
  intros Hok Hint Hf HS1 HS2 H1 H2 Hidx Hsame.
  unfold block_start, block_size in *.
  destruct (Z.ltb_spec idx (8 * (N / 8) * Ldb)) as [Ht | Ht].
  - destruct (tile_byte_at input1 Ldb N ref1 idx Hok H1 ltac:(lia)) as (Bi & Bx & E1).
    destruct (tile_byte_at input2 Ldb N ref2 idx Hok H2 ltac:(lia)) as (_ & _ & E2).
    cbv zeta in *. split; [exact Bx|].
    eexists. eexists.
    split; [apply run_Prepack_events; auto|].
    split; [apply run_Prepack_events; auto|].
    cbn [dst]. rewrite E1, E2. apply Hsame. exact Bi.
  - destruct (tail_byte_at input1 Ldb N ref1 idx Hok H1 ltac:(lia)) as ((Ba & Bb) & Bx & E1).
    destruct (tail_byte_at input2 Ldb N ref2 idx Hok H2 ltac:(lia)) as (_ & _ & E2).
    cbv zeta in *. split; [exact Bx|].
    eexists. eexists.
    split; [apply run_Prepack_events; auto|].
    split; [apply run_Prepack_events; auto|].
    cbn [dst]. rewrite E1, E2. now rewrite (Hsame _ Ba), (Hsame _ Bb).
Qed.

Lemma Prepack_blockwise_witness :
  exists s1 s2,
    run_Prepack 9 8 9 (zrange 0 72) (repeat 0 72%nat) = Done tt s1 /\
    run_Prepack 9 8 9 (zrange 0 64 ++ repeat 5 8%nat) (repeat 0 72%nat) = Done tt s2 /\
    getb (dst s1) 10 = getb (dst s2) 10.
Proof.
  destruct (Prepack_blockwise 9 8 9 (zrange 0 72) (zrange 0 64 ++ repeat 5 8%nat)
              (repeat 0 72%nat) (repeat 0 72%nat) 10) as (_ & H).
  - split; [lia | lia | reflexivity | rewrite SIZE_MAX_eq; lia].
  - right. rewrite INT_MAX_eq. lia.
  - unfold enough. repeat split; reflexivity.
  - reflexivity.
  - reflexivity.
  - reflexivity.
  - reflexivity.
  - lia.
  - intros i Hi. assert (Hi' : 0 <= i < 0 + 64) by exact Hi. unfold getb.
    rewrite (app_nth1 (zrange 0 64)) by (rewrite zrange_length; lia).
    replace (zrange 0 72) with (zrange 0 64 ++ zrange 64 8) by reflexivity.
    rewrite app_nth1 by (rewrite zrange_length; lia). reflexivity.
  - exact H.
Defined.

(** *** Nothing to pack *)




(** ** The rest of the packing test *)

(** *** Loops of [Check] *)

Lemma verdict_unit_passed (v : verdict unit) a : v = Passed a -> v = Passed tt.
Proof. destruct a. auto. Qed.

(** A [size_t] counter going up from [a] in steps of [d], [m] times: the
    loop passes exactly when every body does, and ends in a failed assertion
    otherwise. *)
Lemma check_loop_count cond d body (m : nat) : forall fuel a,
  0 <= a -> 0 <= d -> a + d * Z.of_nat m <= SIZE_MAX ->
  (forall t, (t < m)%nat -> cond (a + d * Z.of_nat t) = true) ->
  cond (a + d * Z.of_nat m) = false -> (m < fuel)%nat ->
  (forall t, (t < m)%nat -> verdict_ok (body (a + d * Z.of_nat t))) ->
  let r := check_loop fuel cond (fun i => sadd i d) body a in
  verdict_ok r /\
  (forall x, r = Passed x -> x = a + d * Z.of_nat m) /\
  ((exists x, r = Passed x) <->
   forall t, (t < m)%nat -> body (a + d * Z.of_nat t) = Passed tt).
Proof.
  induction m as [|m IH]; intros fuel a Ha Hd Hmax Hc Hend Hf Hok r; subst r;
    (destruct fuel as [|fuel]; [lia|]); cbn [check_loop].
  - replace (a + d * Z.of_nat 0) with a in Hend by lia. rewrite Hend.
    split; [exact I|]. split.
    + intros x [= <-]. lia.
    + split; [intros _ t Ht; lia | intros _; eexists; reflexivity].
  - pose proof (Hc 0%nat ltac:(lia)) as Hc0.
    replace (a + d * Z.of_nat 0) with a in Hc0 by lia. rewrite Hc0.
    pose proof (Hok 0%nat ltac:(lia)) as Hok0.
    replace (a + d * Z.of_nat 0) with a in Hok0 by lia.
    rewrite sadd_small by nia.
    destruct (IH fuel (a + d) ltac:(lia) Hd ltac:(nia)) as (I1 & I2 & I3).
    + intros t Ht. replace (a + d + d * Z.of_nat t) with (a + d * Z.of_nat (S t)) by lia.
      apply Hc. lia.
    + replace (a + d + d * Z.of_nat m) with (a + d * Z.of_nat (S m)) by lia. exact Hend.
    + lia.
    + intros t Ht. replace (a + d + d * Z.of_nat t) with (a + d * Z.of_nat (S t)) by lia.
      apply Hok. lia.
    + destruct (body a) as [[]| msg | |] eqn:Eb; cbn [vbind]; try contradiction.
      * split; [exact I1|]. split.
        -- intros x Hx. rewrite (I2 x Hx). lia.
        -- rewrite I3. split.
           ++ intros H t Ht. destruct t as [|t].
              ** replace (a + d * Z.of_nat 0) with a by lia. exact Eb.
              ** replace (a + d * Z.of_nat (S t)) with (a + d + d * Z.of_nat t) by lia.
                 apply H. lia.
           ++ intros H t Ht.
              replace (a + d + d * Z.of_nat t) with (a + d * Z.of_nat (S t)) by lia.
              apply H. lia.
      * split; [exact I|]. split; [intros x [=]|]. split.
        -- intros [x [=]].
        -- intros H. specialize (H 0%nat ltac:(lia)).
           replace (a + d * Z.of_nat 0) with a in H by lia. congruence.
Qed.

(** The same for a loop used as one statement. *)
Lemma check_loop_stmt cond d body (m : nat) fuel a :
  0 <= a -> 0 <= d -> a + d * Z.of_nat m <= SIZE_MAX ->
  (forall t, (t < m)%nat -> cond (a + d * Z.of_nat t) = true) ->
  cond (a + d * Z.of_nat m) = false -> (m < fuel)%nat ->
  (forall t, (t < m)%nat -> verdict_ok (body (a + d * Z.of_nat t))) ->
  let r := vbind (check_loop fuel cond (fun i => sadd i d) body a)
                 (fun _ => Passed tt) in
  verdict_ok r /\
  (r = Passed tt <->
   forall t, (t < m)%nat -> body (a + d * Z.of_nat t) = Passed tt).
Proof.
  intros Ha Hd Hmax Hc Hend Hf Hok r. subst r.
  destruct (check_loop_count cond d body m fuel a Ha Hd Hmax Hc Hend Hf Hok)
    as (I1 & _ & I3).
  destruct (check_loop fuel cond (fun i => sadd i d) body a) eqn:E;
    cbn [vbind]; try contradiction.
  - split; [exact I|]. rewrite <- I3. split; eauto.
  - split; [exact I|]. rewrite <- I3. split; [intros [=] | intros [x [=]]].
Qed.

Lemma ASSERT_EQ_at_in_range packed ref idx msg :
  0 <= idx -> idx < Z.of_nat (length packed) -> idx < Z.of_nat (length ref) ->
  verdict_ok (ASSERT_EQ_at packed ref idx msg) /\
  (ASSERT_EQ_at packed ref idx msg = Passed tt <-> getb packed idx = getb ref idx).
Proof.
  intros H0 Hp Hr. unfold ASSERT_EQ_at, getb.
  destruct (nth_error packed (Z.to_nat idx)) as [a|] eqn:Ea;
    [|apply nth_error_None in Ea; lia].
  destruct (nth_error ref (Z.to_nat idx)) as [b|] eqn:Eb;
    [|apply nth_error_None in Eb; lia].
  rewrite (nth_error_nth _ _ 0 Ea), (nth_error_nth _ _ 0 Eb).
  destruct (Z.eqb_spec a b); split; try exact I; split; auto; congruence.
Qed.

(** Number of iterations of [for (i = 0; i < K; i += 2)]. *)
Lemma pairs_loop K :
  0 <= K ->
  (forall t, (t < Z.to_nat ((K + 1) / 2))%nat -> (0 + 2 * Z.of_nat t <? K) = true) /\
  (0 + 2 * Z.of_nat (Z.to_nat ((K + 1) / 2)) <? K) = false /\
  Z.of_nat (Z.to_nat ((K + 1) / 2)) = (K + 1) / 2.
Proof.
  intros HK. assert (0 <= (K + 1) / 2) by (apply Z.div_pos; lia).
  pose proof (Z.div_mod (K + 1) 2 ltac:(lia)) as E.
  pose proof (Z.mod_pos_bound (K + 1) 2 ltac:(lia)) as B.
  set (q := (K + 1) / 2) in *.
  rewrite Z2Nat.id by lia. split; [|split; auto].
  - intros t Ht. apply Z.ltb_lt. lia.
  - apply Z.ltb_ge. lia.
Qed.

Lemma shiftr1_double h : Z.shiftr (0 + 2 * h) 1 = h.
Proof.
  rewrite Z.shiftr_div_pow2 by lia. change (2 ^ 1) with 2.
  rewrite Z.add_0_l, Z.mul_comm. apply Z.div_mul. lia.
Qed.

(** *** The indices [Check] compares *)

Lemma compared_tile Ldb N K t h j :
  0 <= t < N / 8 -> 0 <= h < (K + 1) / 2 -> (K + 1) / 2 <= Ldb -> 0 <= j < 8 ->
  0 <= 8 * t * Ldb + h * 8 + j < 8 * (N / 8) * Ldb /\
  8 * (N / 8) * Ldb <= N * Ldb /\
  compared Ldb N K (8 * t * Ldb + h * 8 + j) = true.
Proof.
  intros Ht Hh HL Hj.
  pose proof (Z.div_mod N 8 ltac:(lia)) as EN.
  pose proof (Z.mod_pos_bound N 8 ltac:(lia)) as BN.
  assert (B1 : 0 <= 8 * t * Ldb + h * 8 + j < 8 * (N / 8) * Ldb) by nia.
  assert (B2 : 8 * (N / 8) * Ldb <= N * Ldb) by nia.
  split; [exact B1|]. split; [exact B2|]. unfold compared.
  destruct (Z.leb_spec 0 (8 * t * Ldb + h * 8 + j)); [|lia].
  destruct (Z.ltb_spec (8 * t * Ldb + h * 8 + j) (N * Ldb)); [|lia].
  destruct (Z.ltb_spec (8 * t * Ldb + h * 8 + j) (8 * (N / 8) * Ldb)); [|lia].
  cbn [andb]. apply Z.ltb_lt.
  rewrite <- (Z.mod_unique_pos (8 * t * Ldb + h * 8 + j) (8 * Ldb) t (h * 8 + j));
    lia.
Qed.

Lemma compared_tail Ldb N K u h :
  0 <= N -> 0 <= u < N mod 8 -> 0 <= h < (K + 1) / 2 -> (K + 1) / 2 <= Ldb ->
  8 * (N / 8) * Ldb <= (8 * (N / 8) + u) * Ldb + h < N * Ldb /\
  compared Ldb N K ((8 * (N / 8) + u) * Ldb + h) = true.
Proof.
  intros HN Hu Hh HL.
  pose proof (Z.div_mod N 8 ltac:(lia)) as EN.
  assert (0 <= N / 8) by (apply Z.div_pos; lia).
  assert (B : 8 * (N / 8) * Ldb <= (8 * (N / 8) + u) * Ldb + h < N * Ldb) by nia.
  split; [exact B|]. unfold compared.
  destruct (Z.leb_spec 0 ((8 * (N / 8) + u) * Ldb + h)); [|nia].
  destruct (Z.ltb_spec ((8 * (N / 8) + u) * Ldb + h) (N * Ldb)); [|lia].
  destruct (Z.ltb_spec ((8 * (N / 8) + u) * Ldb + h) (8 * (N / 8) * Ldb)); [lia|].
  cbn [andb]. apply Z.ltb_lt.
  rewrite <- (Z.mod_unique_pos ((8 * (N / 8) + u) * Ldb + h) Ldb (8 * (N / 8) + u) h);
    lia.
Qed.

Lemma compared_inv Ldb N K idx :
  0 <= N -> 0 <= Ldb -> compared Ldb N K idx = true ->
  (exists t h j, 0 <= t < N / 8 /\ 0 <= h < (K + 1) / 2 /\ 0 <= j < 8 /\
                 idx = 8 * t * Ldb + h * 8 + j) \/
  (exists u h, 0 <= u < N mod 8 /\ 0 <= h < (K + 1) / 2 /\
               idx = (8 * (N / 8) + u) * Ldb + h).
Proof.
  intros HN HL H. unfold compared in H.
  apply andb_prop in H as [H H3]. apply andb_prop in H as [H1 H2].
  apply Z.leb_le in H1. apply Z.ltb_lt in H2.
  assert (HL1 : 1 <= Ldb) by nia.
  pose proof (Z.div_mod N 8 ltac:(lia)) as EN.
  pose proof (Z.mod_pos_bound N 8 ltac:(lia)) as BN.
  destruct (Z.ltb_spec idx (8 * (N / 8) * Ldb)) as [Ht | Ht];
    apply Z.ltb_lt in H3.
  - left.
    pose proof (Z.div_mod idx (8 * Ldb) ltac:(lia)) as E.
    pose proof (Z.mod_pos_bound idx (8 * Ldb) ltac:(lia)) as B.
    set (rem := idx mod (8 * Ldb)) in *.
    pose proof (Z.div_mod rem 8 ltac:(lia)) as E'.
    pose proof (Z.mod_pos_bound rem 8 ltac:(lia)) as B'.
    exists (idx / (8 * Ldb)), (rem / 8), (rem mod 8).
    split; [split; [apply Z.div_pos; lia | apply Z.div_lt_upper_bound; lia]|].
    split; [split; [apply Z.div_pos; lia | apply Z.div_lt_upper_bound; lia]|].
    split; [lia|]. lia.
  - right.
    pose proof (Z.div_mod idx Ldb ltac:(lia)) as E.
    pose proof (Z.mod_pos_bound idx Ldb ltac:(lia)) as B.
    exists (idx / Ldb - 8 * (N / 8)), (idx mod Ldb).
    assert (8 * (N / 8) <= idx / Ldb) by (apply Z.div_le_lower_bound; lia).
    assert (idx / Ldb < N) by (apply Z.div_lt_upper_bound; lia).
    split; [lia|]. split; [lia|]. lia.
Qed.

Lemma Check_tile_index_small Ldb N n h j :
  0 <= n -> n + 8 <= N -> 0 <= h < Ldb -> 0 <= j < 8 -> N * Ldb <= SIZE_MAX ->
  Check_tile_index Ldb n (0 + 2 * h) j = n * Ldb + h * 8 + j.
Proof.
  intros Hn HN Hh Hj Hmax. unfold Check_tile_index. rewrite shiftr1_double.
  assert (0 <= n * Ldb /\ n * Ldb + h * 8 + j < N * Ldb) by nia.
  rewrite (smul_small n Ldb), (smul_small h 8) by lia.
  rewrite (sadd_small (n * Ldb)) by lia. apply sadd_small. lia.
Qed.

Lemma Check_tail_index_small Ldb N n h :
  0 <= n < N -> 0 <= h < Ldb -> N * Ldb <= SIZE_MAX ->
  Check_tail_index Ldb n (0 + 2 * h) = n * Ldb + h.
Proof.
  intros Hn Hh Hmax. unfold Check_tail_index. rewrite shiftr1_double.
  assert (0 <= n * Ldb /\ n * Ldb + h < N * Ldb) by nia.
  rewrite (smul_small n Ldb) by lia. apply sadd_small. lia.
Qed.

Lemma max_size_eq : max_size = 9223372036854775807.
Proof. reflexivity. Qed.

Lemma Check_tiles_spec fuel Ldb N K packed ref :
  Check_sizes Ldb N K packed ref -> Check_fuel fuel N K ->
  let r := Check_tiles fuel Ldb N K packed ref in
  verdict_ok r /\
  (forall x, r = Passed x -> x = 8 * (N / 8)) /\
  ((exists x, r = Passed x) <->
   forall t h j, 0 <= t < N / 8 -> 0 <= h < (K + 1) / 2 -> 0 <= j < 8 ->
     getb packed (8 * t * Ldb + h * 8 + j) = getb ref (8 * t * Ldb + h * 8 + j)).
Proof.
  intros [HN HK HL Hp Hr Hmax HNmax] (F1 & F2 & F3) r. subst r.
  pose proof SIZE_MAX_eq as HM. pose proof max_size_eq as HX.
  pose proof (Z.div_mod N 8 ltac:(lia)) as EN.
  pose proof (Z.mod_pos_bound N 8 ltac:(lia)) as BN.
  assert (HN8 : 0 <= N / 8) by (apply Z.div_pos; lia).
  destruct (pairs_loop K HK) as (P1 & P2 & P3).
  (* one row of 8 bytes *)
  assert (Row : forall t h, (t < Z.to_nat (N / 8))%nat ->
            (h < Z.to_nat ((K + 1) / 2))%nat ->
            let n := 0 + 8 * Z.of_nat t in
            let i := 0 + 2 * Z.of_nat h in
            let v := vbind (check_loop 9 (fun j => j <? 8) (fun j => sadd j 1)
                       (fun j => ASSERT_EQ_at packed ref
                                   (Check_tile_index Ldb n i j) [n; i; j]) 0)
                       (fun _ => Passed tt) in
            verdict_ok v /\
            (v = Passed tt <->
             forall j, 0 <= j < 8 ->
               getb packed (8 * Z.of_nat t * Ldb + Z.of_nat h * 8 + j)
               = getb ref (8 * Z.of_nat t * Ldb + Z.of_nat h * 8 + j))).
  { intros t h Ht Hh n i v. subst v.
    assert (Hidx : forall j, 0 <= j < 8 ->
              Check_tile_index Ldb n i j
              = 8 * Z.of_nat t * Ldb + Z.of_nat h * 8 + j /\
              0 <= 8 * Z.of_nat t * Ldb + Z.of_nat h * 8 + j < N * Ldb).
    { intros j Hj. subst n i.
      rewrite (Check_tile_index_small Ldb N) by lia. split; [lia | nia]. }
    destruct (check_loop_stmt (fun j => j <? 8) 1
                (fun j => ASSERT_EQ_at packed ref (Check_tile_index Ldb n i j)
                            [n; i; j]) 8 9 0) as (I1 & I2);
      try lia.
    - reflexivity.
    - intros j Hj. cbv beta.
      destruct (Hidx (0 + 1 * Z.of_nat j) ltac:(lia)) as [E B]. rewrite E.
      apply ASSERT_EQ_at_in_range; lia.
    - split; [exact I1|]. rewrite I2. split.
      + intros H j Hj. specialize (H (Z.to_nat j) ltac:(lia)). cbv beta in H.
        replace (0 + 1 * Z.of_nat (Z.to_nat j)) with j in H by lia.
        destruct (Hidx j Hj) as [E B]. rewrite E in H.
        apply ASSERT_EQ_at_in_range in H; auto; lia.
      + intros H j Hj. cbv beta.
        destruct (Hidx (0 + 1 * Z.of_nat j) ltac:(lia)) as [E B]. rewrite E.
        apply ASSERT_EQ_at_in_range; try lia. apply H. lia. }
  cbv zeta in Row.
  (* the rows of one tile *)
  assert (Tile : forall t, (t < Z.to_nat (N / 8))%nat ->
            let n := 0 + 8 * Z.of_nat t in
            let v := vbind (check_loop fuel (fun i => i <? K) (fun i => sadd i 2)
                       (fun i => vbind (check_loop 9 (fun j => j <? 8)
                          (fun j => sadd j 1)
                          (fun j => ASSERT_EQ_at packed ref
                                      (Check_tile_index Ldb n i j) [n; i; j]) 0)
                          (fun _ => Passed tt)) 0)
                       (fun _ => Passed tt) in
            verdict_ok v /\
            (v = Passed tt <->
             forall h j, 0 <= h < (K + 1) / 2 -> 0 <= j < 8 ->
               getb packed (8 * Z.of_nat t * Ldb + h * 8 + j)
               = getb ref (8 * Z.of_nat t * Ldb + h * 8 + j))).
  { intros t Ht n v. subst v.
    assert (HLb : 2 * ((K + 1) / 2) <= SIZE_MAX) by nia.
    destruct (check_loop_stmt (fun i => i <? K) 2
                (fun i => vbind (check_loop 9 (fun j => j <? 8)
                          (fun j => sadd j 1)
                          (fun j => ASSERT_EQ_at packed ref
                                      (Check_tile_index Ldb n i j) [n; i; j]) 0)
                          (fun _ => Passed tt))
                (Z.to_nat ((K + 1) / 2)) fuel 0) as (I1 & I2);
      try lia; auto.
    - intros h Hh. apply (proj1 (Row t h Ht Hh)).
    - subst n. split; [exact I1|]. rewrite I2. split.
      + intros H h j Hh Hj. specialize (H (Z.to_nat h) ltac:(lia)).
        pose proof (proj1 (proj2 (Row t (Z.to_nat h) Ht ltac:(lia))) H) as H'.
        specialize (H' j Hj). now rewrite Z2Nat.id in H' by lia.
      + intros H h Hh. apply (proj2 (proj2 (Row t h Ht Hh))).
        intros j Hj. apply H; lia. }
  cbv zeta in Tile.
  destruct (check_loop_count (fun n => sadd n 8 <=? N) 8
              (fun n => vbind (check_loop fuel (fun i => i <? K) (fun i => sadd i 2)
                       (fun i => vbind (check_loop 9 (fun j => j <? 8)
                          (fun j => sadd j 1)
                          (fun j => ASSERT_EQ_at packed ref
                                      (Check_tile_index Ldb n i j) [n; i; j]) 0)
                          (fun _ => Passed tt)) 0)
                       (fun _ => Passed tt))
              (Z.to_nat (N / 8)) fuel 0) as (I1 & I2 & I3); try lia.
  - intros t Ht. apply Z.leb_le. rewrite sadd_small; lia.
  - apply Z.leb_gt. rewrite sadd_small; lia.
  - intros t Ht. apply (proj1 (Tile t Ht)).
  - unfold Check_tiles. split; [exact I1|]. split.
    + intros x Hx. rewrite (I2 x Hx). lia.
    + rewrite I3. split.
      * intros H t h j Ht Hh Hj. specialize (H (Z.to_nat t) ltac:(lia)).
        pose proof (proj1 (proj2 (Tile (Z.to_nat t) ltac:(lia))) H) as H'.
        specialize (H' h j Hh Hj). now rewrite Z2Nat.id in H' by lia.
      * intros H t Ht. apply (proj2 (proj2 (Tile t Ht))).
        intros h j Hh Hj. apply H; lia.
Qed.

Lemma Check_tail_spec fuel Ldb N K packed ref :
  Check_sizes Ldb N K packed ref -> Check_fuel fuel N K ->
  let r := Check_tail fuel Ldb N K packed ref (8 * (N / 8)) in
  verdict_ok r /\
  ((exists x, r = Passed x) <->
   forall u h, 0 <= u < N mod 8 -> 0 <= h < (K + 1) / 2 ->
     getb packed ((8 * (N / 8) + u) * Ldb + h)
     = getb ref ((8 * (N / 8) + u) * Ldb + h)).
Proof.
  intros [HN HK HL Hp Hr Hmax HNmax] (F1 & F2 & F3) r. subst r.
  pose proof SIZE_MAX_eq as HM. pose proof max_size_eq as HX.
  pose proof (Z.div_mod N 8 ltac:(lia)) as EN.
  pose proof (Z.mod_pos_bound N 8 ltac:(lia)) as BN.
  assert (HN8 : 0 <= N / 8) by (apply Z.div_pos; lia).
  destruct (pairs_loop K HK) as (P1 & P2 & P3).
  assert (Col : forall u, (u < Z.to_nat (N mod 8))%nat ->
            verdict_ok
              (vbind (check_loop fuel (fun i => i <? K) (fun i => sadd i 2)
                 (fun i => ASSERT_EQ_at packed ref
                    (Check_tail_index Ldb (8 * (N / 8) + 1 * Z.of_nat u) i)
                    [8 * (N / 8) + 1 * Z.of_nat u; i]) 0)
                 (fun _ => Passed tt)) /\
            (vbind (check_loop fuel (fun i => i <? K) (fun i => sadd i 2)
                 (fun i => ASSERT_EQ_at packed ref
                    (Check_tail_index Ldb (8 * (N / 8) + 1 * Z.of_nat u) i)
                    [8 * (N / 8) + 1 * Z.of_nat u; i]) 0)
                 (fun _ => Passed tt) = Passed tt <->
             forall h, 0 <= h < (K + 1) / 2 ->
               getb packed ((8 * (N / 8) + Z.of_nat u) * Ldb + h)
               = getb ref ((8 * (N / 8) + Z.of_nat u) * Ldb + h))).
  { intros u Hu.
    assert (HLb : 2 * ((K + 1) / 2) <= SIZE_MAX) by nia.
    assert (Hidx : forall h, 0 <= h < (K + 1) / 2 ->
              Check_tail_index Ldb (8 * (N / 8) + 1 * Z.of_nat u) (0 + 2 * h)
              = (8 * (N / 8) + Z.of_nat u) * Ldb + h /\
              0 <= (8 * (N / 8) + Z.of_nat u) * Ldb + h < N * Ldb).
    { intros h Hh. rewrite (Check_tail_index_small Ldb N) by lia.
      split; [f_equal; lia | nia]. }
    destruct (check_loop_stmt (fun i => i <? K) 2
                (fun i => ASSERT_EQ_at packed ref
                    (Check_tail_index Ldb (8 * (N / 8) + 1 * Z.of_nat u) i)
                    [8 * (N / 8) + 1 * Z.of_nat u; i])
                (Z.to_nat ((K + 1) / 2)) fuel 0) as (I1 & I2);
      try lia; auto.
    - intros h Hh. cbv beta.
      destruct (Hidx (Z.of_nat h) ltac:(lia)) as [E B]. rewrite E.
      apply ASSERT_EQ_at_in_range; lia.
    - split; [exact I1|]. rewrite I2. split.
      + intros H h Hh. specialize (H (Z.to_nat h) ltac:(lia)). cbv beta in H.
        rewrite Z2Nat.id in H by lia.
        destruct (Hidx h Hh) as [E B]. rewrite E in H.
        apply ASSERT_EQ_at_in_range in H; auto; lia.
      + intros H h Hh. cbv beta.
        destruct (Hidx (Z.of_nat h) ltac:(lia)) as [E B]. rewrite E.
        apply ASSERT_EQ_at_in_range; try lia. apply H. lia. }
  destruct (check_loop_count (fun n => n <? N) 1
              (fun n => vbind (check_loop fuel (fun i => i <? K) (fun i => sadd i 2)
                 (fun i => ASSERT_EQ_at packed ref (Check_tail_index Ldb n i) [n; i]) 0)
                 (fun _ => Passed tt))
              (Z.to_nat (N mod 8)) fuel (8 * (N / 8))) as (I1 & I2 & I3); try lia.
  - apply Z.ltb_ge. lia.
  - intros u Hu. apply (proj1 (Col u Hu)).
  - unfold Check_tail. split; [exact I1|]. rewrite I3. split.
    + intros H u h Hu Hh. specialize (H (Z.to_nat u) ltac:(lia)).
      pose proof (proj1 (proj2 (Col (Z.to_nat u) ltac:(lia))) H) as H'.
      specialize (H' h Hh). now rewrite Z2Nat.id in H' by lia.
    + intros H u Hu. apply (proj2 (proj2 (Col u Hu))).
      intros h Hh. apply H; lia.
Qed.

Lemma Check_spec fuel Ldb N K packed ref :
  Check_sizes Ldb N K packed ref -> Check_fuel fuel N K ->
  verdict_ok (Check fuel Ldb N K packed ref) /\
  (Check fuel Ldb N K packed ref = Passed tt <->
   forall idx, compared Ldb N K idx = true -> getb packed idx = getb ref idx).
Proof.
  intros Hs Hf.
  destruct (Check_tiles_spec fuel Ldb N K packed ref Hs Hf) as (T1 & T2 & T3).
  destruct (Check_tail_spec fuel Ldb N K packed ref Hs Hf) as (U1 & U3).
  cbv zeta in *.
  destruct Hs as [HN HK HL Hp Hr Hmax HNmax].
  assert (HL0 : 0 <= Ldb).
  { assert (0 <= (K + 1) / 2) by (apply Z.div_pos; lia). lia. }
  unfold Check.
  destruct (Check_tiles fuel Ldb N K packed ref) as [n | msg | |] eqn:ET;
    cbn [vbind]; try contradiction.
  - rewrite (T2 n eq_refl).
    destruct (Check_tail fuel Ldb N K packed ref (8 * (N / 8))) as [n' | msg | |] eqn:EU;
      cbn [vbind]; try contradiction.
    + split; [exact I|]. split; [intros _|reflexivity].
      intros idx Hc. apply compared_inv in Hc; auto.
      destruct Hc as [(t & h & j & Ht & Hh & Hj & ->) | (u & h & Hu & Hh & ->)].
      * apply (proj1 T3); eauto.
      * apply (proj1 U3); eauto.
    + split; [exact I|]. split; [intros [=]|]. intros H. exfalso.
      assert (E : exists x, @AssertFailed Z msg = Passed x).
      { apply U3. intros u h Hu Hh. apply H. now apply compared_tail. }
      destruct E as [x [=]].
  - split; [exact I|]. split; [intros [=]|]. intros H. exfalso.
    assert (E : exists x, @AssertFailed Z msg = Passed x).
    { apply T3. intros t h j Ht Hh Hj. apply H. now apply compared_tile. }
    destruct E as [x [=]].
Qed.

(** *** What [Check] decides *)

(** [Check] on two buffers of [N * Ldb] bytes, for a [K] whose bytes fit a
    column, never indexes outside a buffer: it passes, or stops at a failed
    assertion; and it passes exactly when the two buffers agree on the
    indices of [compared], the first [8 * ceil(K / 2)] bytes of every full
    tile and the first [ceil(K / 2)] bytes of every tail column. *)
Theorem Check_compares fuel Ldb N K packed ref :
  Check_sizes Ldb N K packed ref -> Check_fuel fuel N K ->
  (Check fuel Ldb N K packed ref = Passed tt <->
   forall idx, compared Ldb N K idx = true -> getb packed idx = getb ref idx) /\
  (Check fuel Ldb N K packed ref = Passed tt \/
   exists msg, Check fuel Ldb N K packed ref = AssertFailed msg).
Proof.
  intros Hs Hf. destruct (Check_spec fuel Ldb N K packed ref Hs Hf) as [Hok Hiff].
  split; [exact Hiff|].
  destruct (Check fuel Ldb N K packed ref) as [[] | msg | |];
    try contradiction; eauto.
Qed.

Lemma Check_compares_witness :
  Check 9 8 9 15 (zrange 0 72) (zrange 0 72) = Passed tt /\
  exists msg, Check 9 8 9 15 (zrange 0 72) (list_set (zrange 0 72) 66 0)
              = AssertFailed msg.
Proof.
  assert (Hf : Check_fuel 9 9 15) by (unfold Check_fuel; repeat split; reflexivity).
  assert (Hs : forall l, length l = 72%nat -> Check_sizes 8 9 15 (zrange 0 72) l).
  { intros l Hl. split; try rewrite Hl; try reflexivity; try lia;
      vm_compute; discriminate. }
  split.
  - apply (proj1 (Check_compares 9 8 9 15 _ _ (Hs (zrange 0 72) eq_refl) Hf)).
    reflexivity.
  - destruct (Check_compares 9 8 9 15 _ _ (Hs (list_set (zrange 0 72) 66 0) eq_refl) Hf)
      as [H [Hp | Hm]]; [|exact Hm].
    exfalso. assert (E := proj1 H Hp 66 eq_refl). vm_compute in E. discriminate E.
Defined.

Lemma Check_sizes_set Ldb N K packed ref n v :
  Check_sizes Ldb N K packed ref -> Check_sizes Ldb N K (list_set packed n v) ref.
Proof.
  intros [HN HK HL Hp Hr Hmax HNmax]. split; auto. now rewrite list_set_length.
Qed.

Lemma Check_set_uncompared fuel Ldb N K packed ref idx v :
  Check_sizes Ldb N K packed ref -> Check_fuel fuel N K ->
  0 <= idx -> compared Ldb N K idx = false ->
  (Check fuel Ldb N K (list_set packed (Z.to_nat idx) v) ref = Passed tt <->
   Check fuel Ldb N K packed ref = Passed tt).
Proof.
  intros Hs Hf H0 Hc.
  rewrite (proj2 (Check_spec fuel Ldb N K _ ref (Check_sizes_set _ _ _ _ _ _ v Hs) Hf)).
  rewrite (proj2 (Check_spec fuel Ldb N K packed ref Hs Hf)).
  assert (E : forall i, compared Ldb N K i = true ->
                getb (list_set packed (Z.to_nat idx) v) i = getb packed i).
  { intros i Hi. apply getb_list_set_neq.
    - lia.
    - unfold compared in Hi. apply andb_prop in Hi as [Hi _].
      apply andb_prop in Hi as [Hi _]. apply Z.leb_le in Hi. lia.
    - intros ->. congruence. }
  split; intros H i Hi.
  - rewrite <- (E i Hi). now apply H.
  - rewrite (E i Hi). now apply H.
Qed.

(** [Check] does not look at the other bytes, among them the bytes of a
    column past [ceil(K / 2)], which hold padding: whatever is put at an
    index outside [compared], the outcome is the same. *)
Theorem Check_ignores_uncompared fuel Ldb N K packed ref idx v :
  Check_sizes Ldb N K packed ref -> Check_fuel fuel N K ->
  0 <= idx -> compared Ldb N K idx = false ->
  (Check fuel Ldb N K (list_set packed (Z.to_nat idx) v) ref = Passed tt <->
   Check fuel Ldb N K packed ref = Passed tt).
Proof. apply Check_set_uncompared. Qed.

Lemma Check_ignores_uncompared_witness :
  compared 40 17 67 300 = false /\
  Check 49 40 17 67 (list_set (zrange 0 680) 300 255) (zrange 0 680) = Passed tt.
Proof.
  split; [reflexivity|].
  apply (Check_ignores_uncompared 49 40 17 67 (zrange 0 680) (zrange 0 680) 300 255).
  - split; try reflexivity; try lia; vm_compute; discriminate.
  - unfold Check_fuel. repeat split; reflexivity.
  - lia.
  - reflexivity.
  - vm_compute. reflexivity.
Defined.

(** *** The elements [Check] covers *)

Lemma packed_nibble_index Ldb N buf col kidx :
  packed_nibble Ldb N buf col kidx
  = nibble (getb buf (packed_index Ldb N col kidx))
           (if col <? 8 * (N / 8) then kidx mod 2 else (kidx mod 16) / 8).
Proof. unfold packed_nibble, packed_index. now destruct (col <? 8 * (N / 8)). Qed.

Lemma compared_tile_element Ldb N K col kidx :
  0 <= N -> K <= 2 * Ldb ->
  0 <= col < 8 * (N / 8) -> 0 <= kidx < K ->
  compared Ldb N K (packed_index Ldb N col kidx) = true.
Proof.
  intros HN HL Hc Hk. unfold packed_index.
  destruct (Z.ltb_spec col (8 * (N / 8))); [|lia].
  apply compared_tile; Z.div_mod_to_equations; lia.
Qed.

Lemma compared_tail_element Ldb N K col kidx :
  0 <= N -> K <= 2 * Ldb -> Ldb mod 8 = 0 ->
  8 * (N / 8) <= col < N -> 0 <= kidx < K ->
  compared Ldb N K (packed_index Ldb N col kidx)
  = (8 * (kidx / 16) + kidx mod 8 <? (K + 1) / 2).
Proof.
  intros HN HL H8 Hc Hk. unfold packed_index.
  destruct (Z.ltb_spec col (8 * (N / 8))); [lia|].
  assert (Hoff : 0 <= 8 * (kidx / 16) + kidx mod 8 < Ldb)
    by (Z.div_mod_to_equations; lia).
  set (off := 8 * (kidx / 16) + kidx mod 8) in *.
  replace (col * Ldb + 8 * (kidx / 16) + kidx mod 8) with (col * Ldb + off)
    by (subst off; lia).
  assert (0 <= N / 8) by (apply Z.div_pos; lia).
  assert (B : 8 * (N / 8) * Ldb <= col * Ldb + off < N * Ldb) by nia.
  unfold compared.
  destruct (Z.leb_spec 0 (col * Ldb + off)); [|nia].
  destruct (Z.ltb_spec (col * Ldb + off) (N * Ldb)); [|lia].
  destruct (Z.ltb_spec (col * Ldb + off) (8 * (N / 8) * Ldb)); [lia|].
  cbn [andb].
  rewrite <- (Z.mod_unique_pos (col * Ldb + off) Ldb col off); auto. lia.
Qed.

(** Which elements lie in a byte [Check] compares.  Every element
    [kidx < K] of a column of a full tile does.  Element [kidx] of a tail
    column lies at offset [8 * (kidx / 16) + kidx mod 8] of the column, of
    which [Check] compares the first [ceil(K / 2)] bytes only: all elements
    of all columns are covered exactly when there is no tail column or
    [K mod 16] is 0, 1 or 15. *)
Theorem Check_coverage Ldb N K :
  0 <= N -> 0 <= K -> K <= 2 * Ldb -> Ldb mod 8 = 0 ->
  (forall col kidx, 0 <= col < 8 * (N / 8) -> 0 <= kidx < K ->
     compared Ldb N K (packed_index Ldb N col kidx) = true) /\
  (forall col kidx, 8 * (N / 8) <= col < N -> 0 <= kidx < K ->
     compared Ldb N K (packed_index Ldb N col kidx)
     = (8 * (kidx / 16) + kidx mod 8 <? (K + 1) / 2)) /\
  ((forall col kidx, 0 <= col < N -> 0 <= kidx < K ->
      compared Ldb N K (packed_index Ldb N col kidx) = true) <->
   N mod 8 = 0 \/ K mod 16 = 0 \/ K mod 16 = 1 \/ K mod 16 = 15).
Proof.
  intros HN HK HL H8.
  split; [intros; now apply compared_tile_element|].
  split; [intros; now apply compared_tail_element|].
  split.
  - intros H.
    destruct (Z.eq_dec (N mod 8) 0) as [|HN8]; [now left | right].
    assert (Hcol : 8 * (N / 8) <= 8 * (N / 8) < N) by (Z.div_mod_to_equations; lia).
    assert (Hcol0 : 0 <= 8 * (N / 8) < N) by (Z.div_mod_to_equations; lia).
    pose proof (Z.mod_pos_bound K 16 ltac:(lia)) as HB16.
    destruct (Z_le_gt_dec (K mod 16) 1) as [|H2]; [lia|].
    destruct (Z.eq_dec (K mod 16) 15) as [|H15]; [now auto|]. exfalso.
    destruct (Z_le_gt_dec (K mod 16) 8) as [H8' | H8'].
    + assert (HK1 : 0 <= K - 1 < K) by (Z.div_mod_to_equations; lia).
      specialize (H (8 * (N / 8)) (K - 1) Hcol0 HK1).
      rewrite compared_tail_element in H by (auto; lia).
      apply Z.ltb_lt in H. Z.div_mod_to_equations. lia.
    + specialize (H (8 * (N / 8)) (16 * (K / 16) + 7) Hcol0
                    ltac:(Z.div_mod_to_equations; lia)).
      rewrite compared_tail_element in H
        by (auto; Z.div_mod_to_equations; lia).
      apply Z.ltb_lt in H. Z.div_mod_to_equations. lia.
  - intros H col kidx Hc Hk.
    destruct (Z.lt_ge_cases col (8 * (N / 8))) as [Ht | Ht];
      [apply compared_tile_element; auto; lia|].
    rewrite compared_tail_element by (auto; lia).
    apply Z.ltb_lt. destruct H as [H | H]; Z.div_mod_to_equations; lia.
Qed.

Lemma Check_coverage_witness :
  compared 40 17 67 (packed_index 40 17 16 66)
  = (8 * (66 / 16) + 66 mod 8 <? (67 + 1) / 2) /\
  ~ (forall col kidx, 0 <= col < 17 -> 0 <= kidx < 67 ->
       compared 40 17 67 (packed_index 40 17 col kidx) = true).
Proof.
  destruct (Check_coverage 40 17 67) as (_ & H2 & H3);
    [lia | lia | lia | reflexivity |].
  split; [apply H2; simpl; lia|].
  intros H. apply H3 in H. vm_compute in H.
  destruct H as [H | [H | [H | H]]]; discriminate H.
Defined.

(** So the comparison can miss a packed element: for an element of a tail
    column that lies past the compared bytes, [Check] passes whatever byte
    the packed buffer holds there, although the element read by the packed
    addressing rule is then a nibble of that byte. *)
Theorem Check_misses_tail_element fuel Ldb N K ref col kidx v :
  Check_sizes Ldb N K ref ref -> Check_fuel fuel N K -> Ldb mod 8 = 0 ->
  8 * (N / 8) <= col < N -> 0 <= kidx < K ->
  (K + 1) / 2 <= 8 * (kidx / 16) + kidx mod 8 ->
  let packed := list_set ref (Z.to_nat (packed_index Ldb N col kidx)) v in
  Check fuel Ldb N K packed ref = Passed tt /\
  packed_nibble Ldb N packed col kidx = nibble v ((kidx mod 16) / 8).
Proof.
  intros Hs Hf H8 Hc Hk Hoff packed.
  assert (HL : K <= 2 * Ldb)
    by (destruct Hs as [_ HK HL _ _ _ _]; Z.div_mod_to_equations; lia).
  assert (HN : 0 <= N) by (destruct Hs; auto).
  assert (Hcmp : compared Ldb N K (packed_index Ldb N col kidx) = false).
  { rewrite compared_tail_element by auto. apply Z.ltb_ge. exact Hoff. }
  assert (Hidx : 0 <= packed_index Ldb N col kidx < N * Ldb).
  { assert (0 <= N / 8) by (apply Z.div_pos; lia).
    unfold packed_index. destruct (Z.ltb_spec col (8 * (N / 8))); [lia|].
    assert (0 <= 8 * (kidx / 16) + kidx mod 8 < Ldb)
      by (Z.div_mod_to_equations; lia).
    nia. }
  split.
  - apply Check_set_uncompared; auto; [lia|].
    apply (proj2 (Check_spec fuel Ldb N K ref ref Hs Hf)). reflexivity.
  - rewrite packed_nibble_index.
    destruct (Z.ltb_spec col (8 * (N / 8))); [lia|].
    subst packed. rewrite getb_list_set_eq; auto.
    destruct Hs as [_ _ _ Hp _ _ _]. lia.
Qed.

Lemma Check_misses_tail_element_witness :
  Check 49 40 17 67 (list_set (zrange 0 680) 674 255) (zrange 0 680) = Passed tt /\
  packed_nibble 40 17 (list_set (zrange 0 680) 674 255) 16 66 = 15 /\
  packed_nibble 40 17 (zrange 0 680) 16 66 = 2.
Proof.
  destruct (Check_misses_tail_element 49 40 17 67 (zrange 0 680) 16 66 255)
    as [H1 H2].
  - split; try reflexivity; try lia; vm_compute; discriminate.
  - unfold Check_fuel. repeat split; reflexivity.
  - reflexivity.
  - simpl; lia.
  - lia.
  - vm_compute. discriminate.
  - split; [exact H1|]. split; [exact H2 | reflexivity].
Defined.

(** *** The whole test *)

Lemma InitializeBuffer_from_spec gen size (k : nat) : forall fuel i pos buffer,
  0 <= i -> i + Z.of_nat k = size -> size <= Z.of_nat (length buffer) ->
  size <= max_size -> (k < fuel)%nat ->
  exists buf',
    InitializeBuffer_from fuel size gen i pos buffer = Passed (buf', (pos + k)%nat) /\
    length buf' = length buffer /\
    (forall j, 0 <= j -> ~ (i <= j < size) -> getb buf' j = getb buffer j) /\
    (forall j, i <= j < size ->
       getb buf' j = uint8 (gen (pos + Z.to_nat (j - i))%nat)).
Proof.
  assert (HX : max_size = 9223372036854775807) by reflexivity.
  pose proof SIZE_MAX_eq as HM.
  induction k as [|k IH]; intros fuel i pos buffer Hi Hk Hlen Hmax Hf;
    (destruct fuel as [|fuel]; [lia|]); cbn [InitializeBuffer_from].
  - destruct (Z.ltb_spec i size); [lia|].
    exists buffer. rewrite Nat.add_0_r. repeat split; auto. intros j Hj. lia.
  - destruct (Z.ltb_spec i size); [|lia].
    destruct (Z.ltb_spec i (Z.of_nat (length buffer))); [|lia].
    rewrite sadd_small by lia.
    destruct (IH fuel (i + 1) (S pos)
                (list_set buffer (Z.to_nat i) (uint8 (gen pos))))
      as (buf' & E & L & Hout & Hin); try lia.
    { rewrite list_set_length. lia. }
    exists buf'. rewrite E. split; [do 2 f_equal; lia|].
    split; [now rewrite L, list_set_length|]. split.
    + intros j Hj0 Hj. rewrite Hout by lia. apply getb_list_set_neq; lia.
    + intros j Hj. destruct (Z.eq_dec j i) as [-> | Hne].
      * rewrite Hout by lia. rewrite getb_list_set_eq by lia.
        now rewrite Z.sub_diag, Nat.add_0_r.
      * rewrite Hin by lia. do 2 f_equal.
        replace (j - i) with (Z.succ (j - (i + 1))) by lia.
        rewrite Z2Nat.inj_succ by lia. lia.
Qed.

Lemma InitializeBuffer_from_short gen size (k : nat) : forall fuel i pos buffer,
  0 <= i -> i + Z.of_nat k = Z.of_nat (length buffer) ->
  Z.of_nat (length buffer) < size -> size <= max_size -> (k < fuel)%nat ->
  InitializeBuffer_from fuel size gen i pos buffer = TestUndefined.
Proof.
  assert (HX : max_size = 9223372036854775807) by reflexivity.
  pose proof SIZE_MAX_eq as HM.
  induction k as [|k IH]; intros fuel i pos buffer Hi Hk Hlen Hmax Hf;
    (destruct fuel as [|fuel]; [lia|]); cbn [InitializeBuffer_from];
    (destruct (Z.ltb_spec i size); [|lia]).
  - destruct (Z.ltb_spec i (Z.of_nat (length buffer))); [lia | reflexivity].
  - destruct (Z.ltb_spec i (Z.of_nat (length buffer))); [|lia].
    rewrite sadd_small by lia. apply IH; try rewrite list_set_length; lia.
Qed.

(** [InitializeBuffer<BufferSize>] on a buffer of at least [BufferSize]
    bytes takes [BufferSize] draws of the engine and leaves draw [j],
    reduced to a byte, at index [j]: the first [BufferSize] elements are in
    [0, 256) whatever the engine returns, and the others are as before.  On
    a shorter buffer it runs past the end. *)
Theorem InitializeBuffer_fills fuel size gen pos buffer :
  0 <= size <= max_size -> size < Z.of_nat fuel ->
  (size <= Z.of_nat (length buffer) ->
   exists buf',
     InitializeBuffer fuel size gen pos buffer
     = Passed (buf', (pos + Z.to_nat size)%nat) /\
     length buf' = length buffer /\
     (forall j, 0 <= j < size ->
        getb buf' j = uint8 (gen (pos + Z.to_nat j)%nat) /\ is_byte (getb buf' j)) /\
     (forall j, size <= j -> getb buf' j = getb buffer j)) /\
  (Z.of_nat (length buffer) < size ->
   InitializeBuffer fuel size gen pos buffer = TestUndefined).
Proof.
  intros Hs Hf. unfold InitializeBuffer. split.
  - intros Hlen.
    destruct (InitializeBuffer_from_spec gen size (Z.to_nat size) fuel 0 pos buffer)
      as (buf' & E & L & Hout & Hin); try lia.
    exists buf'. split; [exact E|]. split; [exact L|]. split.
    + intros j Hj. rewrite Hin by lia. rewrite Z.sub_0_r. split; [reflexivity|].
      unfold is_byte, uint8. apply Z.mod_pos_bound. lia.
    + intros j Hj. apply Hout; lia.
  - intros Hlen.
    apply (InitializeBuffer_from_short gen size (length buffer)); lia.
Qed.

Lemma InitializeBuffer_fills_witness :
  InitializeBuffer 4 3 (fun n => 300 + Z.of_nat n) 5 [0; 0; 0; 9]
  = Passed ([49; 50; 51; 9], 8%nat) /\
  InitializeBuffer 4 3 (fun n => 300 + Z.of_nat n) 5 [0; 0] = TestUndefined.
Proof.
  destruct (InitializeBuffer_fills 4 3 (fun n => 300 + Z.of_nat n) 5 [0; 0; 0; 9])
    as [H _]; [split; [lia | vm_compute; discriminate] | lia |].
  destruct (InitializeBuffer_fills 4 3 (fun n => 300 + Z.of_nat n) 5 [0; 0])
    as [_ H']; [split; [lia | vm_compute; discriminate] | lia |].
  split; [|apply H'; simpl; lia].
  destruct H as (buf' & E & _); [simpl; lia|]. rewrite E.
  vm_compute in E. injection E as <-. reflexivity.
Defined.

Lemma packed_byte_nibbles Ldb N idx :
  sizes_ok Ldb N -> 0 <= idx < N * Ldb ->
  exists col k0 k1,
    0 <= col < N /\ 0 <= k0 < 2 * Ldb /\ 0 <= k1 < 2 * Ldb /\
    forall buf, getb buf idx
                = packed_nibble Ldb N buf col k0 + 16 * packed_nibble Ldb N buf col k1.
Proof.
  intros Hok Hidx.
  destruct (sizes_ok_bounds _ _ Hok) as (HL8 & HT & HU & HN & HN8).
  pose proof (Ldb_mod8 _ _ Hok) as H8.
  destruct (Z.lt_ge_cases idx (8 * (N / 8) * Ldb)) as [Ht | Ht].
  - pose proof (Z.div_mod idx (8 * Ldb) ltac:(lia)) as E.
    pose proof (Z.mod_pos_bound idx (8 * Ldb) ltac:(lia)) as B.
    assert (Ht' : 0 <= idx / (8 * Ldb) < N / 8).
    { split; [apply Z.div_pos; lia | apply Z.div_lt_upper_bound; lia]. }
    set (t := idx / (8 * Ldb)) in *. set (rem := idx mod (8 * Ldb)) in *.
    pose proof (Z.div_mod rem 8 ltac:(lia)) as E'.
    pose proof (Z.mod_pos_bound rem 8 ltac:(lia)) as B'.
    assert (Hkb : 0 <= rem / 8 < Ldb).
    { split; [apply Z.div_pos; lia | apply Z.div_lt_upper_bound; lia]. }
    set (kb := rem / 8) in *. set (c := rem mod 8) in *.
    exists (8 * t + c), (2 * kb), (2 * kb + 1).
    split; [lia|]. split; [lia|]. split; [lia|]. intros buf.
    unfold packed_nibble.
    destruct (Z.ltb_spec (8 * t + c) (8 * (N / 8))); [|lia].
    replace ((8 * t + c) / 8) with t by (Z.div_mod_to_equations; lia).
    replace ((8 * t + c) mod 8) with c by (Z.div_mod_to_equations; lia).
    replace (2 * kb / 2) with kb by (Z.div_mod_to_equations; lia).
    replace ((2 * kb + 1) / 2) with kb by (Z.div_mod_to_equations; lia).
    replace ((2 * kb) mod 2) with 0 by (Z.div_mod_to_equations; lia).
    replace ((2 * kb + 1) mod 2) with 1 by (Z.div_mod_to_equations; lia).
    replace (8 * t * Ldb + kb * 8 + c) with idx by lia.
    unfold nibble. cbn [Z.eqb]. apply byte_of_nibbles.
  - pose proof (Z.div_mod idx Ldb ltac:(lia)) as E.
    pose proof (Z.mod_pos_bound idx Ldb ltac:(lia)) as B.
    assert (Hcol : 8 * (N / 8) <= idx / Ldb < N).
    { split; [apply Z.div_le_lower_bound; lia | apply Z.div_lt_upper_bound; lia]. }
    set (col := idx / Ldb) in *. set (off := idx mod Ldb) in *.
    pose proof (Z.div_mod off 8 ltac:(lia)) as E'.
    pose proof (Z.mod_pos_bound off 8 ltac:(lia)) as B'.
    assert (Hg : 0 <= off / 8 /\ 8 * (off / 8) + 8 <= Ldb)
      by (Z.div_mod_to_equations; lia).
    set (g := off / 8) in *. set (p := off mod 8) in *.
    exists col, (16 * g + p), (16 * g + p + 8).
    split; [lia|]. split; [lia|]. split; [lia|]. intros buf.
    unfold packed_nibble.
    destruct (Z.ltb_spec col (8 * (N / 8))); [lia|].
    replace ((16 * g + p) / 16) with g by (Z.div_mod_to_equations; lia).
    replace ((16 * g + p + 8) / 16) with g by (Z.div_mod_to_equations; lia).
    replace ((16 * g + p) mod 8) with p by (Z.div_mod_to_equations; lia).
    replace ((16 * g + p + 8) mod 8) with p by (Z.div_mod_to_equations; lia).
    replace ((16 * g + p) mod 16 / 8) with 0 by (Z.div_mod_to_equations; lia).
    replace ((16 * g + p + 8) mod 16 / 8) with 1 by (Z.div_mod_to_equations; lia).
    replace (col * Ldb + 8 * g + p) with idx by lia.
    unfold nibble. cbn [Z.eqb]. apply byte_of_nibbles.
Qed.

Lemma Forall_getb (P : Z -> Prop) (l : list Z) :
  (forall j, 0 <= j < Z.of_nat (length l) -> P (getb l j)) -> Forall P l.
Proof.
  intros H. apply Forall_nth. intros i d Hi.
  rewrite (nth_indep l d 0 Hi).
  specialize (H (Z.of_nat i) ltac:(lia)). unfold getb in H.
  now rewrite Nat2Z.id in H.
Qed.

(** The stride [TestPrepack] computes, when the computation does not wrap:
    a positive multiple of 8 that has room for [K] elements. *)
Lemma Ldb_of_room K b :
  1 <= K -> 4 <= b < 64 -> K + 2 ^ b - 1 <= SIZE_MAX ->
  K_padded K (2 ^ b) * 4 + 7 <= SIZE_MAX ->
  1 <= Ldb_of K (2 ^ b) /\ Ldb_of K (2 ^ b) mod 8 = 0 /\
  (K + 1) / 2 <= Ldb_of K (2 ^ b).
Proof.
  intros HK Hb Hx Hp.
  pose proof (Ldb_of_mod8 K b Hb) as H8.
  pose proof (Ldb_of_no_wrap K b HK ltac:(lia) Hx Hp) as E.
  assert (HB : 0 < 2 ^ b) by (apply Z.pow_pos_nonneg; lia).
  assert (HKp : K <= K_padded K (2 ^ b)).
  { unfold K_padded, ceil_div.
    pose proof (Z.div_mod (K + 2 ^ b - 1) (2 ^ b) ltac:(lia)).
    pose proof (Z.mod_pos_bound (K + 2 ^ b - 1) (2 ^ b) HB). lia. }
  assert (HL : (K + 1) / 2 <= Ldb_of K (2 ^ b)).
  { rewrite E. unfold Ldb_spec, ceil_div.
    replace ((K + 1) / 2) with ((4 * K + 4) / 8) by (Z.div_mod_to_equations; lia).
    apply Z.div_le_mono; lia. }
  assert (1 <= (K + 1) / 2) by (Z.div_mod_to_equations; lia).
  split; [lia|]. split; auto.
Qed.

Lemma TestPrepack_result kernel fuel pfuel N K BlkLen b gen pos :
  1 <= N -> 1 <= K -> BlkLen = 2 ^ b -> 4 <= b < 64 ->
  K + BlkLen - 1 <= SIZE_MAX -> K_padded K BlkLen * 4 + 7 <= SIZE_MAX ->
  N * Ldb_of K BlkLen <= max_size -> N <= max_size ->
  int_counter_ok (Ldb_of K BlkLen) N -> enough pfuel (Ldb_of K BlkLen) N ->
  (K + 1) / 2 < Z.of_nat pfuel -> N * Ldb_of K BlkLen < Z.of_nat fuel ->
  packs kernel N K BlkLen ->
  TestPrepack kernel fuel pfuel N K BlkLen gen pos
  = Passed (true, (pos + Z.to_nat (N * Ldb_of K BlkLen))%nat).
Proof.
  intros HN HK -> Hb Hx Hp Hmax HNmax Hint Hen Hpf Hf Hpk.
  destruct (Ldb_of_room K b HK Hb Hx Hp) as (HL1 & H8 & HLK).
  assert (HX : max_size = 9223372036854775807) by reflexivity.
  pose proof SIZE_MAX_eq as HM.
  unfold TestPrepack.
  assert (Hsz : BufferSize N K (2 ^ b) = N * Ldb_of K (2 ^ b)).
  { unfold BufferSize. apply smul_small. nia. }
  rewrite Hsz. set (Ldb := Ldb_of K (2 ^ b)) in *.
  assert (Hz : Z.of_nat (length (zero_buffer (N * Ldb))) = N * Ldb).
  { unfold zero_buffer. rewrite repeat_length. apply Z2Nat.id. nia. }
  destruct (InitializeBuffer_from_spec gen (N * Ldb) (Z.to_nat (N * Ldb)) fuel 0 pos
              (zero_buffer (N * Ldb))) as (input & E & L & _ & Hin); try lia; try nia.
  unfold InitializeBuffer. rewrite E. cbn [vbind fst snd].
  assert (Hlen : Z.of_nat (length input) = N * Ldb) by (rewrite L; exact Hz).
  assert (Hbytes : Forall is_byte input).
  { apply Forall_getb. intros j Hj. rewrite Hin by lia.
    unfold is_byte, uint8. apply Z.mod_pos_bound. lia. }
  assert (Hok : sizes_ok Ldb N) by (split; auto; lia).
  rewrite run_Prepack_events by auto.
  cbn [dst].
  destruct (Hpk input (zero_buffer (N * Ldb)) Hlen Hz Hbytes) as [Hkl Hkn].
  fold Ldb in Hkl, Hkn.
  set (packed := kernel N K Bits (2 ^ b) input (zero_buffer (N * Ldb))) in *.
  set (ref := replay (Prepack_events input Ldb N) (zero_buffer (N * Ldb))).
  assert (Hs : Check_sizes Ldb N K packed ref).
  { split; auto; try lia. subst ref. now rewrite replay_length. }
  assert (Hcf : Check_fuel pfuel N K).
  { destruct Hen as (F1 & F2 & F3). unfold Check_fuel. auto. }
  assert (Hpass : Check pfuel Ldb N K packed ref = Passed tt).
  { apply (proj2 (Check_spec pfuel Ldb N K packed ref Hs Hcf)).
    intros idx Hc. unfold compared in Hc.
    apply andb_prop in Hc as [Hc _]. apply andb_prop in Hc as [Hc1 Hc2].
    apply Z.leb_le in Hc1. apply Z.ltb_lt in Hc2.
    destruct (packed_byte_nibbles Ldb N idx Hok ltac:(lia))
      as (col & k0 & k1 & Hcol & Hk0 & Hk1 & Hb').
    rewrite (Hb' packed), (Hb' ref), !Hkn by lia.
    subst ref. now rewrite !packed_nibble_correct by (auto; lia). }
  rewrite Hpass. reflexivity.
Qed.

(** [TestPrepack<N, K, BlkLen>] passes for every kernel that leaves the
    packed layout, whatever the random engine draws: the reference packer
    runs to its end on the drawn buffer, [Check] stays inside the buffers
    and records no failure, and [N * Ldb] draws are taken. *)
Theorem TestPrepack_passes kernel fuel pfuel N K BlkLen b gen pos :
  1 <= N -> 1 <= K -> BlkLen = 2 ^ b -> 4 <= b < 64 ->
  K + BlkLen - 1 <= SIZE_MAX -> K_padded K BlkLen * 4 + 7 <= SIZE_MAX ->
  N * Ldb_of K BlkLen <= max_size -> N <= max_size ->
  int_counter_ok (Ldb_of K BlkLen) N -> enough pfuel (Ldb_of K BlkLen) N ->
  (K + 1) / 2 < Z.of_nat pfuel -> N * Ldb_of K BlkLen < Z.of_nat fuel ->
  packs kernel N K BlkLen ->
  TestPrepack kernel fuel pfuel N K BlkLen gen pos
  = Passed (true, (pos + Z.to_nat (N * Ldb_of K BlkLen))%nat).
Proof. apply TestPrepack_result. Qed.

Lemma Prepack_kernel_packs pfuel N K b :
  1 <= N -> 1 <= K -> 4 <= b < 64 ->
  K + 2 ^ b - 1 <= SIZE_MAX -> K_padded K (2 ^ b) * 4 + 7 <= SIZE_MAX ->
  N * Ldb_of K (2 ^ b) <= max_size ->
  int_counter_ok (Ldb_of K (2 ^ b)) N -> enough pfuel (Ldb_of K (2 ^ b)) N ->
  packs (Prepack_kernel pfuel) N K (2 ^ b).
Proof.
  intros HN HK Hb Hx Hp Hmax Hint Hen input packed Hlen Hpl Hbytes.
  destruct (Ldb_of_room K b HK Hb Hx Hp) as (HL1 & H8 & HLK).
  assert (HX : max_size = 9223372036854775807) by reflexivity.
  pose proof SIZE_MAX_eq as HM.
  assert (Hok : sizes_ok (Ldb_of K (2 ^ b)) N) by (split; auto; lia).
  unfold Prepack_kernel. rewrite run_Prepack_events by auto. cbn [dst].
  split; [now rewrite replay_length|].
  intros col kidx Hc Hk. now apply packed_nibble_correct.
Qed.

Lemma TestPrepack_passes_witness :
  TestPrepack (Prepack_kernel 49) 1089 49 17 67 16 (fun n => Z.of_nat n * 37) 0
  = Passed (true, 680%nat).
Proof.
  assert (HL : Ldb_of 67 16 = 40) by (vm_compute; reflexivity).
  assert (HP : K_padded 67 16 = 80) by (vm_compute; reflexivity).
  assert (HX : max_size = 9223372036854775807) by reflexivity.
  pose proof SIZE_MAX_eq as HM. pose proof INT_MAX_eq as HI.
  assert (Hen : enough 49 (Ldb_of 67 16) 17)
    by (rewrite HL; unfold enough; repeat split; reflexivity).
  assert (Hint : int_counter_ok (Ldb_of 67 16) 17) by (right; lia).
  refine (TestPrepack_passes (Prepack_kernel 49) 1089 49 17 67 16 4
            (fun n => Z.of_nat n * 37) 0 _ _ eq_refl _ _ _ _ _ Hint Hen _ _ _);
    try lia.
  - reflexivity.
  - apply (Prepack_kernel_packs 49 17 67 4); auto; try lia;
      change (2 ^ 4) with 16; lia.
Defined.

(** The sizes of the ten instantiations: a power-of-two [BlkLen >= 16], no
    wrap-around, a stride of at most 64 and buffers of at most 1088 bytes. *)
Lemma ExecuteShort_cases_sizes N K BlkLen :
  In (N, K, BlkLen) ExecuteShort_cases ->
  exists b,
    BlkLen = 2 ^ b /\ 4 <= b < 64 /\ 1 <= N <= 17 /\ 1 <= K <= 96 /\
    K + BlkLen - 1 <= SIZE_MAX /\ K_padded K BlkLen * 4 + 7 <= SIZE_MAX /\
    Ldb_of K BlkLen <= 64 /\ N * Ldb_of K BlkLen <= 1088.
Proof.
  unfold ExecuteShort_cases. intros H.
  repeat (destruct H as [H | H];
          [injection H as <- <- <-;
           first [exists 4; repeat split; vm_compute; congruence
                 |exists 5; repeat split; vm_compute; congruence
                 |exists 7; repeat split; vm_compute; congruence]|]).
  destruct H.
Qed.

Lemma ExecuteShort_case_fuel pfuel N K BlkLen :
  In (N, K, BlkLen) ExecuteShort_cases -> (48 < pfuel)%nat ->
  int_counter_ok (Ldb_of K BlkLen) N /\ enough pfuel (Ldb_of K BlkLen) N /\
  (K + 1) / 2 < Z.of_nat pfuel.
Proof.
  intros Hin Hp.
  destruct (ExecuteShort_cases_sizes N K BlkLen Hin)
    as (b & _ & _ & HN & HK & _ & _ & HL & _).
  pose proof INT_MAX_eq.
  split; [right; lia|]. split.
  - unfold enough. repeat split.
    + assert (N / 8 <= 17 / 8) by (apply Z.div_le_mono; lia).
      change (17 / 8) with 2 in *. lia.
    + assert (Ldb_of K BlkLen / 8 <= 64 / 8) by (apply Z.div_le_mono; lia).
      change (64 / 8) with 8 in *. lia.
    + pose proof (Z.mod_pos_bound N 8 ltac:(lia)). lia.
  - assert ((K + 1) / 2 <= (96 + 1) / 2) by (apply Z.div_le_mono; lia).
    change ((96 + 1) / 2) with 48 in *. lia.
Qed.

Lemma fold_cases_pass (run : Z * Z * Z -> nat -> verdict (bool * nat)) cases :
  (forall c pos, In c cases -> exists pos', run c pos = Passed (true, pos')) ->
  forall pos0, exists pos',
    fold_left (fun acc c =>
       vbind acc (fun a =>
         vbind (run c (snd a)) (fun r => Passed (fst a && fst r, snd r))))
      cases (Passed (true, pos0))
    = Passed (true, pos').
Proof.
  induction cases as [|c cases IH]; intros H pos0; [now exists pos0|].
  cbn [fold_left vbind snd fst].
  destruct (H c pos0 ltac:(now left)) as [pos1 E]. rewrite E.
  cbn [vbind fst snd andb]. apply IH. intros c' pos Hc'. apply H. now right.
Qed.

(** [ExecuteShort] of the packing test passes for every kernel that leaves
    the packed layout, whatever the random engine draws: each of its ten
    instantiations has a power-of-two [BlkLen >= 16], so a stride that is a
    multiple of 8 and within the range of the [int] counter, and none comes
    near the wrap-around of [size_t]. *)
Theorem ExecuteShort_prepack_passes kernel fuel pfuel gen :
  (1088 < fuel)%nat -> (48 < pfuel)%nat ->
  (forall N K BlkLen, In (N, K, BlkLen) ExecuteShort_cases ->
     packs kernel N K BlkLen) ->
  ExecuteShort_prepack kernel fuel pfuel gen = Passed true.
Proof.
  intros Hf Hp Hk. unfold ExecuteShort_prepack.
  destruct (fold_cases_pass
              (fun c pos => TestPrepack kernel fuel pfuel (fst (fst c)) (snd (fst c))
                                        (snd c) gen pos)
              ExecuteShort_cases) with (pos0 := 0%nat) as [pos' E].
  - intros [[N K] BlkLen] pos Hin. cbn [fst snd].
    destruct (ExecuteShort_cases_sizes N K BlkLen Hin)
      as (b & HB & Hb & HN & HK & Hx & Hpd & HL & HNL).
    destruct (ExecuteShort_case_fuel pfuel N K BlkLen Hin Hp) as (Hint & Hen & HKf).
    assert (HX : max_size = 9223372036854775807) by reflexivity.
    eexists. apply (TestPrepack_result kernel fuel pfuel N K BlkLen b); auto; lia.
  - cbv beta in E. rewrite E. reflexivity.
Qed.

Lemma ExecuteShort_prepack_passes_witness :
  ExecuteShort_prepack (Prepack_kernel 49) 1089 49 (fun n => Z.of_nat n * 37)
  = Passed true.
Proof.
  apply ExecuteShort_prepack_passes; [lia | lia |].
  intros N K BlkLen Hin.
  destruct (ExecuteShort_cases_sizes N K BlkLen Hin)
    as (b & -> & Hb & HN & HK & Hx & Hpd & HL & HNL).
  destruct (ExecuteShort_case_fuel 49 N K (2 ^ b) Hin ltac:(lia)) as (Hint & Hen & _).
  assert (HX : max_size = 9223372036854775807) by reflexivity.
  apply Prepack_kernel_packs; auto; lia.
Defined.

(** ** More on the cast checks *)

Lemma skip_mask_exponent p :
  0 <= p < 65536 -> (Z.land p 7168 =? 7168) = (F16_exp p mod 8 =? 7).
Proof.
  intros Hp.
  assert (H : skip_mask_exponent_at p = true).
  { apply (all_from_spec skip_mask_exponent_at (Z.to_nat 65536) 0);
      [vm_compute; reflexivity | lia]. }
  now apply eqb_prop in H.
Qed.

Lemma forallb_ext_in {A} (f g : A -> bool) l :
  (forall a, In a l -> f a = g a) -> forallb f l = forallb g l.
Proof.
  induction l as [|x l IH]; intros H; simpl; auto.
  rewrite (H x) by now left. rewrite IH; auto. intros a Ha. apply H. now right.
Qed.

Lemma TestFp16ToFp32_inputs_nth count i :
  (i < count)%nat -> (count <= sweep)%nat ->
  nth i (TestFp16ToFp32_inputs count) 0 = Z.of_nat i.
Proof.
  intros Hi Hc. unfold sweep in Hc. unfold TestFp16ToFp32_inputs.
  rewrite (nth_indep _ 0 (uint16 (Z.of_nat 0)))
    by (rewrite length_map, length_seq; lia).
  rewrite (map_nth (fun i => uint16 (Z.of_nat i))), seq_nth by lia.
  unfold uint16. apply Z.mod_small. lia.
Qed.

(** [TestFp16ToFp32] does not look at the output for a pattern whose
    exponent field is 7, 15, 23 or 31 (the patterns its mask [0x1c00]
    skips): whatever the kernel leaves there, the outcome is the same.
    Exponent 31 is infinity and NaN; the patterns with exponent 7, 15 and 23
    are finite. *)
Theorem TestFp16ToFp32_unchecked (kernel : list Z -> nat -> list Z)
        (reference : Z -> Z) (count p : nat) (v : Z) :
  (p < count)%nat -> (count <= sweep)%nat ->
  F16_exp (Z.of_nat p) mod 8 = 7 ->
  TestFp16ToFp32 (fun src n => list_set (kernel src n) p v) reference count
  = TestFp16ToFp32 kernel reference count.
Proof.
  intros Hp Hc He. unfold TestFp16ToFp32. apply forallb_ext_in.
  intros i Hi. apply in_seq in Hi.
  rewrite TestFp16ToFp32_inputs_nth by lia.
  destruct (Nat.eq_dec i p) as [-> | Hne].
  - unfold sweep in Hc. rewrite skip_mask_exponent by lia.
    rewrite He. reflexivity.
  - rewrite nth_list_set_neq by auto. reflexivity.
Qed.

Lemma TestFp16ToFp32_unchecked_witness :
  TestFp16ToFp32 (fun src n => list_set (WidenToFull src n) (Z.to_nat 7168) 0)
                 widen_scalar (Z.to_nat 7169)
  = TestFp16ToFp32 WidenToFull widen_scalar (Z.to_nat 7169) /\
  F16_finite 7168 = true /\ F16_exp 7168 = 7.
Proof.
  split; [|split; reflexivity].
  apply TestFp16ToFp32_unchecked.
  - lia.
  - unfold sweep. lia.
  - rewrite Z2Nat.id by lia. reflexivity.
Defined.

Lemma ExecuteShort_cast_passes_witness :
  ExecuteShort_cast WidenToFull NarrowToHalf widen_scalar narrow_scalar = true.
Proof.
  apply ExecuteShort_cast_passes.
  - intros p Hp Hf.
    destruct (widen_exact p Hp Hf) as (Hv & Hs & Hfin & Heq & _).
    rewrite Heq. split; [|split; auto].
    unfold F32_isnan. unfold F32_finite in Hfin.
    destruct (F32_exp (widen_vector p) =? 255); [discriminate | reflexivity].
  - intros x Hx. now apply (narrow_lane_round_to_nearest false).
Defined.
